(** * PopenMgr: the line reader, the stream capture manager and the
      execution controller, embedded from [text.py] and [process.py].

    Layout of the development:
    - [Bytes]      byte strings, Python slices, [readline] on a file image;
    - [Codecs]     what [bytes.decode] needs of an encoding, and three
                   codecs (UTF-8, ASCII, Latin-1) to run the model on;
    - [Text]       [TextFileParser] and its [readlines], with the
                   encoding repair of [__readlines_with_encoding_fix];
    - [Stream]     [_StdStreamManager] and one pass of its size monitor;
    - [Proc]       [PopenProcMgr]: [__init__], [start], [_wait], [wait],
                   [run], [kill], [clean], [pick_stdout], [pick_stderr],
                   as methods over the object and the world around it;
    - [Notions], [Shapes], [Demo]: what the statements are written with,
                   and concrete controllers and children;
    - the lemmas and theorems, component by component.

    The codec registry of the interpreter and the detector of [chardet]
    are not part of the program: the reader and the controller take them
    as parameters. *)

From Stdlib Require Import ZArith NArith QArith Lia Bool.
From Stdlib Require Import Strings.Byte.
From stdpp Require Import base option list strings gmap.

Local Close Scope Q_scope.
Local Open Scope nat_scope.

(* ===================================================================== *)
(** ** Byte strings *)
(* ===================================================================== *)

Module Bytes.

(** A Python [bytes] value. *)
Definition bytes := list byte.

(** A Python [str] value: the sequence of its code points. *)
Definition text := list N.

Definition NL : byte := x0a.

Definition is_nl (b : byte) : bool := Byte.eqb b NL.

(** Bytes of an ASCII literal, to write inputs down. *)
Definition b_ (s : string) : bytes := String.list_byte_of_string s.

(** Code points of an ASCII literal. *)
Definition t_ (s : string) : text := map Byte.to_N (String.list_byte_of_string s).

(** [l[:m]] for a Python sequence: a non-negative [m] keeps the first
    [m] items, a negative [m] drops the last [-m] items. *)
Definition slice_to {A} (m : Z) (l : list A) : list A :=
  if (0 <=? m)%Z then firstn (Z.to_nat m) l
  else firstn (length l - Z.to_nat (- m)) l.

(** The bytes one [readline()] returns on the unread part [rest] of a
    file: up to and including the first newline, or all of [rest]
    when it holds no newline; [b''] when nothing is left. *)
Fixpoint take_line (rest : bytes) : bytes :=
  match rest with
  | [] => []
  | b :: r => if is_nl b then [b] else b :: take_line r
  end.

(** [fileIO.readline()] with the handle at offset [pos] of a file
    whose image is [file]. A position past the end reads nothing. *)
Definition readline (file : bytes) (pos : nat) : bytes :=
  take_line (skipn pos file).

(** The results of the successive [readline()] calls on [rest], the
    empty reads at the end left out. *)
Fixpoint file_lines (rest : bytes) : list bytes :=
  match rest with
  | [] => []
  | b :: r =>
      if is_nl b then [b] :: file_lines r
      else match file_lines r with
           | [] => [[b]]
           | ln :: lns => (b :: ln) :: lns
           end
  end.

(** A line and its terminator, as a child process writes it. *)
Definition with_nl (line : bytes) : bytes := line ++ [NL].

Definition is_ascii (b : byte) : bool := (Byte.to_N b <? 128)%N.

End Bytes.
Export Bytes.

(* ===================================================================== *)
(** ** Codecs *)
(* ===================================================================== *)

Module Codecs.

(** What [bytes.decode(encoding, errors)] needs of one encoding: the
    strict decoder, which fails with [UnicodeDecodeError] ([None]), and
    the decoder under [errors='replace'], which substitutes U+FFFD and
    always returns. *)
Record Codec := {
  decode_strict : bytes -> option text;
  decode_replace : bytes -> text;
}.

Definition REPLACEMENT : N := 65533%N.

(** One decoded item: a code point, or an undecodable stretch. *)
Inductive item := Char (c : N) | Bad.

Definition all_chars (l : list item) : option text :=
  mapM (fun i => match i with Char c => Some c | Bad => None end) l.

Definition replace_bad (l : list item) : text :=
  map (fun i => match i with Char c => c | Bad => REPLACEMENT end) l.

Definition codec_of_items (f : bytes -> list item) : Codec :=
  {| decode_strict := fun raw => all_chars (f raw);
     decode_replace := fun raw => replace_bad (f raw) |}.

(** *** UTF-8 *)

(** Decoder state between two bytes: idle, or inside a sequence with
    [need] continuation bytes still to come, the bits gathered so far
    and the range allowed for the next byte. *)
Inductive utf8_state :=
| Idle
| Pending (need : nat) (acc : N) (lo hi : N).

Definition utf8_lead (b : N) : option utf8_state :=
  (if b <? 0xC2 then None
   else if b <? 0xE0 then Some (Pending 1 (N.land b 0x1F) 0x80 0xBF)
   else if b =? 0xE0 then Some (Pending 2 (N.land b 0x0F) 0xA0 0xBF)
   else if b =? 0xED then Some (Pending 2 (N.land b 0x0F) 0x80 0x9F)
   else if b <? 0xF0 then Some (Pending 2 (N.land b 0x0F) 0x80 0xBF)
   else if b =? 0xF0 then Some (Pending 3 (N.land b 0x07) 0x90 0xBF)
   else if b <? 0xF4 then Some (Pending 3 (N.land b 0x07) 0x80 0xBF)
   else if b =? 0xF4 then Some (Pending 3 (N.land b 0x07) 0x80 0x8F)
   else None)%N.

Fixpoint utf8_items (st : utf8_state) (raw : bytes) : list item :=
  match raw with
  | [] => match st with Idle => [] | Pending _ _ _ _ => [Bad] end
  | x :: r =>
      let b := Byte.to_N x in
      let start :=
        if (b <? 0x80)%N then Char b :: utf8_items Idle r
        else match utf8_lead b with
             | Some p => utf8_items p r
             | None => Bad :: utf8_items Idle r
             end in
      match st with
      | Idle => start
      | Pending need acc lo hi =>
          if ((lo <=? b) && (b <=? hi))%N then
            let acc' := (acc * 64 + N.land b 0x3F)%N in
            match need with
            | 0 | 1 => Char acc' :: utf8_items Idle r
            | S n => utf8_items (Pending n acc' 0x80 0xBF) r
            end
          else Bad :: start
      end
  end.

Definition utf8 : Codec := codec_of_items (utf8_items Idle).

(** *** ASCII and Latin-1 *)

Definition ascii_items (raw : bytes) : list item :=
  map (fun x => if is_ascii x then Char (Byte.to_N x) else Bad) raw.

Definition ascii : Codec := codec_of_items ascii_items.

Definition latin1 : Codec :=
  codec_of_items (map (fun x => Char (Byte.to_N x))).

(** A registry with the three codecs above; any other name is unknown
    to it, as a name the interpreter has no codec for. *)
Definition small_registry (name : string) : option Codec :=
  if String.eqb name "utf-8" then Some utf8
  else if String.eqb name "ascii" then Some ascii
  else if String.eqb name "latin-1" then Some latin1
  else None.

End Codecs.
Export Codecs.

(* ===================================================================== *)
(** ** The line reader of [text.py] *)
(* ===================================================================== *)

Module Text.

Inductive errors := strict | replace.

(** The exceptions that leave [readlines]: the [CustomError] of strict
    mode, with the line it gave up on, and the [LookupError] of a
    [decode] under a name the interpreter has no codec for. *)
Inductive exn :=
| CustomError (raw_line : bytes)
| LookupError (encoding : string).

(** What the reader did to the outside, in order: every call of
    [bytes.decode] and every call of the encoding oracle. *)
Inductive event :=
| Decode (encoding : string) (how : errors) (raw_line : bytes)
| Detect (raw_line : bytes).

Record TextFileParser := {
  _file_path : string;
  _default_encoding : string;
  _fixed_encoding : string;
  tell : nat;                  (* offset of [_fileIO] *)
}.

(** [TextFileParser(file_path, default_encoding)]; the file is opened
    at offset 0. *)
Definition new_parser (file_path default_encoding : string) : TextFileParser :=
  {| _file_path := file_path;
     _default_encoding := default_encoding;
     _fixed_encoding := EmptyString;
     tell := 0 |}.

Definition set_fixed (e : string) (p : TextFileParser) : TextFileParser :=
  {| _file_path := _file_path p;
     _default_encoding := _default_encoding p;
     _fixed_encoding := e;
     tell := tell p |}.

Definition seek (pos : nat) (p : TextFileParser) : TextFileParser :=
  {| _file_path := _file_path p;
     _default_encoding := _default_encoding p;
     _fixed_encoding := _fixed_encoding p;
     tell := pos |}.

(** [reach_end]: the handle's offset against the size of the file. *)
Definition reach_end (file : bytes) (p : TextFileParser) : bool :=
  length file <=? tell p.

(** The object and the locals of one [__readlines_with_encoding_fix]
    call, with the log of what it has done so far. *)
Record frame := {
  self : TextFileParser;
  errors_strategy : errors;
  encoding : string;
  read_size : nat;
  lines : list text;
  log : list event;
}.

Definition advance (n : nat) (f : frame) : frame :=
  {| self := seek (tell (self f) + n) (self f);
     errors_strategy := errors_strategy f;
     encoding := encoding f;
     read_size := read_size f + n;
     lines := lines f;
     log := log f |}.

Definition append_line (t : text) (f : frame) : frame :=
  {| self := self f;
     errors_strategy := errors_strategy f;
     encoding := encoding f;
     read_size := read_size f;
     lines := lines f ++ [t];
     log := log f |}.

Definition note (e : event) (f : frame) : frame :=
  {| self := self f;
     errors_strategy := errors_strategy f;
     encoding := encoding f;
     read_size := read_size f;
     lines := lines f;
     log := log f ++ [e] |}.

Definition use_replace (f : frame) : frame :=
  {| self := self f;
     errors_strategy := replace;
     encoding := encoding f;
     read_size := read_size f;
     lines := lines f;
     log := log f |}.

(** [encoding = fixed_encoding; self._fixed_encoding = encoding]. *)
Definition adopt (e : string) (f : frame) : frame :=
  {| self := set_fixed e (self f);
     errors_strategy := errors_strategy f;
     encoding := e;
     read_size := read_size f;
     lines := lines f;
     log := log f |}.

Section Reader.

(** The interpreter's codec registry and the detector behind
    [chardet.detect(text)["encoding"]]. *)
Variable lookup_codec : string -> option Codec.
Variable chardet_detect : bytes -> option string.

Inductive decoded :=
| Decoded (t : text)
| UnicodeDecodeError
| UnknownEncoding.

(** [raw_line.decode(encoding, errors = how)]. *)
Definition decode (raw_line : bytes) (enc : string) (how : errors) : decoded :=
  match lookup_codec enc with
  | None => UnknownEncoding
  | Some c =>
      match how with
      | strict =>
          match decode_strict c raw_line with
          | Some t => Decoded t
          | None => UnicodeDecodeError
          end
      | replace => Decoded (decode_replace c raw_line)
      end
  end.

(** [detect_bytes_encoding]: "ascii" and "utf-8" are one encoding. *)
Definition detect_bytes_encoding (raw : bytes) : option string :=
  match chardet_detect raw with
  | Some e =>
      if String.eqb e "utf-8" || String.eqb e "ascii" then Some "utf-8"%string
      else Some e
  | None => None
  end.

(** The [for retry_count in range(3)] loop on one line, [retries]
    rounds of it. A line no round decodes is not appended. *)
Fixpoint decode_retry (retries : nat) (strict_decode : bool)
    (raw_line : bytes) (f : frame) : option exn * frame :=
  match retries with
  | 0 => (None, f)
  | S retries' =>
      let f := note (Decode (encoding f) (errors_strategy f) raw_line) f in
      match decode raw_line (encoding f) (errors_strategy f) with
      | Decoded decoded_line => (None, append_line decoded_line f)
      | UnknownEncoding => (Some (LookupError (encoding f)), f)
      | UnicodeDecodeError =>
          let f := note (Detect raw_line) f in
          match detect_bytes_encoding raw_line with
          | None =>
              if strict_decode then (Some (CustomError raw_line), f)
              else decode_retry retries' strict_decode raw_line (use_replace f)
          | Some fixed_encoding =>
              decode_retry retries' strict_decode raw_line (adopt fixed_encoding f)
          end
      end
  end.

(** The test of the [while]. *)
Definition wants_more (line_num_to_read : Z) (f : frame) : bool :=
  (line_num_to_read =? -1)%Z
  || (Z.of_nat (length (lines f)) <? line_num_to_read)%Z.

(** The [while] loop; [pending] holds what the coming [readline()]
    calls return, and once it is used up they return [b'']. *)
Fixpoint read_loop (line_num_to_read max_len_one_line : Z) (strict_decode : bool)
    (pending : list bytes) (f : frame) : option exn * frame :=
  if wants_more line_num_to_read f then
    match pending with
    | [] => (None, f)
    | raw_line :: pending' =>
        let f := advance (length raw_line) f in
        let raw_line := slice_to max_len_one_line raw_line in
        if length raw_line =? 0 then (None, f)
        else
          match decode_retry 3 strict_decode raw_line f with
          | (Some e, f') => (Some e, f')
          | (None, f') =>
              read_loop line_num_to_read max_len_one_line strict_decode pending' f'
          end
    end
  else (None, f).

Definition enter (p : TextFileParser) : frame :=
  {| self := p;
     errors_strategy := strict;
     encoding := if String.eqb (_fixed_encoding p) EmptyString
                 then _default_encoding p else _fixed_encoding p;
     read_size := 0;
     lines := [];
     log := [] |}.

(** [__readlines_with_encoding_fix] on a file whose image is [file]:
    the exception if one was raised, and the frame at the end. *)
Definition run_readlines (file : bytes) (p : TextFileParser)
    (line_num_to_read max_len_one_line : Z) (strict_decode : bool)
    : option exn * frame :=
  read_loop line_num_to_read max_len_one_line strict_decode
    (file_lines (skipn (tell p) file)) (enter p).

(** [readlines]: the returned pair, or the exception, and the reader
    afterwards. *)
Definition readlines (file : bytes) (p : TextFileParser)
    (line_num max_len_one_line : Z) (strict_decode : bool)
    : (exn + list text * nat) * TextFileParser :=
  match run_readlines file p line_num max_len_one_line strict_decode with
  | (Some e, f) => (inl e, self f)
  | (None, f) => (inr (lines f, read_size f), self f)
  end.

(** The oracle calls of a log. *)
Definition detections (l : list event) : list bytes :=
  omap (fun e => match e with Detect r => Some r | Decode _ _ _ => None end) l.

(** The [decode] calls of a log. *)
Definition decodings (l : list event) : list (string * errors * bytes) :=
  omap (fun e => match e with
                 | Decode enc how r => Some (enc, how, r)
                 | Detect _ => None
                 end) l.

End Reader.

(** A detector for running the model: bytes that are all ASCII are
    reported as "ascii", a line holding byte 0xFF is reported as
    "latin-1" when [guess_latin1] is set, and nothing else is
    recognised. *)
Definition toy_detect (guess_latin1 : bool) (raw : bytes) : option string :=
  if forallb is_ascii raw then Some "ascii"%string
  else if guess_latin1 && existsb (Byte.eqb xff) raw then Some "latin-1"%string
  else None.

(** A detector that always answers "ascii". *)
Definition stubborn_detect (raw : bytes) : option string := Some "ascii"%string.

End Text.
Export Text.

(* ===================================================================== *)
(** ** The stream capture manager of [process.py] *)
(* ===================================================================== *)

Module Stream.

(** One [_StdStreamManager] with the file it owns. The read handle is
    the parser's ([rb+]), the write handle ([wb]) is the one the child
    inherits, so its offset is the child's too. *)
Record _StdStreamManager := {
  _max_size : Z;
  file_prefix : string;
  file_suffix : string;
  _stream_text_parser : TextFileParser;
  write_tell : nat;            (* offset of [_stream_write_fileIO] *)
  file : bytes;                (* image of the backing file *)
  on_disk : bool;              (* the path still exists *)
  monitoring : bool;           (* monitor thread started and not told to stop *)
  closed : bool;               (* both handles closed *)
}.

Definition with_parser (p : TextFileParser) (m : _StdStreamManager) :=
  {| _max_size := _max_size m; file_prefix := file_prefix m;
     file_suffix := file_suffix m; _stream_text_parser := p;
     write_tell := write_tell m; file := file m; on_disk := on_disk m;
     monitoring := monitoring m; closed := closed m |}.

Definition with_write_tell (n : nat) (m : _StdStreamManager) :=
  {| _max_size := _max_size m; file_prefix := file_prefix m;
     file_suffix := file_suffix m; _stream_text_parser := _stream_text_parser m;
     write_tell := n; file := file m; on_disk := on_disk m;
     monitoring := monitoring m; closed := closed m |}.

Definition with_file (f : bytes) (m : _StdStreamManager) :=
  {| _max_size := _max_size m; file_prefix := file_prefix m;
     file_suffix := file_suffix m; _stream_text_parser := _stream_text_parser m;
     write_tell := write_tell m; file := f; on_disk := on_disk m;
     monitoring := monitoring m; closed := closed m |}.

(** [_StdStreamManager(file_prefix, file_suffix, max_size)]: a new
    empty file, both handles at 0, the monitor started for a positive
    [max_size] only. *)
Definition new_manager (prefix suffix : string) (max_size : Z) : _StdStreamManager :=
  {| _max_size := max_size; file_prefix := prefix; file_suffix := suffix;
     _stream_text_parser := new_parser (prefix +:+ suffix) "utf-8";
     write_tell := 0; file := []; on_disk := true;
     monitoring := (0 <? max_size)%Z; closed := false |}.

#[global] Instance manager_inhabited : Inhabited _StdStreamManager :=
  populate (new_manager EmptyString EmptyString 0).

(** [delete_file]. *)
Definition delete_file (m : _StdStreamManager) : _StdStreamManager :=
  {| _max_size := _max_size m; file_prefix := file_prefix m;
     file_suffix := file_suffix m; _stream_text_parser := _stream_text_parser m;
     write_tell := write_tell m; file := file m; on_disk := false;
     monitoring := monitoring m; closed := closed m |}.

(** [__del__]: the monitor is told to stop and the handles are closed. *)
Definition del (m : _StdStreamManager) : _StdStreamManager :=
  {| _max_size := _max_size m; file_prefix := file_prefix m;
     file_suffix := file_suffix m; _stream_text_parser := _stream_text_parser m;
     write_tell := write_tell m; file := file m; on_disk := on_disk m;
     monitoring := false; closed := true |}.

Definition is_stream_end (m : _StdStreamManager) : bool :=
  reach_end (file m) (_stream_text_parser m).

(** The bytes of the file the reader has not consumed yet. *)
Definition unread (m : _StdStreamManager) : bytes :=
  skipn (tell (_stream_text_parser m)) (file m).

(** A [write] of [data] at offset [pos]; a gap past the end reads as
    zero bytes. *)
Definition write_at (pos : nat) (data : bytes) (f : bytes) : bytes :=
  firstn pos f ++ repeat x00 (pos - length f) ++ data
    ++ skipn (pos + length data) f.

(** The child writes [data] through the descriptor it inherited. *)
Definition child_write (data : bytes) (m : _StdStreamManager) : _StdStreamManager :=
  with_write_tell (write_tell m + length data)
    (with_file (write_at (write_tell m) data (file m)) m).

(** *** The size monitor *)

(** The two objects handed to the monitor thread. *)
Inductive pipe := read_pipe | write_pipe.

(** Both were opened writable: ["rb+"] and ["wb"]. *)
Definition writable (h : pipe) : bool :=
  match h with read_pipe => true | write_pipe => true end.

Definition seek0 (h : pipe) (m : _StdStreamManager) : _StdStreamManager :=
  match h with
  | read_pipe => with_parser (seek 0 (_stream_text_parser m)) m
  | write_pipe => with_write_tell 0 m
  end.

(** [file_obj.truncate(0)]. *)
Definition truncate0 (m : _StdStreamManager) : _StdStreamManager :=
  with_file (firstn 0 (file m)) m.

(** The body of [for file_obj in file_objs]; [flush] has nothing to
    write here. *)
Definition rewind (m : _StdStreamManager) (h : pipe) : _StdStreamManager :=
  let m := seek0 h m in
  if writable h then truncate0 m else m.

(** [beyond_size > max_size * 0.5], over the rationals: the product
    and the comparison are exact for sizes below 2^53. *)
Definition beyond_limit (file_size max_size : Z) : bool :=
  let beyond_size := (file_size - max_size)%Z in
  negb (Qle_bool (inject_Z beyond_size) (inject_Z max_size * (1 # 2))%Q).

Definition reset (m : _StdStreamManager) : _StdStreamManager :=
  fold_left rewind [read_pipe; write_pipe] m.

(** One pass of the [while] of [file_size_monitor]. *)
Definition file_size_monitor (m : _StdStreamManager) : _StdStreamManager :=
  if beyond_limit (Z.of_nat (length (file m))) (_max_size m) then reset m else m.

Section Pick.
Variable lookup_codec : string -> option Codec.
Variable chardet_detect : bytes -> option string.

(** [pick_lines]. *)
Definition pick_lines (m : _StdStreamManager)
    (line_num max_len_one_line : Z) (strict_decode_mode : bool)
    : (Text.exn + list text * nat) * _StdStreamManager :=
  let '(r, p) := readlines lookup_codec chardet_detect (file m)
                   (_stream_text_parser m) line_num max_len_one_line
                   strict_decode_mode in
  (r, with_parser p m).
End Pick.

End Stream.
Export Stream.

(* ===================================================================== *)
(** ** The execution controller of [process.py] *)
(* ===================================================================== *)

(** The controller runs in a world it does not own: the child writes
    and exits, the clock advances, the monitor threads make their
    passes. The world carries a script of such actions, and moves on by
    one entry of it each time the controller looks at it: when it polls
    the process, asks a manager whether its stream is at its end, picks
    lines, or reads the clock. Times are counted in ticks of the
    monotonic clock. What the controller sees and does is entered in a
    journal. A [while] that has no bound of its own runs on fuel. *)
Module Proc.

Inductive stream := STDOUT | STDERR.

Inductive status := Running | Exited (returncode : Z).

(** What happens around the controller between two of its looks at
    the outside: the child writes or exits, the clock advances, the
    monitor thread of a manager makes a pass. *)
Inductive action :=
| Write (fd : stream) (data : bytes)
| Exit (returncode : Z)
| Elapse (ticks : N)
| Monitor (manager : nat).

(** What the controller did, in order. *)
Inductive entry :=
| Backlog (b : bool)                       (* [still_remain_output_to_read()] gave [b] *)
| Living (b : bool)                        (* [is_living()] gave [b] *)
| Picked (s : stream) (got : list text) (size : nat) (* [pick_stdout/pick_stderr] gave this *)
| Logged (msg : text)                      (* the log callback was called *)
| Clock (t : Z)                            (* [time.monotonic()] gave [t] *)
| Killed (pid : nat) (ok : bool).          (* [_kill_process_tree(pid)] gave [ok] *)

Record World := {
  heap : gmap nat _StdStreamManager;       (* the manager objects *)
  next : nat;                              (* next free address *)
  child : option status;                   (* None: nothing spawned yet *)
  child_stdout : option nat;               (* where fd 1 of the child goes; None: DEVNULL *)
  child_stderr : option nat;
  kill_works : bool;                       (* what the tree terminator will achieve *)
  now : Z;                                 (* the monotonic clock, in ticks *)
  script : list (list action);             (* what the outside does, look by look *)
  journal : list entry;
}.

Definition set_heap (h : gmap nat _StdStreamManager) (w : World) : World :=
  {| heap := h; next := next w; child := child w; child_stdout := child_stdout w;
     child_stderr := child_stderr w; kill_works := kill_works w; now := now w;
     script := script w; journal := journal w |}.

Definition set_next (n : nat) (w : World) : World :=
  {| heap := heap w; next := n; child := child w; child_stdout := child_stdout w;
     child_stderr := child_stderr w; kill_works := kill_works w; now := now w;
     script := script w; journal := journal w |}.

Definition set_child (c : option status) (w : World) : World :=
  {| heap := heap w; next := next w; child := c; child_stdout := child_stdout w;
     child_stderr := child_stderr w; kill_works := kill_works w; now := now w;
     script := script w; journal := journal w |}.

Definition set_fds (o e : option nat) (w : World) : World :=
  {| heap := heap w; next := next w; child := child w; child_stdout := o;
     child_stderr := e; kill_works := kill_works w; now := now w;
     script := script w; journal := journal w |}.

Definition set_now (t : Z) (w : World) : World :=
  {| heap := heap w; next := next w; child := child w; child_stdout := child_stdout w;
     child_stderr := child_stderr w; kill_works := kill_works w; now := t;
     script := script w; journal := journal w |}.

Definition set_script (s : list (list action)) (w : World) : World :=
  {| heap := heap w; next := next w; child := child w; child_stdout := child_stdout w;
     child_stderr := child_stderr w; kill_works := kill_works w; now := now w;
     script := s; journal := journal w |}.

Definition set_journal (j : list entry) (w : World) : World :=
  {| heap := heap w; next := next w; child := child w; child_stdout := child_stdout w;
     child_stderr := child_stderr w; kill_works := kill_works w; now := now w;
     script := script w; journal := j |}.

Definition fd_target (fd : stream) (w : World) : option nat :=
  match fd with STDOUT => child_stdout w | STDERR => child_stderr w end.

Definition act (w : World) (a : action) : World :=
  match a with
  | Write fd data =>
      match child w, fd_target fd w with
      | Some Running, Some l => set_heap (alter (child_write data) l (heap w)) w
      | _, _ => w
      end
  | Exit rc =>
      match child w with
      | Some Running => set_child (Some (Exited rc)) w
      | _ => w
      end
  | Elapse dt => set_now (now w + Z.of_N dt)%Z w
  | Monitor l =>
      set_heap (alter (fun m => if monitoring m then file_size_monitor m else m)
                  l (heap w)) w
  end.

(** The outside moves on by one entry of the script. *)
Definition tick (w : World) : World :=
  match script w with
  | [] => w
  | acts :: rest => fold_left act acts (set_script rest w)
  end.

Record PopenProcMgr := {
  _executable_path : string;
  _args : list string;
  _merget_option : bool;
  _stdout_collect_option : bool;
  _stderr_collect_option : bool;
  _stdout_manager : option nat;
  _stderr_manager : option nat;
  _proc_label : string;
  stdout_buffer_size : Z;                  (* [_stdout_manager_args["max_size"]] *)
  stderr_buffer_size : Z;
  _stdin_file_stream : bool;               (* a stdin file is open *)
  _call_back : bool;                       (* a log callback is set *)
  _popen : option nat;                     (* pid of the attached process *)
}.

Definition set_managers (o e : option nat) (p : PopenProcMgr) : PopenProcMgr :=
  {| _executable_path := _executable_path p; _args := _args p;
     _merget_option := _merget_option p;
     _stdout_collect_option := _stdout_collect_option p;
     _stderr_collect_option := _stderr_collect_option p;
     _stdout_manager := o; _stderr_manager := e;
     _proc_label := _proc_label p; stdout_buffer_size := stdout_buffer_size p;
     stderr_buffer_size := stderr_buffer_size p;
     _stdin_file_stream := _stdin_file_stream p; _call_back := _call_back p;
     _popen := _popen p |}.

Definition set_popen (h : option nat) (stdin_open : bool) (p : PopenProcMgr) : PopenProcMgr :=
  {| _executable_path := _executable_path p; _args := _args p;
     _merget_option := _merget_option p;
     _stdout_collect_option := _stdout_collect_option p;
     _stderr_collect_option := _stderr_collect_option p;
     _stdout_manager := _stdout_manager p; _stderr_manager := _stderr_manager p;
     _proc_label := _proc_label p; stdout_buffer_size := stdout_buffer_size p;
     stderr_buffer_size := stderr_buffer_size p;
     _stdin_file_stream := stdin_open; _call_back := _call_back p;
     _popen := h |}.

(** [set_log_callback]. *)
Definition set_log_callback (p : PopenProcMgr) : PopenProcMgr :=
  {| _executable_path := _executable_path p; _args := _args p;
     _merget_option := _merget_option p;
     _stdout_collect_option := _stdout_collect_option p;
     _stderr_collect_option := _stderr_collect_option p;
     _stdout_manager := _stdout_manager p; _stderr_manager := _stderr_manager p;
     _proc_label := _proc_label p; stdout_buffer_size := stdout_buffer_size p;
     stderr_buffer_size := stderr_buffer_size p;
     _stdin_file_stream := _stdin_file_stream p; _call_back := true;
     _popen := _popen p |}.

(** [cmd]. *)
Definition cmd (p : PopenProcMgr) : string :=
  _executable_path p +:+ " " +:+ String.concat " " (_args p).

Record ProcResult := {
  returncode : option Z;
  stdout : list text;
  stderr : list text;
}.

Inductive exn :=
| AssertionError (msg : string)
| TimeoutError (cmd : string) (timeout : Z) (stdout stderr : list text)
| ReadError (e : Text.exn).

(** How a call ends: with a value, with an exception, or still inside
    its [while] when the fuel is used up. *)
Inductive outcome (A : Type) :=
| Return (a : A)
| Raise (e : exn)
| Spinning.
Arguments Return {A} a.
Arguments Raise {A} e.
Arguments Spinning {A}.

(** A method of the controller: it may change the object and the
    world around it. *)
Definition M (A : Type) : Type :=
  PopenProcMgr * World -> outcome A * (PopenProcMgr * World).

#[global] Instance M_ret : MRet M := fun A a s => (Return a, s).

#[global] Instance M_bind : MBind M := fun A B f c s =>
  match c s with
  | (Return a, s') => f a s'
  | (Raise e, s') => (Raise e, s')
  | (Spinning, s') => (Spinning, s')
  end.

Definition raise {A} (e : exn) : M A := fun s => (Raise e, s).
Definition spin {A} : M A := fun s => (Spinning, s).
Definition get_self : M PopenProcMgr := fun s => (Return (fst s), s).
Definition put_self (p : PopenProcMgr) : M unit := fun s => (Return tt, (p, snd s)).
Definition get_world : M World := fun s => (Return (snd s), s).
Definition put_world (w : World) : M unit := fun s => (Return tt, (fst s, w)).

(** The outside moves, then the controller looks. *)
Definition look : M World := fun s =>
  let w := tick (snd s) in (Return w, (fst s, w)).

Definition record (e : entry) : M unit := fun s =>
  (Return tt, (fst s, set_journal (journal (snd s) ++ [e]) (snd s))).

Definition update_manager (l : nat) (f : _StdStreamManager -> _StdStreamManager) : M unit :=
  fun s => (Return tt, (fst s, set_heap (alter f l (heap (snd s))) (snd s))).

Definition truthy (timeout : option Z) : bool :=
  match timeout with
  | Some t => negb (t =? 0)%Z
  | None => false
  end.

Definition stream_label (s : stream) : string :=
  match s with STDOUT => "stdout" | STDERR => "stderr" end.

(** [f"[proc: {self._proc_label}] [stderr] {line}"]. *)
Definition log_message (label : string) (s : stream) (line : text) : text :=
  t_ ("[proc: " +:+ label +:+ "] [" +:+ stream_label s +:+ "] ") ++ line.

Section Controller.

Variable lookup_codec : string -> option Codec.
Variable chardet_detect : bytes -> option string.

(** A new [_StdStreamManager] object on the heap. *)
Definition allocate (m : _StdStreamManager) : M nat := fun s =>
  let w := snd s in
  (Return (next w),
   (fst s, set_next (S (next w)) (set_heap (<[next w := m]> (heap w)) w))).

(** [_setup_output_manager]. *)
Definition _setup_output_manager : M unit :=
  self ← get_self;
  o ← (if _stdout_collect_option self
       then l ← allocate (new_manager (_proc_label self) ".popen.stdout"
                            (stdout_buffer_size self)); mret (Some l)
       else mret (_stdout_manager self));
  e ← (if _stderr_collect_option self
       then if _merget_option self then mret o
            else l ← allocate (new_manager (_proc_label self) ".popen.stderr"
                                 (stderr_buffer_size self)); mret (Some l)
       else mret (_stderr_manager self));
  put_self (set_managers o e self).

(** [__init__], after the checks on the paths: the options are
    stored, the merge option is checked against the two collect
    options and the managers are set up. *)
Definition __init__ (executable_path : string) (args : list string)
    (collect_stdout collect_stderr merge_std_output : bool)
    (stdout_size stderr_size : Z) (label : string) : M unit :=
  put_self {| _executable_path := executable_path; _args := args;
              _merget_option := merge_std_output;
              _stdout_collect_option := collect_stdout;
              _stderr_collect_option := collect_stderr;
              _stdout_manager := None; _stderr_manager := None;
              _proc_label := label; stdout_buffer_size := stdout_size;
              stderr_buffer_size := stderr_size;
              _stdin_file_stream := false; _call_back := false;
              _popen := None |};;
  (if merge_std_output && negb (collect_stdout && collect_stderr)
   then raise (AssertionError
          "Merge option must be used with stdout and stderr collecting on.")
   else mret tt);;
  _setup_output_manager.

(** [is_living]. *)
Definition is_living : M bool :=
  self ← get_self;
  match _popen self with
  | None => raise (AssertionError "Process is not started.")
  | Some _ =>
      w ← look;
      let b := match child w with Some (Exited _) => false | _ => true end in
      record (Living b);;
      mret b
  end.

(** [_kill_process_tree]: what it achieves is up to the world. *)
Definition _kill_process_tree (pid : nat) : M bool :=
  w ← get_world;
  (if kill_works w then put_world (set_child (Some (Exited (-9))) w)
   else mret tt);;
  record (Killed pid (kill_works w));;
  mret (kill_works w).

(** [kill]. *)
Definition kill : M (option bool) :=
  living ← is_living;
  if (living : bool) then
    self ← get_self;
    ok ← _kill_process_tree (default 0 (_popen self));
    mret (Some ok)
  else mret None.

Definition tear_down (delete_output_file : bool) (m : _StdStreamManager) :=
  del (if delete_output_file then delete_file m else m).

(** [clean]. *)
Definition clean (delete_output_file : bool) : M unit :=
  self ← get_self;
  match _popen self with
  | None => mret tt
  | Some _ =>
      kill;;
      match _stdout_manager self with
      | Some l => update_manager l (tear_down delete_output_file)
      | None => mret tt
      end;;
      match _stderr_manager self with
      | Some l => update_manager l (tear_down delete_output_file)
      | None => mret tt
      end;;
      put_self (set_popen None false (set_managers None None self))
  end.

(** The [returncode] property. *)
Definition get_returncode : M (option Z) :=
  self ← get_self;
  match _popen self with
  | None => mret None
  | Some _ =>
      w ← look;
      mret (match child w with Some (Exited rc) => Some rc | _ => None end)
  end.

(** [start]; [pid] is the process id the system hands out and
    [stdin_file] tells whether a stdin file was configured. *)
Definition start (pid : nat) (stdin_file : bool) : M unit :=
  self ← get_self;
  match _popen self with
  | Some _ =>
      raise (AssertionError
        "Process is already started, call the clean() method to stop the previous one.")
  | None =>
      _setup_output_manager;;
      self ← get_self;
      (if _call_back self
       then record (Logged (t_ ("Start process: " +:+ _executable_path self
                                +:+ " " +:+ String.concat " " (_args self))))
       else mret tt);;
      w ← get_world;
      put_world (set_child (Some Running)
                   (set_fds (_stdout_manager self) (_stderr_manager self) w));;
      put_self (set_popen (Some pid) stdin_file self)
  end.

(** [manager.is_stream_end()] for the manager at [l]. *)
Definition stream_end (l : nat) : M bool :=
  w ← look;
  mret (is_stream_end (heap w !!! l)).

(** [still_remain_output_to_read]. *)
Definition still_remain_output_to_read : M bool :=
  self ← get_self;
  has_stdout ← match _stdout_manager self with
               | Some l => e ← stream_end l; mret (negb e)
               | None => mret false
               end;
  has_stderr ← match _stderr_manager self with
               | Some l => e ← stream_end l; mret (negb e)
               | None => mret false
               end;
  record (Backlog (has_stdout || has_stderr));;
  mret (has_stdout || has_stderr).

(** [manager.pick_lines(...)] for the manager at [l]. *)
Definition manager_pick (l : nat) (line_num max_len_one_line : Z)
    (strict_decode_mode : bool) : M (list text * nat) :=
  w ← look;
  let '(r, m) := pick_lines lookup_codec chardet_detect (heap w !!! l)
                   line_num max_len_one_line strict_decode_mode in
  update_manager l (fun _ => m);;
  match r with
  | inl e => raise (ReadError e)
  | inr got => mret got
  end.

(** [pick_stdout]. *)
Definition pick_stdout (line_num max_len_one_line : Z)
    (strict_decode_mode : bool) : M (list text * nat) :=
  self ← get_self;
  match _stdout_manager self with
  | None => mret ([], 0)
  | Some l => manager_pick l line_num max_len_one_line strict_decode_mode
  end.

(** [pick_stderr]. *)
Definition pick_stderr (line_num max_len_one_line : Z)
    (strict_decode_mode : bool) : M (list text * nat) :=
  self ← get_self;
  if _merget_option self then mret ([], 0)
  else match _stderr_manager self with
       | None => mret ([], 0)
       | Some l => manager_pick l line_num max_len_one_line strict_decode_mode
       end.

(** [time.monotonic()]. *)
Definition monotonic : M Z :=
  w ← look;
  record (Clock (now w));;
  mret (now w).

(** [for line in buffer: callback; lines.append(line)]. *)
Fixpoint drain (s : stream) (buffer : list text) (acc : list text) : M (list text) :=
  match buffer with
  | [] => mret acc
  | line :: buffer' =>
      self ← get_self;
      (if _call_back self
       then record (Logged (log_message (_proc_label self) s line))
       else mret tt);;
      drain s buffer' (acc ++ [line])
  end.

(** The [while] of [_wait], at most [fuel] rounds of it. *)
Fixpoint wait_loop (fuel : nat) (timeout : option Z) (end_time : Z)
    (stdout_lines stderr_lines : list text) : M (list text * list text) :=
  match fuel with
  | 0 => spin
  | S fuel' =>
      remain ← still_remain_output_to_read;
      go ← (if (remain : bool) then mret true else is_living);
      if (go : bool) then
        '(stderr_buffer, read_len) ← pick_stderr (-1) (-1) false;
        record (Picked STDERR stderr_buffer read_len);;
        stderr_lines ← drain STDERR stderr_buffer stderr_lines;
        '(stdout_buffer, read_len) ← pick_stdout (-1) (-1) false;
        record (Picked STDOUT stdout_buffer read_len);;
        stdout_lines ← drain STDOUT stdout_buffer stdout_lines;
        if truthy timeout then
          t ← monotonic;
          let remaining_time := (end_time - t)%Z in
          if (remaining_time <=? 0)%Z then
            kill;;
            self ← get_self;
            raise (TimeoutError (cmd self) (default 0%Z timeout)
                     stdout_lines stderr_lines)
          else wait_loop fuel' timeout end_time stdout_lines stderr_lines
        else wait_loop fuel' timeout end_time stdout_lines stderr_lines
      else mret (stdout_lines, stderr_lines)
  end.

(** [_wait]. *)
Definition _wait (fuel : nat) (timeout : option Z) (del_tmpfile : bool)
    : M ProcResult :=
  end_time ← (if truthy timeout
              then t ← monotonic; mret (t + default 0%Z timeout)%Z
              else mret 0%Z);
  '(stdout_lines, stderr_lines) ← wait_loop fuel timeout end_time [] [];
  rc ← get_returncode;
  clean del_tmpfile;;
  mret {| returncode := rc; stdout := stdout_lines; stderr := stderr_lines |}.

(** [wait]. *)
Definition wait (fuel : nat) (timeout : option Z) : M ProcResult :=
  _wait fuel timeout true.

(** [run]. *)
Definition run (fuel : nat) (pid : nat) (timeout : option Z)
    (del_tmpfile : bool) : M ProcResult :=
  start pid false;;
  _wait fuel timeout del_tmpfile.

End Controller.

(** A world in which nothing has happened yet. *)
Definition quiet (kill_ok : bool) (s : list (list action)) : World :=
  {| heap := ∅; next := 0; child := None; child_stdout := None;
     child_stderr := None; kill_works := kill_ok; now := 0;
     script := s; journal := [] |}.

(** The object before [__init__] has filled it in. *)
Definition blank : PopenProcMgr :=
  {| _executable_path := EmptyString; _args := [];
     _merget_option := false; _stdout_collect_option := false;
     _stderr_collect_option := false; _stdout_manager := None;
     _stderr_manager := None; _proc_label := EmptyString;
     stdout_buffer_size := 0; stderr_buffer_size := 0;
     _stdin_file_stream := false; _call_back := false; _popen := None |}.

End Proc.
Export Proc.

(* ===================================================================== *)
(** ** Notions the statements use *)
(* ===================================================================== *)

Module Notions.

(** A property of every element of a list given what precedes it. *)
Definition every_step {A} (Q : list A -> A -> Prop) (l : list A) : Prop :=
  forall pre x post, l = pre ++ x :: post -> Q pre x.

(** The lines a log shows going into [decode]. *)
Definition decoded_raws (l : list event) : list bytes :=
  map snd (decodings l).

(** The cut of a raw line as the specification words it: only a
    positive [max_len_one_line] shortens the line. *)
Definition claimed_cut (max_len_one_line : Z) (raw_line : bytes) : bytes :=
  if (0 <? max_len_one_line)%Z then firstn (Z.to_nat max_len_one_line) raw_line
  else raw_line.

(** A line the child wrote that can be read back: not blank, ASCII,
    and with no newline inside. *)
Definition plain_line (line : bytes) : Prop :=
  line <> []
  /\ forallb is_ascii line = true
  /\ forallb (fun b => negb (is_nl b)) line = true.

Section Learned.
Variable chardet_detect : bytes -> option string.

(** The encoding the oracle answered last in a log, if it answered
    one at all. *)
Definition learned (l : list event) : option string :=
  last (omap (fun ev => match ev with
                        | Detect raw => detect_bytes_encoding chardet_detect raw
                        | Decode _ _ _ => None
                        end) l).

(** The encoding in force in a call on reader [p] after the events
    [pre]: the one learned during the call, else the one the call
    entered with. *)
Definition in_force (p : TextFileParser) (pre : list event) : string :=
  match learned pre with
  | Some e => e
  | None => encoding (enter p)
  end.
End Learned.

Section Repair.
Variable lookup_codec : string -> option Codec.
Variable chardet_detect : bytes -> option string.

(** What a log must show at each of its events, for a call on [p]. *)
Definition repair_step (p : TextFileParser) (pre : list event) (ev : event) : Prop :=
  match ev with
  | Decode enc how raw => enc = in_force chardet_detect p pre
  | Detect raw =>
      exists pre', pre = pre' ++ [Decode (in_force chardet_detect p pre') strict raw]
                   /\ decode lookup_codec raw (in_force chardet_detect p pre') strict = UnicodeDecodeError
  end.

(** The frame agrees with its log. *)
Definition in_step (p : TextFileParser) (f : frame) : Prop :=
  every_step (repair_step p) (log f)
  /\ encoding f = in_force chardet_detect p (log f)
  /\ _fixed_encoding (self f)
     = match learned chardet_detect (log f) with Some e => e | None => _fixed_encoding p end.

End Repair.

End Notions.
Export Notions.

(** Notions for the controller. *)
Module Shapes.

(** The lifecycle of the manager objects is the same in [w'] as in
    [w]: the same addresses, and each manager has its file, its
    handles and its monitor in the state they were in. *)
Definition same_managers (w w' : World) : Prop :=
  forall l,
    match heap w !! l, heap w' !! l with
    | Some m, Some m' =>
        on_disk m' = on_disk m /\ closed m' = closed m
        /\ monitoring m' = monitoring m /\ _max_size m' = _max_size m
    | None, None => True
    | _, _ => False
    end.

(** A child that has exited has exited for good. *)
Definition exits_stay (w w' : World) : Prop :=
  forall rc, child w = Some (Exited rc) -> child w' = Some (Exited rc).

(** From [w] to [w'] the controller added [d] to the journal and no
    manager was created or torn down. *)
Definition moves (d : list entry) (w w' : World) : Prop :=
  journal w' = journal w ++ d
  /\ same_managers w w'
  /\ exits_stay w w'
  /\ kill_works w' = kill_works w.

(** The clock readings of a journal. *)
Definition clock_readings (d : list entry) : list Z :=
  omap (fun e => match e with Clock t => Some t | _ => None end) d.

(** The lines a journal shows picked from a stream, in order. *)
Definition picked (s : stream) (d : list entry) : list text :=
  concat (omap (fun e => match e with
                         | Picked STDOUT got _ =>
                             match s with STDOUT => Some got | STDERR => None end
                         | Picked STDERR got _ =>
                             match s with STDERR => Some got | STDOUT => None end
                         | _ => None
                         end) d).

Section Rounds.
(** The object whose [_wait] is described. *)
Variable self : PopenProcMgr.

(** The callback calls for the lines of one buffer. *)
Definition logged (s : stream) (buffer : list text) : list entry :=
  if _call_back self
  then map (fun line => Logged (log_message (_proc_label self) s line)) buffer
  else [].

(** The test of the [while] lets the body run: there is a backlog,
    or there is none and the process is living. *)
Inductive test_passes : list entry -> Prop :=
| passes_on_backlog : test_passes [Backlog true]
| passes_on_living : test_passes [Backlog false; Living true].

(** The drains of one round: stderr with its callbacks, then stdout
    with its callbacks. *)
Definition drained (err_got : list text) (err_size : nat)
    (out_got : list text) (out_size : nat) : list entry :=
  Picked STDERR err_got err_size :: logged STDERR err_got
    ++ Picked STDOUT out_got out_size :: logged STDOUT out_got.

(** The deadline check of a round that goes on: none without a
    deadline, else a clock reading before the deadline. *)
Definition check_passes (deadline : option Z) (clk : list entry) : Prop :=
  match deadline with
  | None => clk = []
  | Some end_time => exists t, clk = [Clock t] /\ (0 < end_time - t)%Z
  end.

(** [rounds deadline out err d out' err']: [d] is the journal of
    zero or more complete rounds that take the line buffers from
    [out], [err] to [out'], [err']. *)
Inductive rounds (deadline : option Z)
    : list text -> list text -> list entry -> list text -> list text -> Prop :=
| rounds_done out err : rounds deadline out err [] out err
| rounds_more out err test eg en og on clk d out' err' :
    test_passes test ->
    check_passes deadline clk ->
    rounds deadline (out ++ og) (err ++ eg) d out' err' ->
    rounds deadline out err (test ++ drained eg en og on ++ clk ++ d) out' err'.

(** What [kill()] leaves in the journal: the liveness test and, for
    a living process, the call of the tree terminator. *)
Inductive kill_entries : list entry -> Prop :=
| kill_dead : kill_entries [Living false]
| kill_living pid ok : kill_entries [Living true; Killed pid ok].

End Rounds.

(** The deadline of a [_wait]: [timeout] ticks after the first clock
    reading, for a timeout that passes the [if timeout:] test. *)
Definition deadline_of (timeout : option Z) (end_time : Z) : option Z :=
  if truthy timeout then Some end_time else None.

Section OneRound.
Variable lookup_codec : string -> option Codec.
Variable chardet_detect : bytes -> option string.
Variables (timeout : option Z) (end_time : Z).
Variables (out err : list text) (self : PopenProcMgr) (w : World).

(** The ways round [S fuel] of the [while] of [_wait] can go from
    the buffers [out], [err], the object [self] and the world [w]. *)
Inductive round_outcome (fuel : nat) : Prop :=
| round_exits w' :
    wait_loop lookup_codec chardet_detect (S fuel) timeout end_time out err (self, w)
      = (Return (out, err), (self, w')) ->
    moves [Backlog false; Living false] w w' ->
    is_Some (_popen self) ->
    (exists rc, child w' = Some (Exited rc)) ->
    round_outcome fuel
| round_unstarted msg d w' :
    wait_loop lookup_codec chardet_detect (S fuel) timeout end_time out err (self, w)
      = (Raise (AssertionError msg), (self, w')) ->
    moves d w w' ->
    (truthy timeout = false -> clock_readings d = []) ->
    _popen self = None ->
    round_outcome fuel
| round_read_error e d w' :
    wait_loop lookup_codec chardet_detect (S fuel) timeout end_time out err (self, w)
      = (Raise (ReadError e), (self, w')) ->
    moves d w w' ->
    clock_readings d = [] ->
    round_outcome fuel
| round_goes_on test eg en og on clk w' :
    wait_loop lookup_codec chardet_detect (S fuel) timeout end_time out err (self, w)
      = wait_loop lookup_codec chardet_detect fuel timeout end_time
          (out ++ og) (err ++ eg) (self, w') ->
    test_passes test ->
    check_passes (deadline_of timeout end_time) clk ->
    moves (test ++ drained self eg en og on ++ clk) w w' ->
    round_outcome fuel
| round_times_out test eg en og on t tmo k w' :
    wait_loop lookup_codec chardet_detect (S fuel) timeout end_time out err (self, w)
      = (Raise (TimeoutError (cmd self) tmo (out ++ og) (err ++ eg)), (self, w')) ->
    timeout = Some tmo ->
    truthy timeout = true ->
    test_passes test ->
    (end_time - t <= 0)%Z ->
    kill_entries k ->
    moves (test ++ drained self eg en og on ++ [Clock t] ++ k) w w' ->
    round_outcome fuel.
End OneRound.

(** What the journal [d] of a run of the [while] of [_wait] looks
    like, by the way [r] the run ended; [w'] is the world at the end. *)
Definition loop_shape (self : PopenProcMgr) (timeout : option Z) (end_time : Z)
    (out err : list text) (r : outcome (list text * list text))
    (d : list entry) (w' : World) : Prop :=
  match r with
  | Return (o, e) =>
      exists d1, d = d1 ++ [Backlog false; Living false]
        /\ rounds self (deadline_of timeout end_time) out err d1 o e
        /\ is_Some (_popen self)
        /\ exists rc, child w' = Some (Exited rc)
  | Spinning =>
      exists o e, rounds self (deadline_of timeout end_time) out err d o e
  | Raise (TimeoutError c tmo o e) =>
      c = cmd self /\ timeout = Some tmo /\ truthy timeout = true
      /\ exists d1 o1 e1 test eg en og on t k,
           d = d1 ++ test ++ drained self eg en og on ++ [Clock t] ++ k
           /\ rounds self (deadline_of timeout end_time) out err d1 o1 e1
           /\ test_passes test /\ o = o1 ++ og /\ e = e1 ++ eg
           /\ (end_time - t <= 0)%Z /\ kill_entries k
  | Raise (AssertionError _) =>
      _popen self = None
      /\ exists d1 d2 o e, d = d1 ++ d2
           /\ rounds self (deadline_of timeout end_time) out err d1 o e
           /\ (truthy timeout = false -> clock_readings d2 = [])
  | Raise (ReadError _) =>
      exists d1 d2 o e, d = d1 ++ d2
        /\ rounds self (deadline_of timeout end_time) out err d1 o e
        /\ clock_readings d2 = []
  end.

(** The object after [clean]. *)
Definition cleaned (self : PopenProcMgr) : PopenProcMgr :=
  set_popen None false (set_managers None None self).

(** The two collect options decide which managers can exist. *)
Definition uncollected_unbound (self : PopenProcMgr) : Prop :=
  (_stdout_collect_option self = false -> _stdout_manager self = None)
  /\ (_stderr_collect_option self = false -> _stderr_manager self = None).

End Shapes.
Export Shapes.

(** Concrete controllers and worlds to run the model on. *)
Module Demo.

(** The default buffer size of [PopenProcMgr]. *)
Definition BUFFER : Z := (1024 * 1024 * 100)%Z.

(** [PopenProcMgr("/bin/bash", ["-c", "job"], ...)] with the given
    collect and merge options, then [start()], in a world that will
    follow [script]; the process gets pid 7. *)
Definition started (collect_stdout collect_stderr merge : bool)
    (script : list (list action)) : PopenProcMgr * World :=
  snd ((__init__ "/bin/bash" ["-c"; "job"]%string collect_stdout collect_stderr
          merge BUFFER BUFFER "tmp";;
        start 7 false) (blank, quiet true script)).

(** The same controller before [start()]. *)
Definition constructed (collect_stdout collect_stderr merge : bool)
    : PopenProcMgr * World :=
  snd (__init__ "/bin/bash" ["-c"; "job"]%string collect_stdout collect_stderr
         merge BUFFER BUFFER "tmp" (blank, quiet true [])).

(** The same controller, and [run()] on it with [fuel] rounds at most. *)
Definition ran (fuel : nat) (timeout : option Z) (script : list (list action))
    : outcome ProcResult * (PopenProcMgr * World) :=
  (__init__ "/bin/bash" ["-c"; "job"]%string true true false BUFFER BUFFER "tmp";;
   run small_registry (toy_detect false) fuel 7 timeout true)
    (blank, quiet true script).

(** [set_log_callback(...)] on the controller of a state. *)
Definition logging (s : PopenProcMgr * World) : PopenProcMgr * World :=
  (set_log_callback (fst s), snd s).

(** A child that writes the three lines [a], an empty line and [b] to its
    stdout and exits with code 0. *)
Definition three_lines : list (list action) :=
  [[Write STDOUT (with_nl (b_ "a") ++ with_nl [] ++ with_nl (b_ "b")); Exit 0]].

(** A child that writes one line to stderr and one to stdout, then
    goes on running while the clock advances 5 ticks per look. *)
Definition slow_child : list (list action) :=
  [[Write STDERR (with_nl (b_ "warn")); Write STDOUT (with_nl (b_ "a"))];
   [Elapse 5]; [Elapse 5]; [Elapse 5]; [Elapse 5]; [Elapse 5]; [Elapse 5];
   [Elapse 5]; [Elapse 5]; [Elapse 5]; [Elapse 5]; [Elapse 5]; [Elapse 5]].

(** A child that writes one line to each stream and exits. *)
Definition quick_child : list (list action) :=
  [[Write STDERR (with_nl (b_ "warn")); Write STDOUT (with_nl (b_ "a")); Exit 3]].

End Demo.
Export Demo.

(* ===================================================================== *)
(** ** More of [text.py] and [process.py] *)
(* ===================================================================== *)

(* ===================================================================== *)
(** ** The rest of [text.py] *)
(* ===================================================================== *)

Module TextMore.

(** [move_cursor(offset)]: the position, or the position after a seek
    by [offset]; a seek to a negative position raises and leaves the
    handle where it is ([inl tt]). *)
Definition move_cursor (offset : Z) (p : TextFileParser)
    : (unit + nat) * TextFileParser :=
  if (offset =? 0)%Z then (inr (tell p), p)
  else
    let target := (Z.of_nat (tell p) + offset)%Z in
    if (target <? 0)%Z then (inl tt, p)
    else (inr (Z.to_nat target), seek (Z.to_nat target) p).

End TextMore.
Export TextMore.

Module StreamMore.

(** What can happen to one manager between its creation and its end:
    the child writes, the monitor thread makes a pass, the owner picks
    lines. *)
Inductive stream_op :=
| ChildWrite (data : bytes)
| MonitorPass
| PickLines (line_num max_len_one_line : Z) (strict_decode_mode : bool).

Section Ops.
Variable lookup_codec : string -> option Codec.
Variable chardet_detect : bytes -> option string.

Definition stream_step (m : _StdStreamManager) (op : stream_op) : _StdStreamManager :=
  match op with
  | ChildWrite data => child_write data m
  | MonitorPass => if monitoring m then file_size_monitor m else m
  | PickLines n k s => snd (pick_lines lookup_codec chardet_detect m n k s)
  end.

(** A manager after a history that starts at its creation. *)
Definition after_ops (prefix suffix : string) (max_size : Z) (ops : list stream_op)
    : _StdStreamManager :=
  fold_left stream_step ops (new_manager prefix suffix max_size).
End Ops.

(** The write handle stands at the end of the file and the read handle
    not behind it. *)
Definition handles_in_file (m : _StdStreamManager) : Prop :=
  write_tell m = length (file m)
  /\ tell (_stream_text_parser m) <= length (file m).

End StreamMore.
Export StreamMore.

(** Notions for what the loop of [_wait] does to the world. *)
Module Steps.

(** What a method postulates of its result and of the state it
    leaves. *)
Definition wp {A} (c : M A) (Q : outcome A -> PopenProcMgr * World -> Prop)
    (s : PopenProcMgr * World) : Prop :=
  Q (c s).1 (c s).2.

(** The process has not been seen to exit. *)
Definition living (w : World) : bool :=
  match child w with Some (Exited _) => false | _ => true end.

(** The return code the process has left, if it has exited. *)
Definition exit_code (w : World) : option Z :=
  match child w with Some (Exited rc) => Some rc | _ => None end.

(** The world after the owner of the manager at [l] has picked lines
    from it. *)
Definition picked_at (lookup_codec : string -> option Codec)
    (chardet_detect : bytes -> option string)
    (l : nat) (n k : Z) (strict_decode_mode : bool) (w : World) : World :=
  set_heap (alter (fun _ => snd (pick_lines lookup_codec chardet_detect
                                   (heap w !!! l) n k strict_decode_mode))
              l (heap w)) w.

(** One thing the methods called in the loop of [_wait] do to the
    world: they let the outside move on and look, they write to the
    journal, they pick lines from a manager of the controller, they
    terminate the process. *)
Inductive wstep (lookup_codec : string -> option Codec)
    (chardet_detect : bytes -> option string) (self : PopenProcMgr)
    : World -> World -> Prop :=
| step_look w : wstep lookup_codec chardet_detect self w (tick w)
| step_record w e :
    wstep lookup_codec chardet_detect self w (set_journal (journal w ++ [e]) w)
| step_pick w l n k s :
    _stdout_manager self = Some l \/ _stderr_manager self = Some l ->
    wstep lookup_codec chardet_detect self w
      (picked_at lookup_codec chardet_detect l n k s w)
| step_kill w :
    living w = true ->
    wstep lookup_codec chardet_detect self w (set_child (Some (Exited (-9))) w).

(** [still_remain_output_to_read] as the heap of [w] decides it. *)
Definition has_output (l : option nat) (w : World) : bool :=
  match l with
  | Some l => negb (is_stream_end (heap w !!! l))
  | None => false
  end.

Definition backlog (self : PopenProcMgr) (w : World) : bool :=
  has_output (_stdout_manager self) w || has_output (_stderr_manager self) w.

Section Body.
Variable lookup_codec : string -> option Codec.
Variable chardet_detect : bytes -> option string.

(** The body of the [while] of [_wait]; [k] is what follows it, the
    next test of the loop. *)
Definition round_body (k : list text -> list text -> M (list text * list text))
    (timeout : option Z) (end_time : Z) (stdout_lines stderr_lines : list text)
    : M (list text * list text) :=
  '(stderr_buffer, read_len) ← pick_stderr lookup_codec chardet_detect (-1) (-1) false;
  record (Picked STDERR stderr_buffer read_len);;
  stderr_lines ← drain STDERR stderr_buffer stderr_lines;
  '(stdout_buffer, read_len) ← pick_stdout lookup_codec chardet_detect (-1) (-1) false;
  record (Picked STDOUT stdout_buffer read_len);;
  stdout_lines ← drain STDOUT stdout_buffer stdout_lines;
  if truthy timeout then
    t ← monotonic;
    let remaining_time := (end_time - t)%Z in
    if (remaining_time <=? 0)%Z then
      kill;;
      self ← get_self;
      raise (TimeoutError (cmd self) (default 0%Z timeout)
               stdout_lines stderr_lines)
    else k stdout_lines stderr_lines
  else k stdout_lines stderr_lines.
End Body.

(** The bytes the reader of the manager at [l] has not consumed. *)
Definition unread_at (l : option nat) (w : World) : nat :=
  match l with
  | Some l => match heap w !! l with
              | Some m => length (unread m)
              | None => 0
              end
  | None => 0
  end.

(** The bytes the child is still going to write. *)
Definition action_bytes (a : action) : nat :=
  match a with Write _ data => length data | _ => 0 end.

Definition script_bytes (sc : list (list action)) : nat :=
  sum_list_with action_bytes (concat sc).

(** A bound on the rounds the loop of [_wait] can still make once
    the child is known to exit: each round either lets the outside
    move on or consumes bytes that were left to read. *)
Definition rounds_bound (self : PopenProcMgr) (w : World) : nat :=
  length (script w) + 2 * script_bytes (script w)
  + unread_at (_stdout_manager self) w + unread_at (_stderr_manager self) w.

(** No write handle stands behind the end of its file. *)
Definition writes_in_file (w : World) : Prop :=
  forall l m, heap w !! l = Some m -> write_tell m <= length (file m).

(** The process has exited or is going to. *)
Definition will_exit (w : World) : Prop :=
  match child w with
  | Some (Exited _) => True
  | Some Running => exists rc, Exit rc ∈ concat (script w)
  | None => False
  end.

(** What [clean] does to the managers of the controller. *)
Definition tear_at (delete_output_file : bool) (l : option nat)
    (h : gmap nat _StdStreamManager) : gmap nat _StdStreamManager :=
  match l with
  | Some l => alter (tear_down delete_output_file) l h
  | None => h
  end.

Definition torn (delete_output_file : bool) (self : PopenProcMgr) (w : World) : World :=
  set_heap (tear_at delete_output_file (_stderr_manager self)
              (tear_at delete_output_file (_stdout_manager self) (heap w))) w.

(** The manager at [l] is out of reach: neither the controller nor
    the child holds it. *)
Definition out_of_reach (l : nat) (s : PopenProcMgr * World) : Prop :=
  _stdout_manager s.1 <> Some l /\ _stderr_manager s.1 <> Some l
  /\ child_stdout s.2 <> Some l /\ child_stderr s.2 <> Some l
  /\ l < next s.2.

End Steps.
Export Steps.

(** The two functions of [process.py] that run bash. *)
Module Bash.

Section Run.
Variable lookup_codec : string -> option Codec.
Variable chardet_detect : bytes -> option string.

(** [run_bash_command]: a new controller with the defaults of
    [PopenProcMgr], and [run(timeout)] on it; [pid] is the process id
    the system hands out. *)
Definition run_bash_command (fuel pid : nat) (command : string)
    (timeout : option Z) (merge_stderr : bool) : M ProcResult :=
  __init__ "/bin/bash" ["-c"; command]%string true true merge_stderr
    BUFFER BUFFER "tmp";;
  run lookup_codec chardet_detect fuel pid timeout true.

(** [run_bash_script]. *)
Definition run_bash_script (fuel pid : nat) (script_path : string)
    (timeout : option Z) (merge_stderr : bool) : M ProcResult :=
  __init__ "/bin/bash" [script_path] true true merge_stderr BUFFER BUFFER "tmp";;
  run lookup_codec chardet_detect fuel pid timeout true.
End Run.

End Bash.
Export Bash.

(** The argument list of a controller, as the object it is. *)
Module Args.

(** The list objects of the interpreter, by address. *)
Abbreviation list_store := (gmap nat (list string)).

(** The list that [args: list = []] made when [__init__] was
    defined: every call that leaves [args] out gets this object. *)
Definition DEFAULT_ARGS : nat := 0.

(** What [cmd], [cmd_list] and [append_args] use of a controller:
    the path, and the list object behind [self._args]. *)
Record holder := {
  holder_path : string;
  holder_args : nat;
}.

(** [self._executable_path = executable_path; self._args = args]. *)
Definition construct (executable_path : string) (args : option nat) : holder :=
  {| holder_path := executable_path;
     holder_args := default DEFAULT_ARGS args |}.

(** [append_args]: [self._args.extend(args)], in place. *)
Definition append_args (self : holder) (args : nat) (st : list_store) : list_store :=
  alter (fun l => l ++ st !!! args) (holder_args self) st.

(** [cmd_list]. *)
Definition cmd_list (self : holder) (st : list_store) : list string :=
  holder_path self :: st !!! holder_args self.

(** [cmd], on the list object. *)
Definition cmd_line (self : holder) (st : list_store) : string :=
  holder_path self +:+ " " +:+ String.concat " " (st !!! holder_args self).

End Args.
Export Args.

(** The functions of [text.py] that work on whole files. *)
Module TextTools.

(** The files, by path, and the memory of [functools.cache]. *)
Abbreviation files := (gmap string bytes).
Abbreviation memo := (gmap string (option string)).

Section Tools.
Variable lookup_codec : string -> option Codec.
Variable chardet_detect : bytes -> option string.
(** [str.encode("utf-8")] as the text-mode [write] does it; [None]
    for a text it raises [UnicodeEncodeError] on. *)
Variable encode_utf8 : text -> option bytes.

(** The body of [detect_file_encoding]. *)
Definition detect_file (fs : files) (file_path : string) : option string :=
  match fs !! file_path with
  | None => None
  | Some text => detect_bytes_encoding chardet_detect text
  end.

(** [detect_file_encoding], under [@cache]. *)
Definition detect_file_encoding (file_path : string) (fs : files) (cache : memo)
    : option string * memo :=
  match cache !! file_path with
  | Some r => (r, cache)
  | None => (detect_file fs file_path, <[file_path := detect_file fs file_path]> cache)
  end.

(** [trans_bytes_2_utf8]: [None] when no encoding is detected, else
    the text decoded under the detected encoding, with
    [errors="replace"] if it does not decode; the [LookupError] of an
    encoding without a codec is not handled. *)
Definition trans_bytes_2_utf8 (text : bytes) : Text.exn + option Bytes.text :=
  match detect_bytes_encoding chardet_detect text with
  | None => inr None
  | Some encoding =>
      match decode lookup_codec text encoding strict with
      | Decoded t => inr (Some t)
      | UnknownEncoding => inl (LookupError encoding)
      | UnicodeDecodeError =>
          match decode lookup_codec text encoding replace with
          | Decoded t => inr (Some t)
          | _ => inl (LookupError encoding)
          end
      end
  end.

(** [trans_file_2_utf8]: the value returned and the files after the
    call. The output file is opened, and so created, before the text
    is written to it; every exception is caught and turned into
    [False]. *)
Definition trans_file_2_utf8 (file_in_path file_out_path : string) (fs : files)
    : bool * files :=
  match fs !! file_in_path with
  | None => (false, fs)
  | Some text =>
      if bool_decide (is_Some (fs !! file_out_path)) then (false, fs)
      else
        match trans_bytes_2_utf8 text with
        | inl _ => (false, fs)
        | inr None => (false, <[file_out_path := []]> fs)
        | inr (Some text_utf8) =>
            match encode_utf8 text_utf8 with
            | Some data => (true, <[file_out_path := data]> fs)
            | None => (false, <[file_out_path := []]> fs)
            end
        end
  end.
End Tools.

(** An encoder for running the model: UTF-8 on texts that are all
    ASCII, and no others. *)
Definition ascii_encode (t : text) : option bytes :=
  mapM (fun c => if (c <? 128)%N then Byte.of_N c else None) t.

End TextTools.
Export TextTools.


(* ===================================================================== *)
(** ** Facts about byte strings and log splitting *)
(* ===================================================================== *)

Section BytesFacts.

Lemma take_line_prefix (rest : bytes) :
  rest = take_line rest ++ skipn (length (take_line rest)) rest.
Proof.
  induction rest as [|b r IH]; simpl; [done|].
  destruct (is_nl b); simpl; [done|]. by rewrite <- IH.
Qed.

Lemma take_line_nil (rest : bytes) : take_line rest = [] -> rest = [].
Proof. destruct rest as [|b r]; simpl; [done|]. by destruct (is_nl b). Qed.

(** [file_lines] lists what the successive [readline()] calls return. *)
Lemma file_lines_readline (rest : bytes) :
  file_lines rest =
    match take_line rest with
    | [] => []
    | ln => ln :: file_lines (skipn (length ln) rest)
    end.
Proof.
  induction rest as [|b r IH]; simpl; [done|].
  destruct (is_nl b); simpl; [done|].
  rewrite IH. destruct (take_line r) as [|c ln] eqn:E; simpl.
  - apply take_line_nil in E. by subst.
  - done.
Qed.

Lemma file_lines_concat (rest : bytes) : concat (file_lines rest) = rest.
Proof.
  induction rest as [|b r IH]; simpl; [done|].
  destruct (is_nl b); simpl; [by rewrite IH|].
  destruct (file_lines r) as [|ln lns]; simpl in *; by rewrite <- IH.
Qed.

Lemma file_lines_nonempty (rest : bytes) : Forall (fun ln => ln <> []) (file_lines rest).
Proof.
  induction rest as [|b r IH]; simpl; [constructor|].
  destruct (is_nl b); [by constructor|].
  destruct (file_lines r) as [|ln lns]; [by repeat constructor|].
  inversion IH; subst. by constructor.
Qed.

Lemma slice_to_pos {A} (m : Z) (l : list A) :
  (0 <= m)%Z -> slice_to m l = firstn (Z.to_nat m) l.
Proof. intros H. unfold slice_to. by rewrite (proj2 (Z.leb_le 0 m) H). Qed.

Lemma slice_to_neg {A} (m : Z) (l : list A) :
  (m < 0)%Z -> slice_to m l = firstn (length l - Z.to_nat (- m)) l.
Proof. intros H. unfold slice_to. by rewrite (proj2 (Z.leb_gt 0 m) H). Qed.

(** The default [-1] takes the terminator off a terminated line. *)
Lemma slice_to_strips_nl (line : bytes) : slice_to (-1) (with_nl line) = line.
Proof.
  unfold slice_to, with_nl. replace (0 <=? -1)%Z with false by done.
  rewrite length_app.
  replace (length line + length [NL] - Z.to_nat (- -1)) with (length line)
    by (simpl; lia).
  apply take_app_length.
Qed.

Lemma every_step_nil {A} (Q : list A -> A -> Prop) : every_step Q [].
Proof. intros pre x post H. by destruct pre. Qed.

Lemma every_step_snoc {A} (Q : list A -> A -> Prop) (l : list A) (y : A) :
  every_step Q l -> Q l y -> every_step Q (l ++ [y]).
Proof.
  intros Hl Hy pre. revert Q l Hl Hy.
  induction pre as [|a pre IH]; intros Q l Hl Hy x post H.
  - destruct l as [|b l]; simpl in H; inversion H; subst; [done|].
    by apply (Hl [] x l).
  - destruct l as [|b l]; simpl in H; inversion H; subst.
    + by destruct pre.
    + apply (IH (fun p z => Q (a :: p) z) l) with (post := post); [|done..].
      intros p z q ->. by apply (Hl (a :: p) z q).
Qed.

End BytesFacts.

(* ===================================================================== *)
(** ** The line reader *)
(* ===================================================================== *)

Ltac frame_simpl :=
  cbn [fst snd self errors_strategy encoding read_size lines log
       advance append_line note use_replace adopt enter seek set_fixed
       tell _fixed_encoding _default_encoding _file_path] in *.

Section ReaderFacts.

Variable lookup_codec : string -> option Codec.
Variable chardet_detect : bytes -> option string.

Abbreviation decode := (decode lookup_codec).
Abbreviation detect_bytes_encoding := (detect_bytes_encoding chardet_detect).
Abbreviation decode_retry := (decode_retry lookup_codec chardet_detect).
Abbreviation read_loop := (read_loop lookup_codec chardet_detect).
Abbreviation run_readlines := (run_readlines lookup_codec chardet_detect).
Abbreviation readlines := (readlines lookup_codec chardet_detect).

Lemma decode_retry_S k strict_decode raw f :
  decode_retry (S k) strict_decode raw f =
    let f := note (Decode (encoding f) (errors_strategy f) raw) f in
    match decode raw (encoding f) (errors_strategy f) with
    | Decoded decoded_line => (None, append_line decoded_line f)
    | UnknownEncoding => (Some (LookupError (encoding f)), f)
    | UnicodeDecodeError =>
        let f := note (Detect raw) f in
        match detect_bytes_encoding raw with
        | None =>
            if strict_decode then (Some (CustomError raw), f)
            else decode_retry k strict_decode raw (use_replace f)
        | Some fixed_encoding =>
            decode_retry k strict_decode raw (adopt fixed_encoding f)
        end
    end.
Proof. reflexivity. Qed.

Lemma read_loop_nil n m strict_decode f :
  read_loop n m strict_decode [] f = (None, f).
Proof. unfold Text.read_loop. by destruct (wants_more n f). Qed.

Lemma read_loop_cons n m strict_decode raw pending f :
  read_loop n m strict_decode (raw :: pending) f =
    if wants_more n f then
      let f := advance (length raw) f in
      let raw_line := slice_to m raw in
      if length raw_line =? 0 then (None, f)
      else match decode_retry 3 strict_decode raw_line f with
           | (Some e, f') => (Some e, f')
           | (None, f') => read_loop n m strict_decode pending f'
           end
    else (None, f).
Proof. reflexivity. Qed.

Lemma decoded_raws_app l1 l2 :
  decoded_raws (l1 ++ l2) = decoded_raws l1 ++ decoded_raws l2.
Proof. unfold decoded_raws, decodings. by rewrite omap_app, map_app. Qed.

Lemma detections_app l1 l2 : detections (l1 ++ l2) = detections l1 ++ detections l2.
Proof. unfold detections. by rewrite omap_app. Qed.

(** The retry loop touches neither the cursor nor the size count, and
    every [decode] it makes is on the line it was given. *)
Lemma decode_retry_frame k strict_decode raw f :
  let f' := snd (decode_retry k strict_decode raw f) in
  tell (self f') = tell (self f) /\ read_size f' = read_size f
  /\ exists evs, log f' = log f ++ evs
                 /\ Forall (fun r => r = raw) (decoded_raws evs).
Proof.
  revert f. induction k as [|k IH]; intros f.
  - cbn. repeat split; try done. exists []. split; [by rewrite app_nil_r|constructor].
  - rewrite decode_retry_S. cbv zeta. frame_simpl.
    destruct (decode raw (encoding f) (errors_strategy f)) eqn:D; frame_simpl.
    + repeat split; try done. eexists; split; [done|]. by repeat constructor.
    + destruct (detect_bytes_encoding raw) as [e|] eqn:O.
      * specialize (IH (adopt e (note (Detect raw)
                   (note (Decode (encoding f) (errors_strategy f) raw) f)))).
        frame_simpl. destruct IH as (Ht & Hr & evs & Hl & Hf).
        repeat split; try done.
        exists (Decode (encoding f) (errors_strategy f) raw :: Detect raw :: evs).
        split; [by rewrite Hl, <- !app_assoc|]. by constructor.
      * destruct strict_decode; frame_simpl.
        -- repeat split; try done. eexists; split; [by rewrite <- app_assoc|].
           by repeat constructor.
        -- specialize (IH (use_replace (note (Detect raw)
                   (note (Decode (encoding f) (errors_strategy f) raw) f)))).
           frame_simpl. destruct IH as (Ht & Hr & evs & Hl & Hf).
           repeat split; try done.
           exists (Decode (encoding f) (errors_strategy f) raw :: Detect raw :: evs).
           split; [by rewrite Hl, <- !app_assoc|]. by constructor.
    + repeat split; try done. eexists; split; [done|]. by repeat constructor.
Qed.

(** What [read_loop] decodes is the slice of a line it read. *)
Lemma read_loop_decodes_slices n m strict_decode pending f :
  let f' := snd (read_loop n m strict_decode pending f) in
  exists evs, log f' = log f ++ evs
    /\ Forall (fun r => r <> [] /\ exists raw, raw ∈ pending /\ r = slice_to m raw)
         (decoded_raws evs).
Proof.
  revert f. induction pending as [|raw pending IH]; intros f.
  - rewrite read_loop_nil. exists []. by rewrite app_nil_r.
  - rewrite read_loop_cons. cbv zeta.
    destruct (wants_more n f); [|exists []; by rewrite app_nil_r].
    destruct (length (slice_to m raw) =? 0) eqn:E;
      [exists []; by rewrite app_nil_r|].
    apply Nat.eqb_neq in E.
    pose proof (decode_retry_frame 3 strict_decode (slice_to m raw)
                  (advance (length raw) f)) as (_ & _ & evs & Hl & Hf).
    destruct (decode_retry 3 strict_decode (slice_to m raw)
                (advance (length raw) f)) as [[e|] f1] eqn:R; frame_simpl.
    + exists evs. split; [done|]. eapply Forall_impl; [exact Hf|].
      intros r ->. split; [by intros Hn; rewrite Hn in E|].
      exists raw. split; [set_solver|done].
    + destruct (IH f1) as (evs' & Hl' & Hf').
      exists (evs ++ evs'). split; [by rewrite Hl', Hl, app_assoc|].
      rewrite decoded_raws_app. apply Forall_app. split.
      * eapply Forall_impl; [exact Hf|].
        intros r ->. split; [by intros Hn; rewrite Hn in E|].
        exists raw. split; [set_solver|done].
      * eapply Forall_impl; [exact Hf'|].
        intros r (Hne & raw' & Hin & ->). split; [done|].
        exists raw'. split; [set_solver|done].
Qed.

End ReaderFacts.

Section ReaderClaims.

Variable lookup_codec : string -> option Codec.
Variable chardet_detect : bytes -> option string.

Abbreviation decode := (decode lookup_codec).
Abbreviation detect_bytes_encoding := (detect_bytes_encoding chardet_detect).
Abbreviation decode_retry := (decode_retry lookup_codec chardet_detect).
Abbreviation read_loop := (read_loop lookup_codec chardet_detect).
Abbreviation run_readlines := (run_readlines lookup_codec chardet_detect).
Abbreviation readlines := (readlines lookup_codec chardet_detect).

(** C2 (as amended). Every line [readlines] hands to [decode] is the
    Python slice [raw_line[:max_len_one_line]] of a line it read, and
    is not empty; a positive [max_len_one_line] keeps at most that
    many leading bytes, a negative one drops that many trailing bytes,
    so the default [-1] takes the terminator off a terminated line;
    and a [readline()] that returns no bytes ends the loop, at the
    start of a call as at any later point of it. *)
Theorem readlines_slices_each_line (file : bytes) (p : TextFileParser)
    (n m : Z) (strict_decode : bool) :
  Forall (fun r => r <> [] /\
                   exists raw, raw ∈ file_lines (skipn (tell p) file)
                               /\ r = slice_to m raw)
    (decoded_raws (log (snd (run_readlines file p n m strict_decode))))
  /\ (forall raw : bytes, (0 < m)%Z -> slice_to m raw = firstn (Z.to_nat m) raw)
  /\ (forall raw : bytes, (m < 0)%Z ->
        slice_to m raw = firstn (length raw - Z.to_nat (- m)) raw)
  /\ (forall line : bytes, slice_to (-1) (with_nl line) = line)
  /\ (readline file (tell p) = [] ->
        run_readlines file p n m strict_decode = (None, enter p))
  /\ (forall f, read_loop n m strict_decode [] f = (None, f)).
Proof.
  split; [|split; [|split; [|split; [|split]]]].
  - unfold Text.run_readlines.
    destruct (read_loop_decodes_slices lookup_codec chardet_detect n m
                strict_decode (file_lines (skipn (tell p) file)) (enter p))
      as (evs & Hl & Hf).
    rewrite Hl. by frame_simpl.
  - intros raw H. apply slice_to_pos. lia.
  - intros raw H. by apply slice_to_neg.
  - apply slice_to_strips_nl.
  - intros H. unfold Text.run_readlines, readline in *.
    apply take_line_nil in H. rewrite H. apply read_loop_nil.
  - intros f. apply read_loop_nil.
Qed.

End ReaderClaims.

(** C2, witness: a parser at offset 3 of a five-byte file, cut at 2. *)
Lemma readlines_slices_each_line_witness :
  slice_to 2 (b_ "abc") = b_ "ab"
  /\ slice_to (-2) (b_ "abc") = b_ "a"
  /\ run_readlines small_registry (toy_detect false) (b_ "abc")
       (seek 3 (new_parser "f" "utf-8")) (-1) 2 false
     = (None, enter (seek 3 (new_parser "f" "utf-8"))).
Proof.
  pose proof (readlines_slices_each_line small_registry (toy_detect false)
                (b_ "abc") (seek 3 (new_parser "f" "utf-8")) (-1) 2 false)
    as (_ & Hpos & _ & _ & Hend & _).
  pose proof (readlines_slices_each_line small_registry (toy_detect false)
                (b_ "abc") (seek 3 (new_parser "f" "utf-8")) (-1) (-2) false)
    as (_ & _ & Hneg & _).
  split; [|split].
  - rewrite Hpos; [reflexivity|lia].
  - rewrite Hneg; [reflexivity|lia].
  - apply Hend. reflexivity.
Defined.

(** C2, as stated, fails. With the default [max_len_one_line = -1] the
    line ["ab\n"] reaches [decode] as ["ab"], not unmodified; and on the
    file ["\nab\n"] the first [readline()] returns one byte, yet the
    loop stops there with two more lines unread. *)
Lemma readlines_cut_counterexample :
  let p := new_parser "f" "utf-8" in
  decoded_raws (log (snd (run_readlines small_registry (toy_detect false)
                            (b_ "ab" ++ [NL]) p (-1) (-1) false))) = [b_ "ab"]
  /\ [b_ "ab"] <> [claimed_cut (-1) (b_ "ab" ++ [NL])]
  /\ readline ([NL] ++ b_ "ab" ++ [NL]) (tell p) = [NL]
  /\ readlines small_registry (toy_detect false) ([NL] ++ b_ "ab" ++ [NL]) p (-1) (-1) false
     = (inr ([], 1), seek 1 p).
Proof. repeat split; try reflexivity. discriminate. Qed.

Section ReaderRepair.

Variable lookup_codec : string -> option Codec.
Variable chardet_detect : bytes -> option string.

Abbreviation decode := (decode lookup_codec).
Abbreviation detect_bytes_encoding := (detect_bytes_encoding chardet_detect).
Abbreviation decode_retry := (decode_retry lookup_codec chardet_detect).
Abbreviation read_loop := (read_loop lookup_codec chardet_detect).
Abbreviation run_readlines := (run_readlines lookup_codec chardet_detect).
Abbreviation readlines := (readlines lookup_codec chardet_detect).

Lemma decode_fails_strict raw enc how c :
  lookup_codec enc = Some c -> how = strict -> decode_strict c raw = None ->
  decode raw enc how = UnicodeDecodeError.
Proof. intros Hc -> Hd. unfold Text.decode. by rewrite Hc, Hd. Qed.

Lemma decode_failure_is_strict raw enc how :
  decode raw enc how = UnicodeDecodeError ->
  how = strict /\ exists c, lookup_codec enc = Some c /\ decode_strict c raw = None.
Proof.
  unfold Text.decode. destruct (lookup_codec enc) as [c|]; [|done].
  destruct how; [|done].
  destruct (decode_strict c raw) eqn:E; [done|]. eauto.
Qed.

(** C7. At any point of a call where the loop is to read on, let the
    next line, cut to [max_len_one_line], be non-empty, fail to decode
    under the encoding in use, and get no guess from the oracle. In
    strict mode the call ends there with the [CustomError] that
    carries the cut line. In non-strict mode the line is appended as
    decoded by the same encoding under [errors='replace'], the frame
    is otherwise only advanced past the line and switched to
    [replace], and the loop goes on with the lines that follow. *)
Theorem undetected_line_fails_or_is_replaced (n m : Z) (strict_decode : bool)
    (raw : bytes) (pending : list bytes) (f : frame) (c : Codec) :
  wants_more n f = true ->
  slice_to m raw <> [] ->
  lookup_codec (encoding f) = Some c ->
  errors_strategy f = strict ->
  decode_strict c (slice_to m raw) = None ->
  detect_bytes_encoding (slice_to m raw) = None ->
  if strict_decode then
    fst (read_loop n m true (raw :: pending) f) = Some (CustomError (slice_to m raw))
  else
    exists f',
      read_loop n m false (raw :: pending) f = read_loop n m false pending f'
      /\ lines f' = lines f ++ [decode_replace c (slice_to m raw)]
      /\ errors_strategy f' = replace
      /\ encoding f' = encoding f
      /\ read_size f' = read_size f + length raw
      /\ self f' = seek (tell (self f) + length raw) (self f).
Proof.
  intros Hw Hne Hc Hs Hd Ho.
  assert (E : (length (slice_to m raw) =? 0) = false).
  { apply Nat.eqb_neq. by destruct (slice_to m raw). }
  destruct strict_decode.
  - rewrite read_loop_cons, Hw. cbv zeta. rewrite E, decode_retry_S. cbv zeta.
    frame_simpl. rewrite (decode_fails_strict _ _ _ c) by done.
    by rewrite Ho.
  - eexists. rewrite read_loop_cons, Hw. cbv zeta. rewrite E.
    rewrite decode_retry_S. cbv zeta. frame_simpl.
    rewrite (decode_fails_strict _ _ _ c) by done. rewrite Ho.
    rewrite decode_retry_S. cbv zeta. frame_simpl.
    unfold Text.decode at 1. rewrite Hc.
    split; [reflexivity|]. by frame_simpl.
Qed.

(** C10. At any point of a call where the loop is to read on, let the
    next line, cut to [max_len_one_line], be non-empty and fail to
    decode under the encoding in use, and let the oracle answer an
    encoding under which it fails as well. Then, in non-strict as in
    strict mode, the three attempts are used up and the loop goes on
    with the following lines from a frame whose line list is
    unchanged, while the byte count and the cursor have moved past
    the whole line; so a line that ends a file is counted in the
    returned size and absent from the returned lines. *)
Theorem undecodable_line_is_dropped (n m : Z) (strict_decode : bool)
    (raw : bytes) (pending : list bytes) (f : frame) (c c' : Codec) (e' : string) :
  wants_more n f = true ->
  slice_to m raw <> [] ->
  errors_strategy f = strict ->
  lookup_codec (encoding f) = Some c ->
  decode_strict c (slice_to m raw) = None ->
  detect_bytes_encoding (slice_to m raw) = Some e' ->
  lookup_codec e' = Some c' ->
  decode_strict c' (slice_to m raw) = None ->
  exists f',
    read_loop n m strict_decode (raw :: pending) f
      = read_loop n m strict_decode pending f'
    /\ lines f' = lines f
    /\ read_size f' = read_size f + length raw
    /\ tell (self f') = tell (self f) + length raw
    /\ encoding f' = e' /\ _fixed_encoding (self f') = e'
    /\ errors_strategy f' = strict
    /\ (pending = [] ->
        fst (read_loop n m strict_decode (raw :: pending) f) = None
        /\ lines (snd (read_loop n m strict_decode (raw :: pending) f)) = lines f
        /\ read_size (snd (read_loop n m strict_decode (raw :: pending) f))
           = read_size f + length raw).
Proof.
  intros Hw Hne Hs Hc Hd Ho Hc' Hd'.
  assert (E : (length (slice_to m raw) =? 0) = false).
  { apply Nat.eqb_neq. by destruct (slice_to m raw). }
  assert (R : exists f',
    read_loop n m strict_decode (raw :: pending) f
      = read_loop n m strict_decode pending f'
    /\ lines f' = lines f
    /\ read_size f' = read_size f + length raw
    /\ tell (self f') = tell (self f) + length raw
    /\ encoding f' = e' /\ _fixed_encoding (self f') = e'
    /\ errors_strategy f' = strict).
  { eexists. rewrite read_loop_cons, Hw. cbv zeta. rewrite E.
    rewrite decode_retry_S. cbv zeta. frame_simpl.
    rewrite (decode_fails_strict _ _ _ c) by done. rewrite Ho.
    rewrite decode_retry_S. cbv zeta. frame_simpl.
    rewrite (decode_fails_strict _ _ _ c') by done. rewrite Ho.
    rewrite decode_retry_S. cbv zeta. frame_simpl.
    rewrite (decode_fails_strict _ _ _ c') by done. rewrite Ho.
    cbn [Text.decode_retry].
    split; [reflexivity|]. by frame_simpl. }
  destruct R as (f' & Hr & Hl & Hsz & Ht & He & Hf & Hst).
  exists f'. do 7 (split; [done|]).
  intros ->. rewrite Hr, read_loop_nil. by frame_simpl.
Qed.

End ReaderRepair.

(** C7, witness: the line [0xFF 'A' '\n'] under UTF-8 with a detector
    that has no guess for it. *)
Lemma undetected_line_fails_or_is_replaced_witness :
  fst (read_loop small_registry (toy_detect false) (-1) (-1) true
         [[xff; x41; NL]; b_ "c" ++ [NL]] (enter (new_parser "f" "utf-8")))
    = Some (CustomError [xff; x41])
  /\ exists f',
       read_loop small_registry (toy_detect false) (-1) (-1) false
         [[xff; x41; NL]; b_ "c" ++ [NL]] (enter (new_parser "f" "utf-8"))
       = read_loop small_registry (toy_detect false) (-1) (-1) false
           [b_ "c" ++ [NL]] f'
       /\ lines f' = [[REPLACEMENT; 65%N]]
       /\ errors_strategy f' = replace.
Proof.
  split.
  - apply (undetected_line_fails_or_is_replaced small_registry (toy_detect false)
             (-1) (-1) true [xff; x41; NL] [b_ "c" ++ [NL]]
             (enter (new_parser "f" "utf-8")) utf8); reflexivity || discriminate.
  - destruct (undetected_line_fails_or_is_replaced small_registry (toy_detect false)
                (-1) (-1) false [xff; x41; NL] [b_ "c" ++ [NL]]
                (enter (new_parser "f" "utf-8")) utf8) as (f' & Hr & Hl & He & _);
      try (reflexivity || discriminate).
    exists f'. split; [exact Hr|]. split; [rewrite Hl; reflexivity|exact He].
Defined.

(** C10, witness: the line [0xFF 'A' '\n'] under UTF-8 with a detector
    that answers "ascii" whatever it is shown; the call reports 8 bytes
    read and returns the two other lines, 3 bytes. *)
Lemma undecodable_line_is_dropped_witness :
  (exists f',
     read_loop small_registry stubborn_detect (-1) (-1) false
       [[xff; x41; NL]; b_ "c" ++ [NL]]
       (advance 3 (append_line (t_ "ab") (enter (new_parser "f" "utf-8"))))
     = read_loop small_registry stubborn_detect (-1) (-1) false
         [b_ "c" ++ [NL]] f'
     /\ lines f' = [t_ "ab"] /\ read_size f' = 6)
  /\ readlines small_registry stubborn_detect
       (b_ "ab" ++ [NL] ++ [xff; x41; NL] ++ b_ "c" ++ [NL])
       (new_parser "f" "utf-8") (-1) (-1) false
     = (inr ([t_ "ab"; t_ "c"], 8),
        set_fixed "utf-8" (seek 8 (new_parser "f" "utf-8"))).
Proof.
  split; [|reflexivity].
  destruct (undecodable_line_is_dropped small_registry stubborn_detect
              (-1) (-1) false [xff; x41; NL] [b_ "c" ++ [NL]]
              (advance 3 (append_line (t_ "ab") (enter (new_parser "f" "utf-8"))))
              utf8 utf8 "utf-8")
    as (f' & Hr & Hl & Hs & _); try (reflexivity || discriminate).
  exists f'. repeat split; assumption.
Defined.

Section Stickiness.

Variable lookup_codec : string -> option Codec.
Variable chardet_detect : bytes -> option string.

Abbreviation decode := (decode lookup_codec).
Abbreviation detect_bytes_encoding := (detect_bytes_encoding chardet_detect).
Abbreviation decode_retry := (decode_retry lookup_codec chardet_detect).
Abbreviation read_loop := (read_loop lookup_codec chardet_detect).
Abbreviation run_readlines := (run_readlines lookup_codec chardet_detect).
Abbreviation learned := (learned chardet_detect).
Abbreviation in_force := (in_force chardet_detect).
Abbreviation repair_step := (repair_step lookup_codec chardet_detect).
Abbreviation in_step := (in_step lookup_codec chardet_detect).

Lemma learned_decode l enc how raw : learned (l ++ [Decode enc how raw]) = learned l.
Proof. unfold Notions.learned. rewrite omap_app. simpl. by rewrite app_nil_r. Qed.

Lemma learned_detect l raw :
  learned (l ++ [Detect raw]) =
    match detect_bytes_encoding raw with
    | Some e => Some e
    | None => learned l
    end.
Proof.
  unfold Notions.learned. rewrite omap_app. simpl.
  destruct (detect_bytes_encoding raw) as [e|]; simpl.
  - by rewrite last_snoc.
  - by rewrite app_nil_r.
Qed.

Lemma in_step_enter p : in_step p (enter p).
Proof. repeat split. apply every_step_nil. Qed.

Lemma in_step_advance p k f : in_step p f -> in_step p (advance k f).
Proof. intros (H1 & H2 & H3). by repeat split. Qed.

Lemma decode_retry_in_step p k strict_decode raw f :
  in_step p f -> in_step p (snd (decode_retry k strict_decode raw f)).
Proof.
  revert f. induction k as [|k IH]; intros f Hf; [done|].
  rewrite decode_retry_S. cbv zeta. frame_simpl.
  destruct Hf as (H1 & H2 & H3).
  assert (Hd : in_step p (note (Decode (encoding f) (errors_strategy f) raw) f)).
  { split; [|split]; frame_simpl.
    - apply every_step_snoc; [done|]. exact H2.
    - unfold Notions.in_force. by rewrite learned_decode.
    - by rewrite learned_decode. }
  destruct (decode raw (encoding f) (errors_strategy f)) eqn:D; frame_simpl;
    [exact Hd| |exact Hd].
  destruct (decode_failure_is_strict _ _ _ _ D) as (Hs & _).
  rewrite Hs in *.
  assert (Hq : every_step (repair_step p)
                 ((log f ++ [Decode (encoding f) strict raw]) ++ [Detect raw])).
  { apply every_step_snoc; [apply Hd|].
    exists (log f). rewrite <- H2. by split. }
  destruct (detect_bytes_encoding raw) as [e|] eqn:O.
  - apply IH. split; [|split]; frame_simpl; [done| |].
    + unfold Notions.in_force. by rewrite learned_detect, O.
    + by rewrite learned_detect, O.
  - assert (Hn : in_step p (note (Detect raw)
                    (note (Decode (encoding f) strict raw) f))).
    { split; [|split]; frame_simpl; [done| |].
      - unfold Notions.in_force. rewrite learned_detect, O, learned_decode.
        exact H2.
      - by rewrite learned_detect, O, learned_decode. }
    destruct strict_decode; frame_simpl; [exact Hn|].
    apply IH. destruct Hn as (N1 & N2 & N3). by repeat split.
Qed.

Lemma read_loop_in_step p n m strict_decode pending f :
  in_step p f -> in_step p (snd (read_loop n m strict_decode pending f)).
Proof.
  revert f. induction pending as [|raw pending IH]; intros f Hf.
  - by rewrite read_loop_nil.
  - rewrite read_loop_cons. cbv zeta.
    destruct (wants_more n f); [|done].
    destruct (length (slice_to m raw) =? 0); [by apply in_step_advance|].
    pose proof (decode_retry_in_step p 3 strict_decode (slice_to m raw)
                  (advance (length raw) f) (in_step_advance p _ f Hf)) as Hr.
    destruct (decode_retry 3 strict_decode (slice_to m raw)
                (advance (length raw) f)) as [[e|] f1]; frame_simpl; [done|].
    by apply IH.
Qed.

Lemma learned_is_detected l e :
  learned l = Some e -> exists raw, detect_bytes_encoding raw = Some e.
Proof.
  induction l as [|ev l IH] using rev_ind; [done|].
  destruct ev as [enc how raw|raw].
  - by rewrite learned_decode.
  - rewrite learned_detect. destruct (detect_bytes_encoding raw) eqn:O; [|done].
    intros [= ->]. eauto.
Qed.

(** C6. For every call of [readlines] on a reader [p]: with a learned
    encoding stored in [p] the call enters with it and not with the
    default; each [decode] of the call is made under the encoding
    learned last, in this call or, through [p], in an earlier one; a
    line goes to the oracle only right after its strict [decode] under
    that encoding has failed, so a line that decodes under it never
    does; the reader is left holding the encoding learned last; and
    with an oracle that never answers the empty name a reader that
    holds a learned encoding holds one after the call as well. *)
Theorem learned_encoding_is_sticky (file : bytes) (p : TextFileParser)
    (n m : Z) (strict_decode : bool) :
  let f := snd (run_readlines file p n m strict_decode) in
  (_fixed_encoding p <> EmptyString -> encoding (enter p) = _fixed_encoding p)
  /\ every_step (fun pre ev =>
       match ev with
       | Decode enc how raw => enc = in_force p pre
       | Detect raw =>
           exists pre', pre = pre' ++ [Decode (in_force p pre') strict raw]
             /\ decode raw (in_force p pre') strict = UnicodeDecodeError
       end) (log f)
  /\ _fixed_encoding (self f)
     = match learned (log f) with Some e => e | None => _fixed_encoding p end
  /\ ((forall raw, chardet_detect raw <> Some EmptyString) ->
      _fixed_encoding p <> EmptyString ->
      _fixed_encoding (self f) <> EmptyString).
Proof.
  pose proof (read_loop_in_step p n m strict_decode
                (file_lines (skipn (tell p) file)) (enter p) (in_step_enter p))
    as (H1 & H2 & H3).
  cbv zeta. fold (run_readlines file p n m strict_decode) in *.
  split; [|split; [exact H1|split; [exact H3|]]].
  - intros Hne. frame_simpl.
    destruct (String.eqb (_fixed_encoding p) EmptyString) eqn:E; [|done].
    by apply String.eqb_eq in E.
  - intros Hor Hne. rewrite H3.
    destruct (learned (log (snd (run_readlines file p n m strict_decode))))
      as [e|] eqn:L; [|done].
    apply learned_is_detected in L as (raw & Hr).
    unfold Text.detect_bytes_encoding in Hr.
    destruct (chardet_detect raw) as [e0|] eqn:C; [|done].
    destruct (String.eqb e0 "utf-8" || String.eqb e0 "ascii").
    + by injection Hr as <-.
    + injection Hr as <-. intros ->. by apply (Hor raw).
Qed.

End Stickiness.

(** C6, witness: a reader that has learned "latin-1" reads a file whose
    second line is not UTF-8; nothing goes to the oracle. *)
Lemma learned_encoding_is_sticky_witness :
  let p := set_fixed "latin-1" (new_parser "f" "utf-8") in
  let f := snd (run_readlines small_registry (toy_detect true)
                  (b_ "ab" ++ [NL] ++ [xff; NL]) p (-1) (-1) false) in
  encoding (enter p) = "latin-1"%string
  /\ _fixed_encoding (self f) <> EmptyString
  /\ detections (log f) = [].
Proof.
  pose proof (learned_encoding_is_sticky small_registry (toy_detect true)
                (b_ "ab" ++ [NL] ++ [xff; NL])
                (set_fixed "latin-1" (new_parser "f" "utf-8")) (-1) (-1) false)
    as (H1 & _ & _ & H4).
  split; [|split].
  - apply H1. discriminate.
  - apply H4; [|discriminate].
    intros raw. unfold toy_detect.
    destruct (forallb is_ascii raw); [discriminate|].
    destruct (true && existsb (Byte.eqb xff) raw); discriminate.
  - reflexivity.
Defined.

(* ===================================================================== *)
(** ** Lines that do come back *)
(* ===================================================================== *)

Section NonBlankLines.

Variable lookup_codec : string -> option Codec.
Variable chardet_detect : bytes -> option string.

Abbreviation read_loop := (read_loop lookup_codec chardet_detect).
Abbreviation readlines := (readlines lookup_codec chardet_detect).

Lemma utf8_items_ascii (l : bytes) :
  forallb is_ascii l = true ->
  utf8_items Idle l = map (fun x => Char (Byte.to_N x)) l.
Proof.
  induction l as [|x l IH]; [done|]. cbn [forallb]. intros H.
  apply andb_prop in H as [Hx Hl]. cbn [utf8_items map].
  unfold is_ascii in Hx. change 128%N with 0x80%N in Hx. rewrite Hx.
  by rewrite IH.
Qed.

Lemma all_chars_chars (f : byte -> N) (l : bytes) :
  all_chars (map (fun x => Char (f x)) l) = Some (map f l).
Proof.
  unfold all_chars. induction l as [|x l IH]; [done|].
  cbn [map mapM]. cbn. by rewrite IH.
Qed.

(** UTF-8 decodes ASCII bytes to the code points of the same numbers. *)
Lemma utf8_decodes_ascii (l : bytes) :
  forallb is_ascii l = true -> decode_strict utf8 l = Some (map Byte.to_N l).
Proof.
  intros H. cbn [utf8 codec_of_items decode_strict].
  by rewrite utf8_items_ascii, all_chars_chars.
Qed.

Lemma file_lines_one_line (line rest : bytes) :
  forallb (fun b => negb (is_nl b)) line = true ->
  file_lines (with_nl line ++ rest) = with_nl line :: file_lines rest.
Proof.
  unfold with_nl. induction line as [|b line IH]; cbn [forallb]; intros H.
  - done.
  - apply andb_prop in H as [Hb Hl]. cbn [app file_lines].
    destruct (is_nl b); [done|]. by rewrite (IH Hl).
Qed.

Lemma file_lines_terminated (lines : list bytes) :
  Forall (fun line => forallb (fun b => negb (is_nl b)) line = true) lines ->
  file_lines (concat (map with_nl lines)) = map with_nl lines.
Proof.
  induction 1 as [|line lines Hl _ IH]; [done|].
  cbn [map concat]. by rewrite file_lines_one_line, IH.
Qed.

Lemma read_loop_plain_lines (strict_decode : bool) (lines_written : list bytes) (f : frame) :
  Forall plain_line lines_written ->
  lookup_codec (encoding f) = Some utf8 ->
  read_loop (-1) (-1) strict_decode (map with_nl lines_written) f
    = (None,
       {| self := seek (tell (self f) + length (concat (map with_nl lines_written)))
                    (self f);
          errors_strategy := errors_strategy f;
          encoding := encoding f;
          read_size := read_size f + length (concat (map with_nl lines_written));
          lines := lines f ++ map (map Byte.to_N) lines_written;
          log := log f ++ map (fun line => Decode (encoding f) (errors_strategy f) line)
                            lines_written |}).
Proof.
  intros H. revert f. induction H as [|line rest (Hne & Ha & Hn) _ IH]; intros f Hc.
  - rewrite read_loop_nil. cbn [map concat length]. rewrite !Nat.add_0_r, !app_nil_r.
    by destruct f as [[] ? ? ? ? ?].
  - cbn [map]. rewrite read_loop_cons. unfold wants_more at 1. cbn [Z.eqb orb].
    cbv zeta. rewrite slice_to_strips_nl.
    destruct line as [|b line]; [done|]. cbn [length Nat.eqb].
    rewrite decode_retry_S. cbv zeta. frame_simpl.
    assert (D : decode lookup_codec (b :: line) (encoding f) (errors_strategy f)
                = Decoded (map Byte.to_N (b :: line))).
    { unfold decode. rewrite Hc. destruct (errors_strategy f).
      - by rewrite utf8_decodes_ascii.
      - cbn [utf8 codec_of_items decode_replace].
        rewrite utf8_items_ascii by done. f_equal.
        unfold replace_bad. rewrite map_map. done. }
    rewrite D. rewrite IH by (frame_simpl; exact Hc). frame_simpl.
    f_equal. cbn [concat]. rewrite !length_app.
    assert (L : length (with_nl (b :: line)) = S (length line) + 1).
    { unfold with_nl. by rewrite length_app. }
    rewrite L. f_equal.
    + unfold seek. cbn. f_equal. lia.
    + lia.
    + by rewrite <- !app_assoc.
    + by rewrite <- !app_assoc.
Qed.

(** What the reader does return: when the file holds terminated,
    non-blank ASCII lines and the reader is new, one call with the
    arguments [_wait] uses gives exactly these lines, in order, and the
    size of the file. *)
Lemma readlines_returns_plain_lines (path : string) (strict_decode : bool)
    (lines_written : list bytes) :
  Forall plain_line lines_written ->
  lookup_codec "utf-8" = Some utf8 ->
  readlines (concat (map with_nl lines_written)) (new_parser path "utf-8")
    (-1) (-1) strict_decode
  = (inr (map (map Byte.to_N) lines_written,
          length (concat (map with_nl lines_written))),
     seek (length (concat (map with_nl lines_written))) (new_parser path "utf-8")).
Proof.
  intros H Hc. unfold Text.readlines, Text.run_readlines.
  cbn [tell new_parser]. rewrite drop_0.
  rewrite file_lines_terminated.
  - rewrite read_loop_plain_lines; [|exact H|exact Hc]. by frame_simpl.
  - eapply Forall_impl; [exact H|]. by intros line (_ & _ & Hn).
Qed.

End NonBlankLines.

(* ===================================================================== *)
(** ** The size monitor *)
(* ===================================================================== *)

Section MonitorFacts.

(** The test of the monitor, in integers. *)
Lemma beyond_limit_spec (file_size max_size : Z) :
  beyond_limit file_size max_size = (3 * max_size <? 2 * file_size)%Z.
Proof.
  unfold beyond_limit, Qle_bool. cbn [Qnum Qden inject_Z Qmult].
  destruct (Z.leb_spec ((file_size - max_size) * Z.pos (1 * 2)) (max_size * 1 * 1));
    destruct (Z.ltb_spec (3 * max_size) (2 * file_size)); simpl; lia.
Qed.

Lemma write_at_end (data f : bytes) : write_at (length f) data f = f ++ data.
Proof.
  unfold write_at. rewrite firstn_all, Nat.sub_diag. simpl.
  rewrite skipn_all2 by lia. by rewrite app_nil_r.
Qed.


End MonitorFacts.

(* ===================================================================== *)
(** ** The controller: what each method does to the world *)
(* ===================================================================== *)

Ltac world_simpl :=
  cbn [fst snd heap next child child_stdout child_stderr kill_works now script
       journal set_heap set_next set_child set_fds set_now set_script
       set_journal] in *.

Ltac rest_same := split; [by intros ? ?|done].

Section WorldFacts.

Lemma same_managers_refl w : same_managers w w.
Proof. intros l. by destruct (heap w !! l). Qed.

Lemma same_managers_trans w1 w2 w3 :
  same_managers w1 w2 -> same_managers w2 w3 -> same_managers w1 w3.
Proof.
  intros H12 H23 l. specialize (H12 l). specialize (H23 l).
  destruct (heap w1 !! l), (heap w2 !! l), (heap w3 !! l); try done.
  destruct H12 as (?&?&?&?), H23 as (?&?&?&?). repeat split; congruence.
Qed.

(** Changing a manager in place without touching its lifecycle. *)
Lemma same_managers_alter w f l :
  (forall m, on_disk (f m) = on_disk m /\ closed (f m) = closed m
             /\ monitoring (f m) = monitoring m /\ _max_size (f m) = _max_size m) ->
  same_managers w (set_heap (alter f l (heap w)) w).
Proof.
  intros Hf k. world_simpl.
  destruct (decide (l = k)) as [->|Hne].
  - rewrite lookup_alter_eq. destruct (heap w !! k) as [m|]; simpl; [apply Hf|done].
  - rewrite lookup_alter_ne by done. by destruct (heap w !! k).
Qed.

Lemma moves_refl w : moves [] w w.
Proof.
  split; [by rewrite app_nil_r|]. split; [apply same_managers_refl|]. rest_same.
Qed.

Lemma moves_trans d1 d2 w1 w2 w3 :
  moves d1 w1 w2 -> moves d2 w2 w3 -> moves (d1 ++ d2) w1 w3.
Proof.
  intros (J1 & M1 & E1 & K1) (J2 & M2 & E2 & K2). split; [|split; [|split]].
  - by rewrite J2, J1, app_assoc.
  - by eapply same_managers_trans.
  - intros rc H. by apply E2, E1.
  - congruence.
Qed.

Lemma moves_then_quiet d w1 w2 w3 :
  moves d w1 w2 -> moves [] w2 w3 -> moves d w1 w3.
Proof. intros H1 H2. rewrite <- (app_nil_r d). by eapply moves_trans. Qed.

Lemma moves_record e w : moves [e] w (set_journal (journal w ++ [e]) w).
Proof.
  split; [done|]. split; [|rest_same].
  intros l. world_simpl. by destruct (heap w !! l).
Qed.

Lemma file_size_monitor_flags m :
  on_disk (file_size_monitor m) = on_disk m
  /\ closed (file_size_monitor m) = closed m
  /\ monitoring (file_size_monitor m) = monitoring m
  /\ _max_size (file_size_monitor m) = _max_size m.
Proof.
  unfold file_size_monitor.
  by destruct (beyond_limit (Z.of_nat (length (file m))) (_max_size m)).
Qed.

Lemma act_moves w a : moves [] w (act w a).
Proof.
  destruct a as [fd data|rc|dt|l]; simpl.
  - destruct (child w) as [[|rc]|]; try apply moves_refl.
    destruct (fd_target fd w) as [l|]; [|apply moves_refl].
    split; [by rewrite app_nil_r|]. split; [|rest_same].
    by apply same_managers_alter.
  - destruct (child w) as [[|rc']|] eqn:C; try apply moves_refl.
    split; [by rewrite app_nil_r|]. split; [|split; [|done]].
    + intros l. world_simpl. by destruct (heap w !! l).
    + intros rc' H. congruence.
  - split; [by rewrite app_nil_r|]. split; [|rest_same].
    intros l. world_simpl. by destruct (heap w !! l).
  - split; [by rewrite app_nil_r|]. split; [|rest_same].
    apply same_managers_alter. intros m.
    destruct (monitoring m) eqn:Hm; [|done].
    rewrite <- Hm. apply file_size_monitor_flags.
Qed.

Lemma acts_move acts w : moves [] w (fold_left act acts w).
Proof.
  revert w. induction acts as [|a acts IH]; intros w; simpl; [apply moves_refl|].
  change (@nil entry) with (@nil entry ++ []).
  eapply moves_trans; [apply act_moves|apply IH].
Qed.

Lemma tick_moves w : moves [] w (tick w).
Proof.
  unfold tick. destruct (script w) as [|acts rest]; [apply moves_refl|].
  change (@nil entry) with (@nil entry ++ []).
  eapply moves_trans; [|apply acts_move].
  split; [by rewrite app_nil_r|]. split; [|rest_same].
  intros l. world_simpl. by destruct (heap w !! l).
Qed.

End WorldFacts.

Ltac run_simpl :=
  cbv beta iota delta [mbind mret M_bind M_ret raise spin get_self put_self
                       get_world put_world look record update_manager];
  cbn [fst snd].

Section MethodFacts.

Variable lookup_codec : string -> option Codec.
Variable chardet_detect : bytes -> option string.

Abbreviation manager_pick := (manager_pick lookup_codec chardet_detect).
Abbreviation pick_stdout := (pick_stdout lookup_codec chardet_detect).
Abbreviation pick_stderr := (pick_stderr lookup_codec chardet_detect).
Abbreviation wait_loop := (wait_loop lookup_codec chardet_detect).
Abbreviation _wait := (_wait lookup_codec chardet_detect).

Lemma bind_run {A B} (c : M A) (f : A -> M B) s :
  (c ≫= f) s = match c s with
               | (Return a, s') => f a s'
               | (Raise e, s') => (Raise e, s')
               | (Spinning, s') => (Spinning, s')
               end.
Proof. reflexivity. Qed.

Lemma is_living_run self w :
  match _popen self with
  | None => exists msg, is_living (self, w) = (Raise (AssertionError msg), (self, w))
  | Some _ =>
      exists b w', is_living (self, w) = (Return b, (self, w'))
        /\ moves [Living b] w w'
        /\ (b = false -> exists rc, child w' = Some (Exited rc))
        /\ (b = true -> forall rc, child w' <> Some (Exited rc))
  end.
Proof.
  unfold is_living. run_simpl. destruct (_popen self) as [pid|]; [|by eexists].
  run_simpl.
  eexists _, _. split; [reflexivity|]. split; [|split].
  - change [Living ?b] with ([] ++ [Living b]).
    eapply moves_trans; [apply tick_moves|apply moves_record].
  - world_simpl. destruct (child (tick w)) as [[|rc]|]; try done. eauto.
  - world_simpl. by destruct (child (tick w)) as [[|rc]|].
Qed.

Lemma stream_end_run l self w :
  exists b w', stream_end l (self, w) = (Return b, (self, w')) /\ moves [] w w'.
Proof.
  unfold stream_end. run_simpl. eexists _, _. split; [reflexivity|apply tick_moves].
Qed.

Lemma still_remain_run self w :
  exists b w', still_remain_output_to_read (self, w) = (Return b, (self, w'))
               /\ moves [Backlog b] w w'.
Proof.
  unfold still_remain_output_to_read.
  rewrite bind_run. cbn [get_self fst snd]. rewrite bind_run.
  assert (H1 : exists b w1,
    (match _stdout_manager self with
     | Some l => e ← stream_end l; mret (negb e)
     | None => mret false
     end) (self, w) = (Return b, (self, w1)) /\ moves [] w w1).
  { destruct (_stdout_manager self) as [l|].
    - rewrite bind_run. destruct (stream_end_run l self w) as (b & w1 & -> & Hm).
      by eexists _, _.
    - eexists _, _. split; [reflexivity|apply moves_refl]. }
  destruct H1 as (b1 & w1 & -> & Hm1). rewrite bind_run.
  assert (H2 : exists b w2,
    (match _stderr_manager self with
     | Some l => e ← stream_end l; mret (negb e)
     | None => mret false
     end) (self, w1) = (Return b, (self, w2)) /\ moves [] w1 w2).
  { destruct (_stderr_manager self) as [l|].
    - rewrite bind_run. destruct (stream_end_run l self w1) as (b & w2 & -> & Hm).
      by eexists _, _.
    - eexists _, _. split; [reflexivity|apply moves_refl]. }
  destruct H2 as (b2 & w2 & -> & Hm2).
  run_simpl. eexists _, _. split; [reflexivity|].
  change [Backlog ?b] with (([] ++ []) ++ [Backlog b]).
  eapply moves_trans; [eapply moves_trans; eassumption|apply moves_record].
Qed.

Lemma with_parser_flags p m :
  on_disk (with_parser p m) = on_disk m /\ closed (with_parser p m) = closed m
  /\ monitoring (with_parser p m) = monitoring m
  /\ _max_size (with_parser p m) = _max_size m.
Proof. done. Qed.

Lemma manager_pick_run l n k strict_decode self w :
  exists r w', manager_pick l n k strict_decode (self, w) = (r, (self, w'))
    /\ moves [] w w'
    /\ match r with
       | Return _ | Raise (ReadError _) => True
       | _ => False
       end.
Proof.
  unfold Proc.manager_pick. run_simpl. unfold pick_lines.
  destruct (readlines lookup_codec chardet_detect (file (heap (tick w) !!! l))
              (_stream_text_parser (heap (tick w) !!! l)) n k strict_decode)
    as [r p] eqn:R.
  run_simpl.
  assert (Hm : moves [] w (set_heap
                 (alter (fun _ => with_parser p (heap (tick w) !!! l)) l
                    (heap (tick w))) (tick w))).
  { change (@nil entry) with (@nil entry ++ []).
    eapply moves_trans; [apply tick_moves|].
    split; [by rewrite app_nil_r|]. split; [|rest_same].
    intros j. world_simpl. destruct (decide (l = j)) as [->|Hne].
    - rewrite lookup_alter_eq. unfold lookup_total, map_lookup_total.
      destruct (heap (tick w) !! j); simpl; done.
    - rewrite lookup_alter_ne by done. by destruct (heap (tick w) !! j). }
  destruct r as [e|got]; eexists _, _; (split; [reflexivity|by split]).
Qed.

Lemma pick_stdout_run n k strict_decode self w :
  exists r w', pick_stdout n k strict_decode (self, w) = (r, (self, w'))
    /\ moves [] w w'
    /\ match r with
       | Return _ | Raise (ReadError _) => True
       | _ => False
       end.
Proof.
  unfold Proc.pick_stdout. run_simpl. destruct (_stdout_manager self) as [l|].
  - apply manager_pick_run.
  - eexists _, _. split; [reflexivity|]. split; [apply moves_refl|done].
Qed.

Lemma pick_stderr_run n k strict_decode self w :
  exists r w', pick_stderr n k strict_decode (self, w) = (r, (self, w'))
    /\ moves [] w w'
    /\ match r with
       | Return _ | Raise (ReadError _) => True
       | _ => False
       end.
Proof.
  unfold Proc.pick_stderr. run_simpl. destruct (_merget_option self).
  - eexists _, _. split; [reflexivity|]. split; [apply moves_refl|done].
  - destruct (_stderr_manager self) as [l|].
    + apply manager_pick_run.
    + eexists _, _. split; [reflexivity|]. split; [apply moves_refl|done].
Qed.

Lemma drain_run st buffer acc self w :
  exists w', drain st buffer acc (self, w) = (Return (acc ++ buffer), (self, w'))
             /\ moves (logged self st buffer) w w'.
Proof.
  revert acc w. induction buffer as [|line buffer IH]; intros acc w.
  - exists w. split; [by rewrite app_nil_r|].
    unfold logged. destruct (_call_back self); apply moves_refl.
  - cbn [drain]. run_simpl. unfold logged.
    destruct (_call_back self) eqn:C; run_simpl.
    + destruct (IH (acc ++ [line])
                  (set_journal (journal w ++ [Logged (log_message (_proc_label self)
                                                        st line)]) w))
        as (w' & -> & Hm).
      exists w'. split; [by rewrite <- app_assoc|].
      unfold logged in Hm. rewrite C in Hm.
      change (map ?f (line :: buffer)) with ([f line] ++ map f buffer).
      eapply moves_trans; [apply moves_record|exact Hm].
    + destruct (IH (acc ++ [line]) w) as (w' & -> & Hm).
      exists w'. split; [by rewrite <- app_assoc|].
      unfold logged in Hm. by rewrite C in Hm.
Qed.

Lemma monotonic_run self w :
  exists t w', monotonic (self, w) = (Return t, (self, w')) /\ moves [Clock t] w w'.
Proof.
  unfold monotonic. run_simpl. eexists _, _. split; [reflexivity|].
  change [Clock ?t] with ([] ++ [Clock t]).
  eapply moves_trans; [apply tick_moves|apply moves_record].
Qed.

Lemma moves_killed pid w :
  (forall rc, child w <> Some (Exited rc)) ->
  moves [Killed pid (kill_works w)] w
    (set_journal
       (journal (if kill_works w then set_child (Some (Exited (-9))) w else w)
          ++ [Killed pid (kill_works w)])
       (if kill_works w then set_child (Some (Exited (-9))) w else w)).
Proof.
  intros Hc. destruct (kill_works w) eqn:K.
  - split; [done|]. split; [|split]; world_simpl.
    + intros l. world_simpl. by destruct (heap w !! l).
    + intros rc H. by apply Hc in H.
    + done.
  - apply moves_record.
Qed.

Lemma kill_run self w :
  match _popen self with
  | None => exists msg, kill (self, w) = (Raise (AssertionError msg), (self, w))
  | Some _ =>
      exists r k w', kill (self, w) = (Return r, (self, w'))
        /\ moves k w w' /\ kill_entries k
  end.
Proof.
  unfold kill. rewrite bind_run.
  pose proof (is_living_run self w) as H.
  destruct (_popen self) as [pid|].
  - destruct H as (b & w1 & -> & Hm & Hb & Ht). destruct b.
    + unfold _kill_process_tree. run_simpl.
      pose proof (moves_killed (default 0 (_popen self)) w1 (Ht eq_refl)) as Hk.
      destruct (kill_works w1) eqn:KW; run_simpl;
        (eexists _, _, _; split; [reflexivity|]; split;
         [eapply moves_trans; [exact Hm|exact Hk]|constructor]).
    + eexists _, _, _. split; [reflexivity|]. split; [exact Hm|constructor].
  - destruct H as (msg & ->). by eexists.
Qed.

End MethodFacts.

Section RoundFacts.

Variable lookup_codec : string -> option Codec.
Variable chardet_detect : bytes -> option string.

Abbreviation pick_stdout := (pick_stdout lookup_codec chardet_detect).
Abbreviation pick_stderr := (pick_stderr lookup_codec chardet_detect).
Abbreviation wait_loop := (wait_loop lookup_codec chardet_detect).
Abbreviation _wait := (_wait lookup_codec chardet_detect).

Lemma wait_loop_S fuel timeout end_time stdout_lines stderr_lines :
  wait_loop (S fuel) timeout end_time stdout_lines stderr_lines =
    (remain ← still_remain_output_to_read;
     go ← (if (remain : bool) then mret true else is_living);
     if (go : bool) then
       '(stderr_buffer, read_len) ← pick_stderr (-1) (-1) false;
       record (Picked STDERR stderr_buffer read_len);;
       stderr_lines ← drain STDERR stderr_buffer stderr_lines;
       '(stdout_buffer, read_len) ← pick_stdout (-1) (-1) false;
       record (Picked STDOUT stdout_buffer read_len);;
       stdout_lines ← drain STDOUT stdout_buffer stdout_lines;
       if truthy timeout then
         t ← monotonic;
         let remaining_time := (end_time - t)%Z in
         if (remaining_time <=? 0)%Z then
           kill;;
           self ← get_self;
           raise (TimeoutError (cmd self) (default 0%Z timeout)
                    stdout_lines stderr_lines)
         else wait_loop fuel timeout end_time stdout_lines stderr_lines
       else wait_loop fuel timeout end_time stdout_lines stderr_lines
     else mret (stdout_lines, stderr_lines)).
Proof. reflexivity. Qed.

Lemma clock_readings_app d1 d2 :
  clock_readings (d1 ++ d2) = clock_readings d1 ++ clock_readings d2.
Proof. unfold clock_readings. by rewrite omap_app. Qed.

Lemma clock_readings_cons_other e l :
  (forall t, e <> Clock t) -> clock_readings (e :: l) = clock_readings l.
Proof. intros H. destruct e; try done. by destruct (H t). Qed.

Lemma clock_readings_logged self s buffer : clock_readings (logged self s buffer) = [].
Proof.
  unfold logged. destruct (_call_back self); [|done].
  induction buffer as [|line buffer IH]; [done|]. exact IH.
Qed.

Lemma clock_readings_test test : test_passes test -> clock_readings test = [].
Proof. by intros []. Qed.

Lemma clock_readings_drained self eg en og on :
  clock_readings (drained self eg en og on) = [].
Proof.
  unfold drained. rewrite clock_readings_cons_other by done.
  rewrite clock_readings_app, clock_readings_logged.
  rewrite clock_readings_cons_other by done. apply clock_readings_logged.
Qed.

(** The body of the [while], after a test that let it run. *)
Lemma round_cases fuel timeout end_time out err self w :
  round_outcome lookup_codec chardet_detect timeout end_time out err self w fuel.
Proof.
  pose proof (wait_loop_S fuel timeout end_time out err) as EQ.
  assert (BODY : forall test w1, test_passes test -> moves test w w1 ->
    wait_loop (S fuel) timeout end_time out err (self, w)
      = (fun go : bool =>
           if go then
             '(stderr_buffer, read_len) ← pick_stderr (-1) (-1) false;
             record (Picked STDERR stderr_buffer read_len);;
             stderr_lines ← drain STDERR stderr_buffer err;
             '(stdout_buffer, read_len) ← pick_stdout (-1) (-1) false;
             record (Picked STDOUT stdout_buffer read_len);;
             stdout_lines ← drain STDOUT stdout_buffer out;
             if truthy timeout then
               t ← monotonic;
               let remaining_time := (end_time - t)%Z in
               if (remaining_time <=? 0)%Z then
                 kill;;
                 self ← get_self;
                 raise (TimeoutError (cmd self) (default 0%Z timeout)
                          stdout_lines stderr_lines)
               else wait_loop fuel timeout end_time stdout_lines stderr_lines
             else wait_loop fuel timeout end_time stdout_lines stderr_lines
           else mret (out, err)) true (self, w1) ->
    round_outcome lookup_codec chardet_detect timeout end_time out err self w fuel).
  { intros test w1 Htest Hm1 Heq. cbv beta iota in Heq.
    rewrite bind_run in Heq.
    destruct (pick_stderr_run lookup_codec chardet_detect (-1) (-1) false self w1)
      as (r1 & w2 & E2 & Hm2 & Hr1).
    rewrite E2 in Heq.
    destruct r1 as [[eg en]|[]|]; try done.
    2:{ eapply round_read_error; [exact Heq| |].
        - eapply moves_then_quiet; [exact Hm1|exact Hm2].
        - by apply clock_readings_test. }
    rewrite bind_run in Heq. cbn [record fst snd] in Heq.
    rewrite bind_run in Heq.
    destruct (drain_run STDERR eg err self
                (set_journal (journal w2 ++ [Picked STDERR eg en]) w2))
      as (w3 & E3 & Hm3).
    change (record (Picked STDERR eg en) (self, w2))
      with (Return tt, (self, set_journal (journal w2 ++ [Picked STDERR eg en]) w2))
      in Heq.
    cbv beta iota in Heq. rewrite E3 in Heq.
    rewrite bind_run in Heq.
    destruct (pick_stdout_run lookup_codec chardet_detect (-1) (-1) false self w3)
      as (r4 & w4 & E4 & Hm4 & Hr4).
    rewrite E4 in Heq.
    assert (Hm13 : moves (test ++ Picked STDERR eg en :: logged self STDERR eg) w w3).
    { eapply moves_trans; [exact Hm1|].
      change (?x :: ?l) with (([] ++ [x]) ++ l).
      eapply moves_trans; [|exact Hm3].
      eapply moves_trans; [exact Hm2|apply moves_record]. }
    destruct r4 as [[og on]|[]|]; try done.
    2:{ eapply round_read_error; [exact Heq| |].
        - eapply moves_then_quiet; [exact Hm13|exact Hm4].
        - rewrite clock_readings_app.
          rewrite (clock_readings_test test) by done.
          rewrite clock_readings_cons_other by done.
          apply clock_readings_logged. }
    rewrite bind_run in Heq.
    change (record (Picked STDOUT og on) (self, w4))
      with (Return tt, (self, set_journal (journal w4 ++ [Picked STDOUT og on]) w4))
      in Heq.
    cbv beta iota in Heq. rewrite bind_run in Heq.
    destruct (drain_run STDOUT og out self
                (set_journal (journal w4 ++ [Picked STDOUT og on]) w4))
      as (w5 & E5 & Hm5).
    rewrite E5 in Heq.
    assert (Hm15 : moves (test ++ drained self eg en og on) w w5).
    { unfold drained.
      replace (test ++ Picked STDERR eg en :: logged self STDERR eg
                 ++ Picked STDOUT og on :: logged self STDOUT og)
        with ((test ++ Picked STDERR eg en :: logged self STDERR eg)
                ++ (([] ++ [Picked STDOUT og on]) ++ logged self STDOUT og))
        by (simpl; by rewrite <- app_assoc).
      eapply moves_trans; [exact Hm13|].
      eapply moves_trans; [|exact Hm5].
      eapply moves_trans; [exact Hm4|apply moves_record]. }
    destruct (truthy timeout) eqn:T.
    2:{ eapply (round_goes_on _ _ _ _ _ _ _ _ _ test eg en og on []);
          [exact Heq|exact Htest| |].
        - unfold check_passes, deadline_of. by rewrite T.
        - by rewrite app_nil_r. }
    rewrite bind_run in Heq.
    destruct (monotonic_run self w5) as (t & w6 & E6 & Hm6).
    rewrite E6 in Heq. cbv zeta in Heq.
    assert (Hm16 : moves (test ++ drained self eg en og on ++ [Clock t]) w w6).
    { rewrite app_assoc. eapply moves_trans; [exact Hm15|exact Hm6]. }
    destruct (end_time - t <=? 0)%Z eqn:L.
    2:{ eapply (round_goes_on _ _ _ _ _ _ _ _ _ test eg en og on [Clock t]);
          [exact Heq|exact Htest| |exact Hm16].
        unfold check_passes, deadline_of. rewrite T. exists t. split; [done|].
        apply Z.leb_gt in L. lia. }
    apply Z.leb_le in L.
    rewrite bind_run in Heq.
    pose proof (kill_run self w6) as HK.
    destruct (_popen self) as [pid|] eqn:P.
    - destruct HK as (r & k & w7 & E7 & Hm7 & Hk). rewrite E7 in Heq.
      cbn [get_self raise mbind M_bind fst snd] in Heq.
      destruct timeout as [tmo|]; [|done]. cbn [default] in Heq.
      eapply (round_times_out _ _ _ _ _ _ _ _ _ test eg en og on t tmo k);
        [exact Heq|done|exact T|exact Htest|exact L|exact Hk|].
      replace (test ++ drained self eg en og on ++ [Clock t] ++ k)
        with ((test ++ drained self eg en og on ++ [Clock t]) ++ k)
        by (by rewrite <- !app_assoc).
      eapply moves_trans; [exact Hm16|exact Hm7].
    - destruct HK as (msg & E7). rewrite E7 in Heq.
      eapply round_unstarted; [exact Heq|exact Hm16|congruence|exact P]. }
  destruct (still_remain_run self w) as (b & w1 & E1 & Hm1).
  destruct b.
  - eapply (BODY [Backlog true] w1); [constructor|exact Hm1|].
    rewrite EQ, bind_run, E1, bind_run. reflexivity.
  - pose proof (is_living_run self w1) as HL.
    destruct (_popen self) as [pid|] eqn:P.
    + destruct HL as (b & w2 & E2 & Hm2 & Hf & Ht).
      destruct b.
      * eapply (BODY [Backlog false; Living true] w2); [constructor| |].
        -- change [Backlog false; Living true] with ([Backlog false] ++ [Living true]).
           eapply moves_trans; [exact Hm1|exact Hm2].
        -- rewrite EQ, bind_run, E1, bind_run, E2. reflexivity.
      * eapply round_exits; [| |by rewrite P|by apply Hf].
        -- rewrite EQ, bind_run, E1, bind_run, E2. reflexivity.
        -- change [Backlog false; Living false]
             with ([Backlog false] ++ [Living false]).
           eapply moves_trans; [exact Hm1|exact Hm2].
    + destruct HL as (msg & E2).
      eapply round_unstarted; [|exact Hm1|done|exact P].
      rewrite EQ, bind_run, E1, bind_run, E2. reflexivity.
Qed.

End RoundFacts.

Section LoopFacts.

Variable lookup_codec : string -> option Codec.
Variable chardet_detect : bytes -> option string.

Abbreviation wait_loop := (wait_loop lookup_codec chardet_detect).
Abbreviation _wait := (_wait lookup_codec chardet_detect).

Lemma picked_app s d1 d2 : picked s (d1 ++ d2) = picked s d1 ++ picked s d2.
Proof. unfold picked. by rewrite omap_app, concat_app. Qed.

Lemma picked_logged self s s' buffer : picked s (logged self s' buffer) = [].
Proof.
  unfold logged. destruct (_call_back self); [|done].
  induction buffer as [|line buffer IH]; [done|]. exact IH.
Qed.

Lemma picked_test s test : test_passes test -> picked s test = [].
Proof. by intros []. Qed.

Lemma picked_drained self s eg en og on :
  picked s (drained self eg en og on)
    = match s with STDOUT => og | STDERR => eg end.
Proof.
  unfold drained. change (?x :: ?l ++ ?y :: ?k) with ([x] ++ l ++ [y] ++ k).
  rewrite !picked_app, !picked_logged.
  destruct s; cbn; by rewrite ?app_nil_r.
Qed.

Lemma picked_check s deadline clk : check_passes deadline clk -> picked s clk = [].
Proof.
  unfold check_passes. destruct deadline as [end_time|].
  - by intros (t & -> & _).
  - by intros ->.
Qed.

(** The buffers of complete rounds hold what was picked, in order. *)
Lemma rounds_picked self deadline out err d out' err' :
  rounds self deadline out err d out' err' ->
  out' = out ++ picked STDOUT d /\ err' = err ++ picked STDERR d.
Proof.
  induction 1 as [out err|out err test eg en og on clk d out' err' Ht Hc _ [IHo IHe]].
  - by rewrite !app_nil_r.
  - rewrite !picked_app, !picked_drained.
    rewrite !(picked_test _ test), !(picked_check _ deadline clk) by done.
    cbn [app]. rewrite IHo, IHe. by rewrite <- !app_assoc.
Qed.

(** Every deadline check of complete rounds found time left. *)
Lemma rounds_clock self end_time out err d out' err' :
  rounds self (Some end_time) out err d out' err' ->
  Forall (fun t => (0 < end_time - t)%Z) (clock_readings d).
Proof.
  induction 1 as [out err|out err test eg en og on clk d out' err' Ht Hc _ IH].
  - constructor.
  - rewrite !clock_readings_app, clock_readings_drained.
    rewrite (clock_readings_test test) by done. cbn [app].
    destruct Hc as (t & -> & Hlt). by constructor.
Qed.

(** Without a deadline the clock is not read. *)
Lemma rounds_no_clock self out err d out' err' :
  rounds self None out err d out' err' -> clock_readings d = [].
Proof.
  induction 1 as [out err|out err test eg en og on clk d out' err' Ht Hc _ IH].
  - done.
  - rewrite !clock_readings_app, clock_readings_drained.
    rewrite (clock_readings_test test) by done. cbn in Hc. by rewrite Hc, IH.
Qed.

Lemma rounds_snoc self deadline out err d out' err' test eg en og on clk :
  rounds self deadline out err d out' err' ->
  test_passes test -> check_passes deadline clk ->
  rounds self deadline out err (d ++ test ++ drained self eg en og on ++ clk)
    (out' ++ og) (err' ++ eg).
Proof.
  induction 1 as [out err|out err test' eg' en' og' on' clk' d out' err' Ht Hc _ IH];
    intros Htest Hclk.
  - cbn [app]. rewrite <- (app_nil_r clk), !app_assoc, <- !app_assoc.
    apply rounds_more; [done..|]. constructor.
  - rewrite <- !app_assoc. apply rounds_more; [done..|]. by apply IH.
Qed.

(** What a run of the [while] amounts to, by the way it ends. *)
Lemma wait_loop_run fuel timeout end_time out err self w :
  exists r w' d,
    wait_loop fuel timeout end_time out err (self, w) = (r, (self, w'))
    /\ moves d w w'
    /\ loop_shape self timeout end_time out err r d w'.
Proof.
  revert out err w. induction fuel as [|fuel IH]; intros out err w.
  - exists Spinning, w, []. split; [reflexivity|]. split; [apply moves_refl|].
    exists out, err. constructor.
  - destruct (round_cases lookup_codec chardet_detect fuel timeout end_time
                out err self w)
      as [w' E Hm Hp Hc|msg d w' E Hm Hcl Hp|e d w' E Hm Hc
         |test eg en og on clk w1 E Ht Hc Hm
         |test eg en og on t tmo k w' E Ho Htr Ht Hl Hk Hm].
    + exists (Return (out, err)), w', [Backlog false; Living false].
      split; [exact E|]. split; [exact Hm|].
      exists []. split; [done|]. split; [constructor|]. by split.
    + exists (Raise (AssertionError msg)), w', d.
      split; [exact E|]. split; [exact Hm|]. split; [exact Hp|].
      exists [], d, out, err. split; [done|]. split; [constructor|done].
    + exists (Raise (ReadError e)), w', d. split; [exact E|]. split; [exact Hm|].
      exists [], d, out, err. split; [done|]. split; [constructor|done].
    + destruct (IH (out ++ og) (err ++ eg) w1) as (r & w' & d & E' & Hm' & Hr).
      exists r, w', ((test ++ drained self eg en og on ++ clk) ++ d).
      split; [by rewrite E|]. split; [by eapply moves_trans|].
      unfold loop_shape in *.
      destruct r as [[o e]|[msg|c tmo o e|e]|].
      * destruct Hr as (d1 & -> & Hr & Hp & Hc').
        exists ((test ++ drained self eg en og on ++ clk) ++ d1).
        split; [by rewrite <- !app_assoc|]. split; [|by split].
        rewrite <- !app_assoc. by apply rounds_more.
      * destruct Hr as (Hp & d1 & d2 & o & e' & -> & Hr & Hcl).
        split; [exact Hp|].
        exists ((test ++ drained self eg en og on ++ clk) ++ d1), d2, o, e'.
        split; [by rewrite <- !app_assoc|]. split; [|done].
        rewrite <- !app_assoc. by apply rounds_more.
      * destruct Hr as (-> & Ho & Htr & d1 & o1 & e1 & test' & eg' & en' & og' & on'
                        & t & k & -> & Hr & Ht' & -> & -> & Hl & Hk).
        split; [done|]. split; [done|]. split; [done|].
        exists ((test ++ drained self eg en og on ++ clk) ++ d1), o1, e1,
               test', eg', en', og', on', t, k.
        split; [by rewrite <- !app_assoc|]. split; [|done].
        rewrite <- !app_assoc. by apply rounds_more.
      * destruct Hr as (d1 & d2 & o & e' & -> & Hr & Hcl).
        exists ((test ++ drained self eg en og on ++ clk) ++ d1), d2, o, e'.
        split; [by rewrite <- !app_assoc|]. split; [|done].
        rewrite <- !app_assoc. by apply rounds_more.
      * destruct Hr as (o & e & Hr). exists o, e.
        rewrite <- !app_assoc. by apply rounds_more.
    + exists (Raise (TimeoutError (cmd self) tmo (out ++ og) (err ++ eg))), w',
             (test ++ drained self eg en og on ++ [Clock t] ++ k).
      split; [exact E|]. split; [exact Hm|].
      split; [done|]. split; [done|]. split; [done|].
      exists [], out, err, test, eg, en, og, on, t, k.
      split; [done|]. split; [constructor|done].
Qed.

(** [clean] on a process that has exited. *)
Lemma clean_after_exit delete_output_file self w pid rc :
  _popen self = Some pid -> child w = Some (Exited rc) ->
  exists w', clean delete_output_file (self, w) = (Return tt, (cleaned self, w'))
    /\ journal w' = journal w ++ [Living false]
    /\ child w' = Some (Exited rc).
Proof.
  intros Hp Hc.
  assert (C : child (tick w) = Some (Exited rc)) by by apply (tick_moves w).
  unfold clean, kill, is_living. run_simpl.
  do 4 (rewrite ?Hp, ?C; run_simpl). unfold cleaned.
  destruct (_stdout_manager self), (_stderr_manager self); run_simpl;
    (eexists; split; [reflexivity|]; split; world_simpl;
     [by rewrite (proj1 (tick_moves w)), app_nil_r|exact C]).
Qed.

(** [_wait]: the clock reading that sets the deadline, the loop, and
    for a loop that ends by itself the return code and [clean]. *)
Lemma wait_run fuel timeout del_tmpfile self w :
  exists pre w0 end_time r w1 d,
    moves pre w w0
    /\ (if truthy timeout
        then exists t0, pre = [Clock t0] /\ end_time = (t0 + default 0 timeout)%Z
        else pre = [])
    /\ wait_loop fuel timeout end_time [] [] (self, w0) = (r, (self, w1))
    /\ moves d w0 w1
    /\ loop_shape self timeout end_time [] [] r d w1
    /\ match r with
       | Return (o, e) =>
           exists rc w2,
             _wait fuel timeout del_tmpfile (self, w)
               = (Return {| returncode := Some rc; stdout := o; stderr := e |},
                  (cleaned self, w2))
             /\ journal w2 = journal w1 ++ [Living false]
             /\ child w2 = Some (Exited rc)
       | Raise ex => _wait fuel timeout del_tmpfile (self, w) = (Raise ex, (self, w1))
       | Spinning => _wait fuel timeout del_tmpfile (self, w) = (Spinning, (self, w1))
       end.
Proof.
  assert (PRE : exists pre w0 end_time,
    moves pre w w0
    /\ (if truthy timeout
        then exists t0, pre = [Clock t0] /\ end_time = (t0 + default 0 timeout)%Z
        else pre = [])
    /\ (if truthy timeout
        then t ← monotonic; mret (t + default 0%Z timeout)%Z
        else mret 0%Z) (self, w) = (Return end_time, (self, w0))).
  { destruct (truthy timeout).
    - destruct (monotonic_run self w) as (t0 & w0 & E0 & Hm0).
      exists [Clock t0], w0, (t0 + default 0 timeout)%Z.
      split; [exact Hm0|]. split; [by exists t0|].
      by rewrite bind_run, E0.
    - exists [], w, 0%Z. split; [apply moves_refl|]. by split. }
  destruct PRE as (pre & w0 & end_time & Hm0 & Hpre & E0).
  destruct (wait_loop_run fuel timeout end_time [] [] self w0)
    as (r & w1 & d & E1 & Hm1 & Hr).
  exists pre, w0, end_time, r, w1, d.
  split; [exact Hm0|]. split; [exact Hpre|]. split; [exact E1|].
  split; [exact Hm1|]. split; [exact Hr|].
  unfold Proc._wait. rewrite bind_run, E0. rewrite bind_run.
  fold (wait_loop fuel timeout end_time [] []). rewrite E1.
  destruct r as [[o e]|ex|]; [|reflexivity..].
  destruct Hr as (d1 & -> & Hrounds & Hp & rc & Hc).
  destruct Hp as [pid Hp].
  assert (C2 : child (tick w1) = Some (Exited rc)).
  { by apply (tick_moves w1). }
  destruct (clean_after_exit del_tmpfile self (tick w1) pid rc Hp C2)
    as (w2 & E2 & J2 & Hc2).
  exists rc, w2. split; [|split; [|exact Hc2]].
  - cbv beta iota. rewrite bind_run. unfold get_returncode at 1. run_simpl.
    rewrite Hp. run_simpl. rewrite C2. by rewrite E2.
  - rewrite J2. by rewrite (proj1 (tick_moves w1)), app_nil_r.
Qed.

End LoopFacts.

(* ===================================================================== *)
(** ** The controller: the wait loop *)
(* ===================================================================== *)

Section WaitClaims.

Variable lookup_codec : string -> option Codec.
Variable chardet_detect : bytes -> option string.

Abbreviation wait_loop := (wait_loop lookup_codec chardet_detect).
Abbreviation _wait := (_wait lookup_codec chardet_detect).

Lemma no_reading_elapsed (end_time : Z) (ts : list Z) :
  Forall (fun t => (0 < end_time - t)%Z) ts ->
  Exists (fun t => (end_time - t <= 0)%Z) ts -> False.
Proof.
  intros Hf Hex. apply Exists_exists in Hex as (t & Hin & Hle).
  rewrite Forall_forall in Hf. specialize (Hf t Hin). lia.
Qed.

Lemma clock_readings_exit d :
  clock_readings (d ++ [Backlog false; Living false]) = clock_readings d.
Proof. rewrite clock_readings_app. cbn. apply app_nil_r. Qed.



End WaitClaims.

Section DeadlineOff.

Variable lookup_codec : string -> option Codec.
Variable chardet_detect : bytes -> option string.

Abbreviation wait_loop := (wait_loop lookup_codec chardet_detect).
Abbreviation _wait := (_wait lookup_codec chardet_detect).

Lemma bind_ext {A B} (c : M A) (f g : A -> M B) s :
  (forall a s', f a s' = g a s') -> (c ≫= f) s = (c ≫= g) s.
Proof.
  intros H. rewrite !bind_run. destruct (c s) as [[a|e|] s1]; [apply H|done..].
Qed.

(** A timeout that fails the [if timeout:] test is no timeout. *)
Lemma wait_loop_falsy fuel timeout end_time end_time' out err s :
  truthy timeout = false ->
  wait_loop fuel timeout end_time out err s = wait_loop fuel None end_time' out err s.
Proof.
  intros T. revert out err s. induction fuel as [|fuel IH]; intros out err s; [done|].
  rewrite !wait_loop_S.
  apply bind_ext; intros remain s1. apply bind_ext; intros go s2.
  destruct go; [|done].
  apply bind_ext; intros [eg en] s3. apply bind_ext; intros [] s4.
  apply bind_ext; intros err' s5.
  apply bind_ext; intros [og on] s6. apply bind_ext; intros [] s7.
  apply bind_ext; intros out' s8.
  rewrite T. cbn [truthy]. apply IH.
Qed.

(** C9. [_wait] with [timeout = 0] is [_wait] without a timeout: for
    every amount of fuel and every world the two calls end the same
    way in the same state. It never raises [TimeoutError], and the
    journal of the call holds no clock reading: neither the deadline
    is computed nor the check of a round is made. *)
Theorem wait_zero_timeout_is_no_timeout (fuel : nat) (del_tmpfile : bool)
    (self : PopenProcMgr) (w : World) :
  _wait fuel (Some 0%Z) del_tmpfile (self, w) = _wait fuel None del_tmpfile (self, w)
  /\ (forall c t o e,
        fst (_wait fuel (Some 0%Z) del_tmpfile (self, w))
          <> Raise (TimeoutError c t o e))
  /\ exists delta,
       journal (snd (snd (_wait fuel (Some 0%Z) del_tmpfile (self, w))))
         = journal w ++ delta
       /\ clock_readings delta = [].
Proof.
  split; [|split].
  - unfold Proc._wait. cbn [truthy Z.eqb negb].
    apply bind_ext; intros end_time s1.
    rewrite !bind_run.
    fold (wait_loop fuel (Some 0%Z) end_time [] []).
    fold (wait_loop fuel None end_time [] []).
    by rewrite (wait_loop_falsy fuel (Some 0%Z) end_time end_time).
  - intros c t o e.
    destruct (wait_run lookup_codec chardet_detect fuel (Some 0%Z) del_tmpfile self w)
      as (pre & w0 & end_time & r & w1 & d & Hm0 & Hpre & E1 & Hm1 & Hr & Hw).
    destruct r as [[o' e']|[msg|c' t' o' e'|ex]|].
    + destruct Hw as (rc & w2 & -> & _). done.
    + by rewrite Hw.
    + by destruct Hr as (_ & _ & Htr & _).
    + by rewrite Hw.
    + by rewrite Hw.
  - destruct (wait_run lookup_codec chardet_detect fuel (Some 0%Z) del_tmpfile self w)
      as (pre & w0 & end_time & r & w1 & d & Hm0 & Hpre & E1 & Hm1 & Hr & Hw).
    cbn [truthy Z.eqb negb] in Hpre. subst pre.
    unfold loop_shape, deadline_of in Hr. cbn [truthy Z.eqb negb] in Hr.
    destruct r as [[o' e']|[msg|c' t' o' e'|ex]|].
    + destruct Hw as (rc & w2 & -> & J2 & _). cbn [fst snd].
      destruct Hr as (d1 & -> & Hrounds & _).
      exists ((d1 ++ [Backlog false; Living false]) ++ [Living false]).
      split.
      * rewrite J2, (proj1 Hm1), (proj1 Hm0). by rewrite app_nil_r, <- !app_assoc.
      * rewrite clock_readings_app, clock_readings_exit.
        by rewrite (rounds_no_clock _ _ _ _ _ _ Hrounds).
    + rewrite Hw. cbn [fst snd].
      destruct Hr as (_ & d1 & d2 & o & e & -> & Hrounds & Hcl).
      exists (d1 ++ d2). split.
      * rewrite (proj1 Hm1), (proj1 Hm0). by rewrite app_nil_r.
      * rewrite clock_readings_app, Hcl by done.
        by rewrite (rounds_no_clock _ _ _ _ _ _ Hrounds).
    + by destruct Hr as (_ & _ & Htr & _).
    + rewrite Hw. cbn [fst snd].
      destruct Hr as (d1 & d2 & o & e & -> & Hrounds & Hcl).
      exists (d1 ++ d2). split.
      * rewrite (proj1 Hm1), (proj1 Hm0). by rewrite app_nil_r.
      * by rewrite clock_readings_app, Hcl, (rounds_no_clock _ _ _ _ _ _ Hrounds).
    + rewrite Hw. cbn [fst snd]. destruct Hr as (o & e & Hrounds).
      exists d. split.
      * rewrite (proj1 Hm1), (proj1 Hm0). by rewrite app_nil_r.
      * by rewrite (rounds_no_clock _ _ _ _ _ _ Hrounds).
Qed.

End DeadlineOff.

(* ===================================================================== *)
(** ** The controller: picking lines *)
(* ===================================================================== *)

Section PickClaims.

Variable lookup_codec : string -> option Codec.
Variable chardet_detect : bytes -> option string.

Abbreviation pick_stdout := (pick_stdout lookup_codec chardet_detect).
Abbreviation pick_stderr := (pick_stderr lookup_codec chardet_detect).
Abbreviation _wait := (_wait lookup_codec chardet_detect).

Lemma setup_keeps_unbound self w :
  uncollected_unbound self ->
  uncollected_unbound (fst (snd (_setup_output_manager (self, w)))).
Proof.
  intros [Ho He]. unfold _setup_output_manager, allocate. run_simpl.
  destruct (_stdout_collect_option self) eqn:Co,
           (_stderr_collect_option self) eqn:Ce,
           (_merget_option self) eqn:Cm;
    run_simpl; split; cbn; intros H; try congruence; auto.
Qed.

(** [__init__] leaves no manager for a stream that is not collected. *)
Lemma init_unbound exe args co ce merge so se label s :
  uncollected_unbound
    (fst (snd (__init__ exe args co ce merge so se label s))).
Proof.
  unfold __init__, _setup_output_manager, allocate. run_simpl.
  destruct co, ce, merge; run_simpl; split; cbn; intros H; congruence.
Qed.

(** [start] keeps it so. *)
Lemma start_keeps_unbound pid stdin_file self w :
  uncollected_unbound self ->
  uncollected_unbound (fst (snd (start pid stdin_file (self, w)))).
Proof.
  intros H. unfold start. rewrite bind_run. cbn [get_self fst snd].
  destruct (_popen self); [exact H|].
  rewrite bind_run.
  pose proof (setup_keeps_unbound self w H) as H'.
  destruct (_setup_output_manager (self, w)) as [[[]|e|] [self1 w1]] eqn:E;
    cbn [fst snd] in *; [|exact H'..].
  run_simpl. destruct (_call_back self1); run_simpl; exact H'.
Qed.

(** [clean] keeps it so. *)
Lemma clean_keeps_unbound delete_output_file self w :
  uncollected_unbound self ->
  uncollected_unbound (fst (snd (clean delete_output_file (self, w)))).
Proof.
  intros H. unfold clean. rewrite bind_run. cbn [get_self fst snd].
  pose proof (kill_run self w) as HK.
  destruct (_popen self) as [pid|]; [|exact H].
  destruct HK as (r & k & w' & E & _). rewrite bind_run, E.
  destruct (_stdout_manager self), (_stderr_manager self); run_simpl; by split.
Qed.

(** [_wait] keeps it so. *)
Lemma wait_keeps_unbound fuel timeout del_tmpfile self w :
  uncollected_unbound self ->
  uncollected_unbound (fst (snd (_wait fuel timeout del_tmpfile (self, w)))).
Proof.
  intros H.
  destruct (wait_run lookup_codec chardet_detect fuel timeout del_tmpfile self w)
    as (pre & w0 & end_time & r & w1 & d & _ & _ & _ & _ & _ & Hw).
  destruct r as [[o e]|ex|].
  - destruct Hw as (rc & w2 & -> & _). by split.
  - by rewrite Hw.
  - by rewrite Hw.
Qed.

(** C8. In every state of the controller and of the world:
    [pick_stdout] returns [([], 0)] and changes nothing when no stdout
    manager is bound, and [pick_stderr] does when no stderr manager is
    bound or the merge option is on, with any arguments and whatever
    the files hold. No manager is bound for a stream whose collect
    option is off: [__init__] sets the controller up that way and
    [start], [_wait] and [clean] keep it that way. *)
Theorem pick_without_capture_is_empty (n k : Z) (strict_decode_mode : bool)
    (self : PopenProcMgr) (w : World) :
  (_stdout_manager self = None ->
     pick_stdout n k strict_decode_mode (self, w) = (Return ([], 0), (self, w)))
  /\ (_stderr_manager self = None \/ _merget_option self = true ->
        pick_stderr n k strict_decode_mode (self, w) = (Return ([], 0), (self, w)))
  /\ (uncollected_unbound self ->
        (_stdout_collect_option self = false ->
           pick_stdout n k strict_decode_mode (self, w) = (Return ([], 0), (self, w)))
        /\ (_stderr_collect_option self = false ->
              pick_stderr n k strict_decode_mode (self, w)
                = (Return ([], 0), (self, w)))).
Proof.
  assert (Ho : _stdout_manager self = None ->
    pick_stdout n k strict_decode_mode (self, w) = (Return ([], 0), (self, w))).
  { intros H. unfold Proc.pick_stdout. run_simpl. by rewrite H. }
  assert (He : _stderr_manager self = None \/ _merget_option self = true ->
    pick_stderr n k strict_decode_mode (self, w) = (Return ([], 0), (self, w))).
  { intros H. unfold Proc.pick_stderr. run_simpl.
    destruct (_merget_option self); [done|].
    destruct H as [H|H]; [by rewrite H|done]. }
  split; [exact Ho|]. split; [exact He|].
  intros [Uo Ue]. split; intros H; [apply Ho|apply He; left]; auto.
Qed.

End PickClaims.

(** C8, witness: a controller built without stdout collection, and one
    built with the merge option, after the child has written to both
    streams. *)
Lemma pick_without_capture_is_empty_witness :
  pick_stdout small_registry (toy_detect false) (-1) (-1) false
    (constructed false true false)
    = (Return ([], 0), constructed false true false)
  /\ pick_stderr small_registry (toy_detect false) (-1) (-1) false
       (fst (started true true true quick_child),
        tick (snd (started true true true quick_child)))
     = (Return ([], 0),
        (fst (started true true true quick_child),
         tick (snd (started true true true quick_child)))).
Proof.
  split.
  - destruct (pick_without_capture_is_empty small_registry (toy_detect false)
                (-1) (-1) false (fst (constructed false true false))
                (snd (constructed false true false))) as (_ & _ & H).
    destruct H as (H & _).
    { apply (init_unbound "/bin/bash" ["-c"; "job"]%string false true false
               BUFFER BUFFER "tmp" (blank, quiet true [])). }
    apply H. reflexivity.
  - destruct (pick_without_capture_is_empty small_registry (toy_detect false)
                (-1) (-1) false (fst (started true true true quick_child))
                (tick (snd (started true true true quick_child)))) as (_ & H & _).
    apply H. right. reflexivity.
Defined.



(* ===================================================================== *)
(** ** The controller: reading back what the child wrote *)
(* ===================================================================== *)

(** C1, on the code: a child writes the three lines [a], an empty line and [b]
    to its stdout, far below the size ceiling, and exits; [run()]
    returns two stdout lines, not three: the blank line is gone. *)
Theorem run_loses_blank_lines :
  let lines := [b_ "a"; []; b_ "b"] in
  three_lines = [[Write STDOUT (concat (map with_nl lines)); Exit 0]]
  /\ fst (ran 10 None three_lines)
     = Return {| returncode := Some 0%Z; stdout := [t_ "a"; t_ "b"]; stderr := [] |}
  /\ [t_ "a"; t_ "b"] <> map (map Byte.to_N) lines.
Proof. cbv zeta. split; [reflexivity|]. split; [vm_compute; reflexivity|discriminate]. Qed.

(** Two lines that are not blank come back, with the return code. *)
Example run_returns_plain_lines :
  fst (ran 10 None
         [[Write STDOUT (with_nl (b_ "a"))]; [Write STDOUT (with_nl (b_ "b")); Exit 0]])
  = Return {| returncode := Some 0%Z; stdout := [t_ "a"; t_ "b"]; stderr := [] |}.
Proof. vm_compute. reflexivity. Qed.

(** The same for the reader alone, for any such lines. *)
Example readlines_returns_two_plain_lines :
  readlines small_registry (toy_detect false)
    (concat (map with_nl [b_ "first"; b_ "second"])) (new_parser "f" "utf-8")
    (-1) (-1) false
  = (inr ([t_ "first"; t_ "second"], 13), seek 13 (new_parser "f" "utf-8")).
Proof.
  apply (readlines_returns_plain_lines small_registry (toy_detect false) "f" false
           [b_ "first"; b_ "second"]); [|reflexivity].
  repeat constructor; discriminate.
Qed.

(** A child that never exits keeps a [_wait] without timeout in its
    loop, whatever the fuel. *)
Example wait_without_timeout_spins :
  fst (ran 25 None slow_child) = Spinning.
Proof. vm_compute. reflexivity. Qed.


(* ===================================================================== *)
(** ** The line reader: accounting, bounds, composition *)
(* ===================================================================== *)

Section ReaderAccounting.

Variable lookup_codec : string -> option Codec.
Variable chardet_detect : bytes -> option string.

Abbreviation decode := (decode lookup_codec).
Abbreviation detect_bytes_encoding := (detect_bytes_encoding chardet_detect).
Abbreviation decode_retry := (decode_retry lookup_codec chardet_detect).
Abbreviation read_loop := (read_loop lookup_codec chardet_detect).
Abbreviation run_readlines := (run_readlines lookup_codec chardet_detect).
Abbreviation readlines := (readlines lookup_codec chardet_detect).

(** One line through the retry loop: what can change in the frame. *)
Lemma decode_retry_effect k strict_decode raw f :
  let r := decode_retry k strict_decode raw f in
  tell (self (snd r)) = tell (self f)
  /\ read_size (snd r) = read_size f
  /\ _default_encoding (self (snd r)) = _default_encoding (self f)
  /\ _file_path (self (snd r)) = _file_path (self f)
  /\ (lines (snd r) = lines f \/ exists t, lines (snd r) = lines f ++ [t])
  /\ (forall e, fst r = Some e -> lines (snd r) = lines f)
  /\ (strict_decode = false -> forall b, fst r <> Some (CustomError b))
  /\ exists evs, log (snd r) = log f ++ evs
       /\ length (decodings evs) <= k /\ length (detections evs) <= k.
Proof.
  revert f. induction k as [|k IH]; intros f.
  - cbn. repeat split; auto. exists []. by rewrite app_nil_r.
  - cbv zeta. rewrite decode_retry_S. cbv zeta. frame_simpl.
    assert (STEP : forall g,
      tell (self g) = tell (self f) -> read_size g = read_size f ->
      _default_encoding (self g) = _default_encoding (self f) ->
      _file_path (self g) = _file_path (self f) ->
      lines g = lines f ->
      log g = (log f ++ [Decode (encoding f) (errors_strategy f) raw]) ++ [Detect raw] ->
      let r := decode_retry k strict_decode raw g in
      tell (self (snd r)) = tell (self f)
      /\ read_size (snd r) = read_size f
      /\ _default_encoding (self (snd r)) = _default_encoding (self f)
      /\ _file_path (self (snd r)) = _file_path (self f)
      /\ (lines (snd r) = lines f \/ exists t, lines (snd r) = lines f ++ [t])
      /\ (forall e, fst r = Some e -> lines (snd r) = lines f)
      /\ (strict_decode = false -> forall b, fst r <> Some (CustomError b))
      /\ exists evs, log (snd r) = log f ++ evs
           /\ length (decodings evs) <= S k /\ length (detections evs) <= S k).
    { intros g Ht Hr Hd Hp Hl Hlog. cbv zeta.
      destruct (IH g) as (I1 & I2 & I3 & I4 & I5 & I6 & I7 & evs & I8 & I9 & I10).
      rewrite Hl in I5, I6. split; [congruence|]. split; [congruence|].
      split; [congruence|]. split; [congruence|]. split; [exact I5|].
      split; [exact I6|]. split; [exact I7|].
      exists ([Decode (encoding f) (errors_strategy f) raw; Detect raw] ++ evs).
      split; [by rewrite I8, Hlog, <- !app_assoc|].
      unfold decodings, detections in *. rewrite !omap_app, !length_app. cbn. lia. }
    destruct (decode raw (encoding f) (errors_strategy f)) eqn:D; frame_simpl.
    + repeat split; eauto; try done.
      exists [Decode (encoding f) (errors_strategy f) raw]. split; [done|]. cbn. lia.
    + destruct (detect_bytes_encoding raw) as [e|] eqn:O.
      * apply STEP; by frame_simpl.
      * destruct strict_decode; frame_simpl.
        -- repeat split; eauto; try done.
           exists [Decode (encoding f) (errors_strategy f) raw; Detect raw].
           split; [by rewrite <- app_assoc|]. cbn. lia.
        -- apply STEP; by frame_simpl.
    + repeat split; eauto; try done.
      exists [Decode (encoding f) (errors_strategy f) raw]. split; [done|]. cbn. lia.
Qed.

(** The whole loop: it consumes the first [k] of the pending lines. *)
Lemma read_loop_effect n m strict_decode pending f :
  let r := read_loop n m strict_decode pending f in
  exists k,
    k <= length pending
    /\ tell (self (snd r)) = tell (self f) + length (concat (take k pending))
    /\ read_size (snd r) = read_size f + length (concat (take k pending))
    /\ _default_encoding (self (snd r)) = _default_encoding (self f)
    /\ _file_path (self (snd r)) = _file_path (self f)
    /\ length (lines (snd r)) <= length (lines f) + k
    /\ ((Z.of_nat (length (lines f)) <= n)%Z ->
        (Z.of_nat (length (lines (snd r))) <= n)%Z)
    /\ (wants_more n f = false -> snd r = f)
    /\ (strict_decode = false -> forall b, fst r <> Some (CustomError b))
    /\ (fst r = None -> wants_more n (snd r) = true ->
        k = length pending
        \/ exists j raw, k = S j /\ pending !! j = Some raw /\ slice_to m raw = [])
    /\ exists evs, log (snd r) = log f ++ evs
         /\ length (decodings evs) <= 3 * k /\ length (detections evs) <= 3 * k.
Proof.
  revert f. induction pending as [|raw pending IH]; intros f; cbv zeta.
  - rewrite read_loop_nil. exists 0. cbn. rewrite !Nat.add_0_r.
    split_and!; auto; try lia. exists []. by rewrite app_nil_r.
  - rewrite read_loop_cons. cbv zeta.
    destruct (wants_more n f) eqn:W.
    2:{ exists 0. cbn. rewrite !Nat.add_0_r.
        split_and!; auto; try lia; try congruence.
        exists []. by rewrite app_nil_r. }
    assert (Hn : (Z.of_nat (length (lines f)) <= n)%Z ->
                 (Z.of_nat (length (lines f)) < n)%Z).
    { intros H. unfold wants_more in W. apply orb_prop in W as [W|W].
      - apply Z.eqb_eq in W. lia.
      - by apply Z.ltb_lt in W. }
    destruct (length (slice_to m raw) =? 0) eqn:E.
    + exists 1. cbn [take concat length]. rewrite app_nil_r. frame_simpl.
      split_and!; auto; try lia; try congruence.
      * intros _ _. right. exists 0, raw. split_and!; try done.
        apply Nat.eqb_eq in E. by destruct (slice_to m raw).
      * exists []. split; [by rewrite app_nil_r|]. cbn. lia.
    + pose proof (decode_retry_effect 3 strict_decode
                    (slice_to m raw) (advance (length raw) f))
        as (D1 & D2 & D3 & D4 & D5 & D6 & D7 & evs & D8 & D9 & D10).
      destruct (decode_retry 3 strict_decode (slice_to m raw)
                  (advance (length raw) f)) as [[e|] f1] eqn:R;
        cbn [fst snd] in *; frame_simpl.
      * exists 1. cbn [take concat length]. rewrite app_nil_r.
        rewrite (D6 e eq_refl).
        split_and!; auto; try lia; try congruence.
        exists evs. split; [done|]. lia.
      * destruct (IH f1) as (k & K1 & K2 & K3 & K4 & K5 & K6 & K7 & K8 & K9 & K10
                             & evs' & K11 & K12 & K13).
        exists (S k). cbn [take concat length]. rewrite length_app.
        assert (L1 : length (lines f1) <= S (length (lines f))).
        { destruct D5 as [->|(t & ->)]; [lia|]. rewrite length_app. cbn. lia. }
        split; [lia|]. split; [lia|]. split; [lia|]. split; [congruence|].
        split; [congruence|]. split; [lia|]. split; [|split; [congruence|]].
        { intros H. apply K7. specialize (Hn H). lia. }
        split; [exact K9|]. split.
        { intros H1 H2. destruct (K10 H1 H2) as [->|(j & raw' & -> & Hj & Hs)].
          - by left.
          - right. exists (S j), raw'. by split_and!. }
        exists (evs ++ evs'). split; [by rewrite K11, D8, app_assoc|].
        unfold decodings, detections in *. rewrite !omap_app, !length_app. lia.
Qed.

Lemma read_loop_no_more n m strict_decode pending f :
  wants_more n f = false -> read_loop n m strict_decode pending f = (None, f).
Proof.
  intros W. destruct pending; [apply read_loop_nil|]. by rewrite read_loop_cons, W.
Qed.

Lemma concat_take_length {A} (k : nat) (l : list (list A)) :
  length (concat (take k l)) <= length (concat l).
Proof.
  revert k. induction l as [|x l IH]; intros [|k]; cbn; try lia.
  rewrite !length_app. specialize (IH k). lia.
Qed.

Lemma unread_length (file : bytes) (pos : nat) :
  length (concat (file_lines (skipn pos file))) = length file - pos.
Proof. by rewrite file_lines_concat, length_skipn. Qed.

(** What a call does to the cursor. *)
Lemma readlines_size_is_cursor_advance_facts (file : bytes) (p : TextFileParser)
    (n m : Z) (strict_decode : bool) :
  let r := readlines file p n m strict_decode in
  (exists k, tell (snd r)
             = tell p + length (concat (take k (file_lines (skipn (tell p) file)))))
  /\ tell p <= tell (snd r)
  /\ tell (snd r) <= Nat.max (tell p) (length file)
  /\ _default_encoding (snd r) = _default_encoding p
  /\ _file_path (snd r) = _file_path p
  /\ forall got size, fst r = inr (got, size) -> tell (snd r) = tell p + size.
Proof.
  cbv zeta. unfold Text.readlines, Text.run_readlines.
  destruct (read_loop_effect n m strict_decode (file_lines (skipn (tell p) file))
              (enter p)) as (k & K1 & K2 & K3 & K4 & K5 & _).
  pose proof (concat_take_length k (file_lines (skipn (tell p) file))) as L.
  rewrite unread_length in L.
  destruct (read_loop n m strict_decode (file_lines (skipn (tell p) file)) (enter p))
    as [[e|] f]; cbn [fst snd] in *; frame_simpl; unfold bytes in *.
  - split; [by exists k|]. split_and!; try done; lia.
  - split; [by exists k|]. split_and!; try done; try lia.
    intros got size [= <- <-]. lia.
Qed.

(** X1. [readlines] returns as its size exactly the distance the cursor
    has moved; the cursor moves forward only, by whole raw lines, and a
    cursor inside the file stays inside it; the path and the default
    encoding of the reader do not change. *)
Theorem readlines_size_is_cursor_advance (file : bytes) (p : TextFileParser)
    (n m : Z) (strict_decode : bool) :
  let r := readlines file p n m strict_decode in
  (exists k, tell (snd r)
             = tell p + length (concat (take k (file_lines (skipn (tell p) file)))))
  /\ tell p <= tell (snd r)
  /\ tell (snd r) <= Nat.max (tell p) (length file)
  /\ _default_encoding (snd r) = _default_encoding p
  /\ _file_path (snd r) = _file_path p
  /\ forall got size, fst r = inr (got, size) -> tell (snd r) = tell p + size.
Proof. apply readlines_size_is_cursor_advance_facts. Qed.

(** X2. A non-negative [line_num] bounds the number of lines returned;
    with [line_num = 0], or any negative value other than the [-1] that
    stands for no limit, nothing is read and the reader is left as it
    was. *)
Theorem readlines_respects_line_num (file : bytes) (p : TextFileParser)
    (n m : Z) (strict_decode : bool) :
  (forall got size,
     (0 <= n)%Z ->
     fst (readlines file p n m strict_decode) = inr (got, size) ->
     (Z.of_nat (length got) <= n)%Z)
  /\ ((n <= 0)%Z -> n <> (-1)%Z ->
      readlines file p n m strict_decode = (inr ([], 0), p)).
Proof.
  split.
  - intros got size Hn. unfold Text.readlines, Text.run_readlines.
    destruct (read_loop_effect n m strict_decode (file_lines (skipn (tell p) file))
                (enter p)) as (k & _ & _ & _ & _ & _ & _ & K7 & _).
    destruct (read_loop n m strict_decode (file_lines (skipn (tell p) file)) (enter p))
      as [[e|] f]; cbn [fst snd] in *; [done|].
    intros [= <- <-]. apply K7. frame_simpl. cbn. lia.
  - intros Hn Hne. unfold Text.readlines, Text.run_readlines.
    rewrite read_loop_no_more; [by destruct p|].
    unfold wants_more. frame_simpl. cbn [length].
    destruct (Z.eqb_spec n (-1)); [done|].
    destruct (Z.ltb_spec (Z.of_nat 0) n); [lia|done].
Qed.

(** X3. A call makes at most three [decode] calls and at most three
    oracle calls per raw line it can read. *)
Theorem readlines_retries_are_bounded (file : bytes) (p : TextFileParser)
    (n m : Z) (strict_decode : bool) :
  let f := snd (run_readlines file p n m strict_decode) in
  length (decodings (log f)) <= 3 * length (file_lines (skipn (tell p) file))
  /\ length (detections (log f)) <= 3 * length (file_lines (skipn (tell p) file)).
Proof.
  cbv zeta. unfold Text.run_readlines.
  destruct (read_loop_effect n m strict_decode (file_lines (skipn (tell p) file))
              (enter p)) as (k & K1 & _ & _ & _ & _ & _ & _ & _ & _ & _
                             & evs & K11 & K12 & K13).
  rewrite K11. frame_simpl. cbn [app]. lia.
Qed.

(** X7. A call with [line_num = -1] that returns has stopped either at
    the end of the file or right behind a raw line whose cut
    [raw_line[:max_len_one_line]] is empty. *)
Theorem readlines_stops_at_end_or_empty_cut (file : bytes) (p : TextFileParser)
    (m : Z) (strict_decode : bool) (got : list text) (size : nat) :
  fst (readlines file p (-1) m strict_decode) = inr (got, size) ->
  let p' := snd (readlines file p (-1) m strict_decode) in
  reach_end file p' = true
  \/ exists j raw,
       file_lines (skipn (tell p) file) !! j = Some raw
       /\ slice_to m raw = []
       /\ tell p' = tell p + length (concat (take (S j) (file_lines (skipn (tell p) file)))).
Proof.
  unfold Text.readlines, Text.run_readlines. cbv zeta.
  destruct (read_loop_effect (-1) m strict_decode (file_lines (skipn (tell p) file))
              (enter p)) as (k & K1 & K2 & _ & _ & _ & _ & _ & _ & _ & K10 & _).
  destruct (read_loop (-1) m strict_decode (file_lines (skipn (tell p) file)) (enter p))
    as [[e|] f]; cbn [fst snd] in *; [done|].
  intros _. destruct (K10 eq_refl eq_refl) as [->|(j & raw & -> & Hj & Hs)].
  - left. unfold reach_end. apply Nat.leb_le. rewrite K2. frame_simpl.
    rewrite firstn_all, unread_length. lia.
  - right. exists j, raw. by frame_simpl.
Qed.

End ReaderAccounting.

(** X2, witness: three lines, at most two wanted; and none wanted. *)
Lemma readlines_respects_line_num_witness :
  (Z.of_nat (length [t_ "a"; t_ "b"]) <= 2)%Z
  /\ readlines small_registry (toy_detect false)
       (with_nl (b_ "a") ++ with_nl (b_ "b") ++ with_nl (b_ "c"))
       (new_parser "f" "utf-8") 0 (-1) false
     = (inr ([], 0), new_parser "f" "utf-8").
Proof.
  destruct (readlines_respects_line_num small_registry (toy_detect false)
              (with_nl (b_ "a") ++ with_nl (b_ "b") ++ with_nl (b_ "c"))
              (new_parser "f" "utf-8") 2 (-1) false) as (H1 & _).
  destruct (readlines_respects_line_num small_registry (toy_detect false)
              (with_nl (b_ "a") ++ with_nl (b_ "b") ++ with_nl (b_ "c"))
              (new_parser "f" "utf-8") 0 (-1) false) as (_ & H2).
  split.
  - apply (H1 [t_ "a"; t_ "b"] 4); [lia|reflexivity].
  - apply H2; [lia|discriminate].
Defined.

(** X7, witness: a blank line in the middle of a file. *)
Lemma readlines_stops_at_end_or_empty_cut_witness :
  let file := with_nl (b_ "a") ++ with_nl [] ++ with_nl (b_ "b") in
  let p' := snd (readlines small_registry (toy_detect false) file
                   (new_parser "f" "utf-8") (-1) (-1) false) in
  reach_end file p' = true
  \/ exists j raw,
       file_lines (skipn 0 file) !! j = Some raw
       /\ slice_to (-1) raw = []
       /\ tell p' = 0 + length (concat (take (S j) (file_lines (skipn 0 file)))).
Proof.
  apply (readlines_stops_at_end_or_empty_cut small_registry (toy_detect false)
           (with_nl (b_ "a") ++ with_nl [] ++ with_nl (b_ "b"))
           (new_parser "f" "utf-8") (-1) false [t_ "a"] 3).
  reflexivity.
Defined.


Section ReaderTotality.

Variable lookup_codec : string -> option Codec.
Variable chardet_detect : bytes -> option string.

Abbreviation decode := (decode lookup_codec).
Abbreviation detect_bytes_encoding := (detect_bytes_encoding chardet_detect).
Abbreviation decode_retry := (decode_retry lookup_codec chardet_detect).
Abbreviation read_loop := (read_loop lookup_codec chardet_detect).
Abbreviation run_readlines := (run_readlines lookup_codec chardet_detect).
Abbreviation readlines := (readlines lookup_codec chardet_detect).

(** Every name the oracle can answer has a codec. *)
Hypothesis oracle_known :
  forall raw e, detect_bytes_encoding raw = Some e -> is_Some (lookup_codec e).

Lemma decode_retry_known k raw f :
  is_Some (lookup_codec (encoding f)) ->
  fst (decode_retry k false raw f) = None
  /\ is_Some (lookup_codec (encoding (snd (decode_retry k false raw f)))).
Proof.
  revert f. induction k as [|k IH]; intros f Hc; [done|].
  rewrite decode_retry_S. cbv zeta. frame_simpl.
  destruct (decode raw (encoding f) (errors_strategy f)) eqn:D; frame_simpl.
  - done.
  - destruct (detect_bytes_encoding raw) as [e|] eqn:O.
    + apply IH. frame_simpl. by eapply oracle_known.
    + apply IH. by frame_simpl.
  - unfold Text.decode in D. destruct Hc as [c Hc]. rewrite Hc in D.
    destruct (errors_strategy f); [by destruct (decode_strict c raw)|done].
Qed.

Lemma read_loop_known n m pending f :
  is_Some (lookup_codec (encoding f)) ->
  fst (read_loop n m false pending f) = None.
Proof.
  revert f. induction pending as [|raw pending IH]; intros f Hc.
  - by rewrite read_loop_nil.
  - rewrite read_loop_cons. cbv zeta.
    destruct (wants_more n f); [|done].
    destruct (length (slice_to m raw) =? 0); [done|].
    destruct (decode_retry_known 3 (slice_to m raw) (advance (length raw) f) Hc)
      as [H1 H2].
    destruct (decode_retry 3 false (slice_to m raw) (advance (length raw) f))
      as [[e|] f1]; cbn [fst snd] in *; [done|].
    by apply IH.
Qed.

End ReaderTotality.

Section ReaderNeverGivesUp.

Variable lookup_codec : string -> option Codec.
Variable chardet_detect : bytes -> option string.

Abbreviation detect_bytes_encoding := (detect_bytes_encoding chardet_detect).
Abbreviation read_loop := (read_loop lookup_codec chardet_detect).
Abbreviation readlines := (readlines lookup_codec chardet_detect).

(** X4. In non-strict mode [readlines] never raises its [CustomError];
    and when the interpreter has a codec for the encoding the call
    starts with and for every encoding the oracle can answer, a
    non-strict call raises nothing at all: it returns lines and a
    size, whatever bytes the file holds. *)
Theorem readlines_nonstrict_always_returns (file : bytes) (p : TextFileParser)
    (n m : Z) :
  (forall b, fst (readlines file p n m false) <> inl (CustomError b))
  /\ (is_Some (lookup_codec (encoding (enter p))) ->
      (forall raw e, detect_bytes_encoding raw = Some e -> is_Some (lookup_codec e)) ->
      exists got size, fst (readlines file p n m false) = inr (got, size)).
Proof.
  split.
  - intros b. unfold Text.readlines, Text.run_readlines.
    destruct (read_loop_effect lookup_codec chardet_detect n m false
                (file_lines (skipn (tell p) file)) (enter p))
      as (k & _ & _ & _ & _ & _ & _ & _ & _ & K9 & _).
    destruct (read_loop n m false (file_lines (skipn (tell p) file)) (enter p))
      as [[e|] f]; cbn [fst snd] in *; [|done].
    intros [= ->]. by apply (K9 eq_refl b).
  - intros Hc Ho. unfold Text.readlines, Text.run_readlines.
    pose proof (read_loop_known lookup_codec chardet_detect Ho n m
                  (file_lines (skipn (tell p) file)) (enter p) Hc) as H.
    destruct (read_loop n m false (file_lines (skipn (tell p) file)) (enter p))
      as [[e|] f]; cbn [fst snd] in *; [done|]. eauto.
Qed.

(** The oracle of the module never answers "ascii". *)
Lemma detect_never_ascii raw : detect_bytes_encoding raw <> Some "ascii"%string.
Proof.
  unfold Text.detect_bytes_encoding. destruct (chardet_detect raw) as [e|]; [|done].
  destruct (String.eqb e "utf-8" || String.eqb e "ascii") eqn:E; [done|].
  intros [= ->]. done.
Qed.

(** X8. The oracle reports ASCII as UTF-8, so "ascii" is never learned:
    a reader that does not hold "ascii" as its learned encoding does not
    hold it after any [readlines] call either; a reader whose learned
    encoding has changed holds an answer of the oracle; and the oracle
    never answers "ascii". *)
Theorem readlines_never_learns_ascii (file : bytes) (p : TextFileParser)
    (n m : Z) (strict_decode : bool) :
  let p' := snd (readlines file p n m strict_decode) in
  (_fixed_encoding p <> "ascii"%string -> _fixed_encoding p' <> "ascii"%string)
  /\ (_fixed_encoding p' = _fixed_encoding p
      \/ exists raw, detect_bytes_encoding raw = Some (_fixed_encoding p'))
  /\ forall raw, detect_bytes_encoding raw <> Some "ascii"%string.
Proof.
  cbv zeta. apply and_assoc. split; [|apply detect_never_ascii].
  pose proof (read_loop_in_step lookup_codec chardet_detect p n m strict_decode
                (file_lines (skipn (tell p) file)) (enter p)
                (in_step_enter lookup_codec chardet_detect p)) as (_ & _ & H3).
  assert (E : _fixed_encoding (snd (readlines file p n m strict_decode))
              = _fixed_encoding
                  (self (snd (read_loop n m strict_decode
                                (file_lines (skipn (tell p) file)) (enter p))))).
  { unfold Text.readlines, Text.run_readlines.
    by destruct (read_loop n m strict_decode (file_lines (skipn (tell p) file))
                   (enter p)) as [[e|] f]. }
  rewrite E, H3.
  destruct (learned chardet_detect
              (log (snd (read_loop n m strict_decode
                           (file_lines (skipn (tell p) file)) (enter p)))))
    as [e|] eqn:L.
  - apply learned_is_detected in L as (raw & Hr). split.
    + intros _ ->. by apply (detect_never_ascii raw).
    + right. by exists raw.
  - split; [done|by left].
Qed.

End ReaderNeverGivesUp.

(** X4, witness: a file that is not text, read in non-strict mode. *)
Lemma readlines_nonstrict_always_returns_witness :
  exists got size,
    fst (readlines small_registry (toy_detect true) [xff; xfe; NL; x80; x41; NL]
           (new_parser "f" "utf-8") (-1) (-1) false) = inr (got, size).
Proof.
  apply (readlines_nonstrict_always_returns small_registry (toy_detect true)
           [xff; xfe; NL; x80; x41; NL] (new_parser "f" "utf-8") (-1) (-1)).
  - by eexists.
  - intros raw e. unfold detect_bytes_encoding, toy_detect.
    destruct (forallb is_ascii raw); [intros [= <-]; by eexists|].
    destruct (true && existsb (Byte.eqb xff) raw); [|done].
    intros [= <-]. by eexists.
Defined.

(** X8, witness: a reader that has learned nothing reads a line that
    makes the oracle answer. *)
Lemma readlines_never_learns_ascii_witness :
  _fixed_encoding
    (snd (readlines small_registry (toy_detect true) [xff; x41; NL]
            (new_parser "f" "utf-8") (-1) (-1) false)) <> "ascii"%string.
Proof.
  apply (readlines_never_learns_ascii small_registry (toy_detect true)
           [xff; x41; NL] (new_parser "f" "utf-8") (-1) (-1) false).
  discriminate.
Defined.

Section ReaderSequence.

Variable lookup_codec : string -> option Codec.
Variable chardet_detect : bytes -> option string.

Abbreviation read_loop := (read_loop lookup_codec chardet_detect).
Abbreviation readlines := (readlines lookup_codec chardet_detect).

Lemma frame_eta (f : frame) :
  {| self := seek (tell (self f)) (self f);
     errors_strategy := errors_strategy f;
     encoding := encoding f;
     read_size := read_size f;
     lines := lines f;
     log := log f |} = f.
Proof. by destruct f as [[] ? ? ? ? ?]. Qed.

(** With a bound on the number of lines, the loop takes that many of
    the plain lines pending and leaves the others. *)
Lemma read_loop_plain_prefix (strict_decode : bool) (k : nat)
    (lines_written : list bytes) (f : frame) :
  Forall plain_line lines_written ->
  lookup_codec (encoding f) = Some utf8 ->
  read_loop (Z.of_nat (length (lines f) + k)) (-1) strict_decode
    (map with_nl lines_written) f
    = (None,
       {| self := seek (tell (self f)
                        + length (concat (map with_nl (take k lines_written))))
                    (self f);
          errors_strategy := errors_strategy f;
          encoding := encoding f;
          read_size := read_size f
                       + length (concat (map with_nl (take k lines_written)));
          lines := lines f ++ map (map Byte.to_N) (take k lines_written);
          log := log f ++ map (fun line => Decode (encoding f) (errors_strategy f) line)
                            (take k lines_written) |}).
Proof.
  intros H. revert k f.
  induction H as [|line rest Hl _ IH]; intros k f Hc.
  - rewrite read_loop_nil, take_nil. cbn [map concat length].
    rewrite !Nat.add_0_r, !app_nil_r. by rewrite frame_eta.
  - destruct k as [|k].
    + rewrite read_loop_no_more.
      * cbn [take map concat length]. rewrite !Nat.add_0_r, !app_nil_r.
        by rewrite frame_eta.
      * unfold wants_more. rewrite Nat.add_0_r.
        destruct (Z.eqb_spec (Z.of_nat (length (lines f))) (-1)); [lia|].
        cbn [orb]. apply Z.ltb_ge. lia.
    + pose proof (read_loop_plain_lines lookup_codec chardet_detect strict_decode
                    [line] f (Forall_cons_2 _ _ _ Hl (Forall_nil_2 _)) Hc) as ONE.
      cbn [map] in ONE |- *.
      rewrite read_loop_cons in ONE. rewrite read_loop_cons.
      assert (W : wants_more (Z.of_nat (length (lines f) + S k)) f = true).
      { unfold wants_more. apply orb_true_iff. right. apply Z.ltb_lt. lia. }
      rewrite W. unfold wants_more in ONE at 1. cbn [Z.eqb orb] in ONE.
      cbv zeta in ONE |- *.
      destruct Hl as (Hne & Ha & Hn).
      rewrite slice_to_strips_nl in ONE |- *.
      destruct line as [|b line]; [done|]. cbn [length Nat.eqb] in ONE |- *.
      destruct (decode_retry lookup_codec chardet_detect 3 strict_decode (b :: line)
                  (advance (length (with_nl (b :: line))) f)) as [[e|] f1] eqn:R;
        [done|].
      rewrite read_loop_nil in ONE. injection ONE as Hf1.
      replace (Z.of_nat (length (lines f) + S k))
        with (Z.of_nat (length (lines f1) + k))
        by (rewrite Hf1; frame_simpl; rewrite length_app; cbn [length]; lia).
      rewrite (IH k f1); [|by rewrite Hf1; frame_simpl].
      rewrite Hf1. frame_simpl. cbn [take map concat]. rewrite !app_nil_r, !length_app.
      assert (L : length (with_nl (b :: line)) = S (length line + length [NL])).
      { unfold with_nl. by rewrite length_app. }
      rewrite L. f_equal. f_equal.
      * unfold seek. cbn. f_equal. lia.
      * lia.
      * by rewrite <- !app_assoc.
      * by rewrite <- !app_assoc.
Qed.

(** X5. Reads follow one another: on a new reader over a file of
    terminated, non-blank ASCII lines, [readlines(k)] returns the first
    [k] lines and a [readlines(-1)] after it returns the remaining
    lines, none of them twice and none left out; the two sizes add up
    to the size of the file. *)
Theorem readlines_then_readlines (path : string) (s1 s2 : bool) (k : nat)
    (lines_written : list bytes) :
  Forall plain_line lines_written ->
  lookup_codec "utf-8" = Some utf8 ->
  let file := concat (map with_nl lines_written) in
  let size1 := length (concat (map with_nl (take k lines_written))) in
  let size2 := length (concat (map with_nl (drop k lines_written))) in
  let p1 := seek size1 (new_parser path "utf-8") in
  readlines file (new_parser path "utf-8") (Z.of_nat k) (-1) s1
    = (inr (map (map Byte.to_N) (take k lines_written), size1), p1)
  /\ readlines file p1 (-1) (-1) s2
     = (inr (map (map Byte.to_N) (drop k lines_written), size2),
        seek (length file) (new_parser path "utf-8"))
  /\ size1 + size2 = length file.
Proof.
  intros H Hc. cbv zeta.
  assert (SPLIT : concat (map with_nl lines_written)
                  = concat (map with_nl (take k lines_written))
                    ++ concat (map with_nl (drop k lines_written))).
  { by rewrite <- concat_app, <- map_app, take_drop. }
  assert (Hn : Forall (fun line => forallb (fun b => negb (is_nl b)) line = true)
                 lines_written).
  { eapply Forall_impl; [exact H|]. by intros line (_ & _ & Hn). }
  assert (LEN : length (concat (map with_nl lines_written))
                = length (concat (map with_nl (take k lines_written)))
                  + length (concat (map with_nl (drop k lines_written)))).
  { rewrite SPLIT at 1. by rewrite length_app. }
  split; [|split; [|by rewrite LEN]].
  - unfold Text.readlines, Text.run_readlines. cbn [tell new_parser].
    rewrite drop_0, file_lines_terminated by exact Hn.
    pose proof (read_loop_plain_prefix s1 k lines_written
                  (enter (new_parser path "utf-8")) H Hc) as E.
    cbn [enter new_parser _fixed_encoding _default_encoding lines length Nat.add] in E.
    cbn [String.eqb] in E. cbn [enter new_parser _fixed_encoding _default_encoding].
    cbn [String.eqb]. rewrite E. by frame_simpl.
  - unfold Text.readlines, Text.run_readlines. cbn [tell seek new_parser].
    assert (D : skipn (length (concat (map with_nl (take k lines_written))))
                  (concat (map with_nl lines_written))
                = concat (map with_nl (drop k lines_written))).
    { rewrite SPLIT. apply drop_app_length. }
    rewrite D, file_lines_terminated by (by apply Forall_drop).
    rewrite (read_loop_plain_lines lookup_codec chardet_detect s2
               (drop k lines_written)); [|by apply Forall_drop|exact Hc].
    frame_simpl. cbn [app Nat.add]. f_equal.
    unfold seek. cbn. f_equal. by rewrite LEN.
Qed.

End ReaderSequence.

(** X5, witness: three lines, read one and then the rest. *)
Lemma readlines_then_readlines_witness :
  readlines small_registry (toy_detect false)
    (concat (map with_nl [b_ "a"; b_ "bc"; b_ "d"])) (new_parser "f" "utf-8")
    1 (-1) false
  = (inr ([t_ "a"], 2), seek 2 (new_parser "f" "utf-8"))
  /\ readlines small_registry (toy_detect false)
       (concat (map with_nl [b_ "a"; b_ "bc"; b_ "d"]))
       (seek 2 (new_parser "f" "utf-8")) (-1) (-1) true
     = (inr ([t_ "bc"; t_ "d"], 5), seek 7 (new_parser "f" "utf-8")).
Proof.
  destruct (readlines_then_readlines small_registry (toy_detect false) "f" false true 1
              [b_ "a"; b_ "bc"; b_ "d"]) as (H1 & H2 & _).
  - repeat constructor; discriminate.
  - reflexivity.
  - split; [exact H1|exact H2].
Defined.

Section CursorMoves.

Variable lookup_codec : string -> option Codec.
Variable chardet_detect : bytes -> option string.

Abbreviation readlines := (readlines lookup_codec chardet_detect).

Lemma parser_eta (p : TextFileParser) : seek (tell p) p = p.
Proof. by destruct p. Qed.


End CursorMoves.


(* ===================================================================== *)
(** ** The stream manager over its whole life *)
(* ===================================================================== *)

Section StreamFacts.

Variable lookup_codec : string -> option Codec.
Variable chardet_detect : bytes -> option string.

Abbreviation pick_lines := (pick_lines lookup_codec chardet_detect).
Abbreviation stream_step := (stream_step lookup_codec chardet_detect).
Abbreviation after_ops := (after_ops lookup_codec chardet_detect).

Lemma pick_lines_parts m n k s :
  pick_lines m n k s
  = (fst (readlines lookup_codec chardet_detect (file m) (_stream_text_parser m) n k s),
     with_parser
       (snd (readlines lookup_codec chardet_detect (file m) (_stream_text_parser m) n k s))
       m).
Proof.
  unfold Stream.pick_lines.
  by destruct (readlines lookup_codec chardet_detect (file m) (_stream_text_parser m) n k s).
Qed.

Lemma child_write_in_file data m :
  handles_in_file m ->
  file (child_write data m) = file m ++ data
  /\ handles_in_file (child_write data m).
Proof.
  intros [W T]. unfold child_write, handles_in_file. cbn.
  rewrite W, write_at_end. split; [done|]. rewrite length_app. lia.
Qed.

Lemma file_size_monitor_in_file m :
  handles_in_file m -> handles_in_file (file_size_monitor m).
Proof.
  intros H. unfold file_size_monitor.
  destruct (beyond_limit _ _); [|done]. unfold handles_in_file. cbn.
  rewrite take_0. cbn. lia.
Qed.

Lemma pick_lines_in_file m n k s :
  handles_in_file m -> handles_in_file (snd (pick_lines m n k s)).
Proof.
  intros [W T]. rewrite pick_lines_parts. unfold handles_in_file. cbn.
  split; [done|].
  destruct (readlines_size_is_cursor_advance_facts lookup_codec chardet_detect
              (file m) (_stream_text_parser m) n k s) as (_ & _ & B & _).
  cbv zeta in B. lia.
Qed.

Lemma stream_step_in_file m op :
  handles_in_file m -> handles_in_file (stream_step m op).
Proof.
  intros H. destruct op as [data| |n k s]; cbn [StreamMore.stream_step].
  - by apply child_write_in_file.
  - destruct (monitoring m); [by apply file_size_monitor_in_file|done].
  - by apply pick_lines_in_file.
Qed.

Lemma after_ops_in_file prefix suffix max_size ops :
  handles_in_file (after_ops prefix suffix max_size ops).
Proof.
  unfold StreamMore.after_ops.
  assert (H : handles_in_file (new_manager prefix suffix max_size)) by (split; cbn; lia).
  revert H. generalize (new_manager prefix suffix max_size).
  induction ops as [|op ops IH]; intros m H; [done|].
  cbn [fold_left]. apply IH. by apply stream_step_in_file.
Qed.

Lemma unread_child_write data m :
  handles_in_file m -> unread (child_write data m) = unread m ++ data.
Proof.
  intros H. destruct (child_write_in_file data m H) as [F _].
  unfold unread. rewrite F. cbn. destruct H as [_ T].
  by rewrite drop_app_le.
Qed.

(** X9. Whatever the child, the monitor thread and the owner have done
    to a manager since it was created, in whatever order, its write
    handle stands at the end of its file and its read handle not
    behind it. So the next write of the child appends: the file and
    what is left to read both grow by exactly the bytes written, and
    the stream is at its end exactly when nothing is left to read. *)
Theorem stream_handles_stay_in_file (prefix suffix : string) (max_size : Z)
    (ops : list stream_op) :
  let m := after_ops prefix suffix max_size ops in
  write_tell m = length (file m)
  /\ tell (_stream_text_parser m) <= length (file m)
  /\ (forall data,
        file (child_write data m) = file m ++ data
        /\ unread (child_write data m) = unread m ++ data
        /\ tell (_stream_text_parser (child_write data m)) = tell (_stream_text_parser m))
  /\ (is_stream_end m = true <-> unread m = []).
Proof.
  cbv zeta. pose proof (after_ops_in_file prefix suffix max_size ops) as H.
  split; [apply H|]. split; [apply H|]. split.
  - intros data. split; [by apply child_write_in_file|].
    split; [by apply unread_child_write|done].
  - unfold is_stream_end, reach_end, unread. destruct H as [_ T].
    rewrite Nat.leb_le. split.
    + intros L. apply drop_ge. lia.
    + intros E. apply (f_equal length) in E. rewrite length_drop in E. cbn in E. lia.
Qed.


End StreamFacts.


(* ===================================================================== *)
(** ** The controller: what its methods do, as equations *)
(* ===================================================================== *)

Section MethodEquations.

Variable lookup_codec : string -> option Codec.
Variable chardet_detect : bytes -> option string.

Abbreviation pick_lines := (pick_lines lookup_codec chardet_detect).
Abbreviation picked_at := (picked_at lookup_codec chardet_detect).
Abbreviation manager_pick := (manager_pick lookup_codec chardet_detect).
Abbreviation pick_stdout := (pick_stdout lookup_codec chardet_detect).
Abbreviation pick_stderr := (pick_stderr lookup_codec chardet_detect).
Abbreviation wait_loop := (wait_loop lookup_codec chardet_detect).
Abbreviation _wait := (_wait lookup_codec chardet_detect).

Lemma tick_quiet w : script w = [] -> tick w = w.
Proof. unfold tick. by intros ->. Qed.

Lemma set_journal_same w : set_journal (journal w ++ []) w = w.
Proof. destruct w. unfold set_journal. cbn. by rewrite app_nil_r. Qed.

Lemma set_journal_twice j1 j2 w :
  set_journal (journal (set_journal (journal w ++ j1) w) ++ j2)
    (set_journal (journal w ++ j1) w)
  = set_journal (journal w ++ j1 ++ j2) w.
Proof. unfold set_journal. cbn. by rewrite app_assoc. Qed.

Lemma is_living_eq self w pid :
  _popen self = Some pid ->
  is_living (self, w)
  = (Return (living (tick w)),
     (self, set_journal (journal (tick w) ++ [Living (living (tick w))]) (tick w))).
Proof. intros P. unfold is_living. run_simpl. by rewrite P. Qed.

Lemma is_living_unstarted self w :
  _popen self = None ->
  is_living (self, w) = (Raise (AssertionError "Process is not started."), (self, w)).
Proof. intros P. unfold is_living. run_simpl. by rewrite P. Qed.

Lemma stream_end_eq l self w :
  stream_end l (self, w) = (Return (is_stream_end (heap (tick w) !!! l)), (self, tick w)).
Proof. reflexivity. Qed.

Lemma manager_pick_eq l n k s self w :
  manager_pick l n k s (self, w)
  = (match fst (pick_lines (heap (tick w) !!! l) n k s) with
     | inl e => Raise (ReadError e)
     | inr got => Return got
     end,
     (self, picked_at l n k s (tick w))).
Proof.
  unfold Proc.manager_pick, Steps.picked_at. run_simpl.
  destruct (pick_lines (heap (tick w) !!! l) n k s) as [[e|got] m]; reflexivity.
Qed.

Lemma drain_eq st buffer acc self w :
  drain st buffer acc (self, w)
  = (Return (acc ++ buffer),
     (self, set_journal (journal w ++ logged self st buffer) w)).
Proof.
  revert acc w. induction buffer as [|line buffer IH]; intros acc w.
  - cbn [drain]. unfold logged. rewrite app_nil_r.
    destruct (_call_back self); cbn [map]; by rewrite set_journal_same.
  - cbn [drain]. run_simpl. unfold logged.
    destruct (_call_back self) eqn:C; run_simpl.
    + rewrite IH. unfold logged. rewrite C. cbn [map].
      rewrite set_journal_twice. by rewrite <- app_assoc.
    + rewrite IH. unfold logged. rewrite C. by rewrite <- app_assoc.
Qed.

Lemma monotonic_eq self w :
  monotonic (self, w)
  = (Return (now (tick w)),
     (self, set_journal (journal (tick w) ++ [Clock (now (tick w))]) (tick w))).
Proof. reflexivity. Qed.

Lemma kill_eq self w pid :
  _popen self = Some pid ->
  kill (self, w)
  = let w1 := set_journal (journal (tick w) ++ [Living (living (tick w))]) (tick w) in
    if living (tick w)
    then (Return (Some (kill_works w1)),
          (self, set_journal
                   (journal (if kill_works w1
                             then set_child (Some (Exited (-9))) w1 else w1)
                      ++ [Killed pid (kill_works w1)])
                   (if kill_works w1 then set_child (Some (Exited (-9))) w1 else w1)))
    else (Return None, (self, w1)).
Proof.
  intros P. unfold kill. rewrite bind_run, (is_living_eq _ _ pid P). cbv zeta.
  destruct (living (tick w)); [|reflexivity].
  unfold _kill_process_tree. run_simpl. rewrite P. cbn [default].
  by destruct (kill_works (set_journal (journal (tick w) ++ [Living true]) (tick w))).
Qed.

Lemma get_returncode_eq self w pid :
  _popen self = Some pid ->
  get_returncode (self, w) = (Return (exit_code (tick w)), (self, tick w)).
Proof. intros P. unfold get_returncode. run_simpl. by rewrite P. Qed.

Lemma get_returncode_unstarted self w :
  _popen self = None -> get_returncode (self, w) = (Return None, (self, w)).
Proof. intros P. unfold get_returncode. run_simpl. by rewrite P. Qed.

End MethodEquations.

(* ===================================================================== *)
(** ** The controller: what a step of the loop can do *)
(* ===================================================================== *)

Section StepFacts.

Variable lookup_codec : string -> option Codec.
Variable chardet_detect : bytes -> option string.

Abbreviation pick_lines := (pick_lines lookup_codec chardet_detect).
Abbreviation picked_at := (picked_at lookup_codec chardet_detect).
Abbreviation wstep := (wstep lookup_codec chardet_detect).

Lemma write_at_length pos data f :
  pos <= length f ->
  length (write_at pos data f) = Nat.max (length f) (pos + length data).
Proof.
  intros H. unfold write_at.
  rewrite !length_app, length_take, repeat_length, length_drop. lia.
Qed.

Lemma child_write_keeps_in_file data m :
  write_tell m <= length (file m) ->
  write_tell (child_write data m) <= length (file (child_write data m))
  /\ length (unread (child_write data m)) <= length (unread m) + length data.
Proof.
  intros H. unfold child_write, unread. cbn.
  rewrite !length_drop, write_at_length by done. lia.
Qed.

Lemma monitor_keeps_in_file m :
  write_tell m <= length (file m) ->
  write_tell (file_size_monitor m) <= length (file (file_size_monitor m))
  /\ length (unread (file_size_monitor m)) <= length (unread m).
Proof.
  intros H. unfold file_size_monitor.
  destruct (beyond_limit _ _); [|done]. unfold unread. cbn.
  rewrite take_0. cbn. lia.
Qed.

Lemma pick_keeps_in_file m n k s :
  write_tell (snd (pick_lines m n k s)) = write_tell m
  /\ file (snd (pick_lines m n k s)) = file m
  /\ tell (_stream_text_parser m) <= tell (_stream_text_parser (snd (pick_lines m n k s)))
  /\ length (unread (snd (pick_lines m n k s))) <= length (unread m).
Proof.
  rewrite pick_lines_parts. cbn.
  destruct (readlines_size_is_cursor_advance_facts lookup_codec chardet_detect
              (file m) (_stream_text_parser m) n k s) as (_ & A & _).
  cbv zeta in A. unfold unread. cbn. rewrite !length_drop.
  split_and!; try done; lia.
Qed.

(** *** The outside *)

Lemma script_bytes_cons acts rest :
  script_bytes (acts :: rest) = sum_list_with action_bytes acts + script_bytes rest.
Proof.
  unfold script_bytes. cbn [concat]. by rewrite sum_list_with_app.
Qed.

Lemma unread_at_alter f l' l w :
  (forall m, length (unread (f m)) <= length (unread m) + 0) ->
  unread_at l (set_heap (alter f l' (heap w)) w) <= unread_at l w.
Proof.
  intros H. destruct l as [l|]; [|done]. unfold unread_at. cbn.
  destruct (decide (l' = l)) as [->|Hne].
  - rewrite lookup_alter_eq. destruct (heap w !! l) as [m|]; cbn; [|done].
    specialize (H m). lia.
  - by rewrite lookup_alter_ne.
Qed.

Lemma writes_in_file_alter f l w :
  (forall m, write_tell m <= length (file m) -> write_tell (f m) <= length (file (f m))) ->
  writes_in_file w -> writes_in_file (set_heap (alter f l (heap w)) w).
Proof.
  intros H I l' m'. cbn. destruct (decide (l = l')) as [->|Hne].
  - rewrite lookup_alter_eq. destruct (heap w !! l') as [m|] eqn:E; cbn; [|done].
    intros [= <-]. apply H. by apply (I l').
  - rewrite lookup_alter_ne by done. apply I.
Qed.

Lemma act_effect l w a :
  writes_in_file w ->
  writes_in_file (act w a)
  /\ unread_at l (act w a) <= unread_at l w + action_bytes a
  /\ script (act w a) = script w.
Proof.
  intros I. destruct a as [fd data|rc|dt|l'].
  - cbn [act action_bytes].
    destruct (child w) as [[|rc]|]; try (split_and!; [done|lia|done]).
    destruct (fd_target fd w) as [l'|]; try (split_and!; [done|lia|done]).
    split_and!; [| |done].
    + apply writes_in_file_alter; [|done]. intros m H.
      by apply child_write_keeps_in_file.
    + destruct l as [l|]; [|cbn; lia]. unfold unread_at. cbn.
      destruct (decide (l' = l)) as [->|Hne].
      * rewrite lookup_alter_eq. destruct (heap w !! l) as [m|] eqn:E; cbn; [|lia].
        by apply child_write_keeps_in_file, (I l).
      * rewrite lookup_alter_ne by done. lia.
  - cbn [act action_bytes].
    destruct (child w) as [[|rc']|];
      (split_and!; [done|unfold unread_at; cbn [heap set_child]; lia|done]).
  - cbn [act action_bytes].
    split_and!; [done|unfold unread_at; cbn [heap set_now]; lia|done].
  - cbn [act action_bytes]. split_and!; [| |done].
    + apply writes_in_file_alter; [|done]. intros m H.
      destruct (monitoring m); [|done]. by apply monitor_keeps_in_file.
    + destruct l as [l|]; [|cbn; lia]. unfold unread_at. cbn.
      destruct (decide (l' = l)) as [->|Hne].
      * rewrite lookup_alter_eq. destruct (heap w !! l) as [m|] eqn:E; cbn; [|lia].
        destruct (monitoring m); [|lia].
        pose proof (monitor_keeps_in_file m (I l m E)). lia.
      * rewrite lookup_alter_ne by done. lia.
Qed.

Lemma acts_script acts w : script (fold_left act acts w) = script w.
Proof.
  revert w. induction acts as [|a acts IH]; intros w; [done|].
  cbn [fold_left]. rewrite IH. destruct a as [fd data|rc|dt|l']; cbn [act]; try done.
  - by destruct (child w) as [[|rc]|], (fd_target fd w).
  - by destruct (child w) as [[|rc']|].
Qed.

Lemma acts_effect l acts w :
  writes_in_file w ->
  writes_in_file (fold_left act acts w)
  /\ unread_at l (fold_left act acts w) <= unread_at l w + sum_list_with action_bytes acts
  /\ script (fold_left act acts w) = script w.
Proof.
  revert w. induction acts as [|a acts IH]; intros w I.
  - cbn. split_and!; [done|lia|done].
  - cbn [fold_left sum_list_with].
    destruct (act_effect l w a I) as (I1 & U1 & S1).
    destruct (IH (act w a) I1) as (I2 & U2 & S2).
    split_and!; [done|lia|congruence].
Qed.

Lemma tick_effect self w :
  writes_in_file w ->
  writes_in_file (tick w)
  /\ rounds_bound self (tick w) <= rounds_bound self w
  /\ (script w <> [] -> rounds_bound self (tick w) < rounds_bound self w).
Proof.
  intros I. unfold tick. destruct (script w) as [|acts rest] eqn:S.
  - split_and!; [done|lia|done].
  - assert (I0 : writes_in_file (set_script rest w)) by exact I.
    destruct (acts_effect (_stdout_manager self) acts _ I0) as (I1 & U1 & S1).
    destruct (acts_effect (_stderr_manager self) acts _ I0) as (_ & U2 & _).
    split; [done|].
    assert (rounds_bound self (fold_left act acts (set_script rest w))
            < rounds_bound self w); [|split; [lia|done]].
    unfold rounds_bound. rewrite S1, S. cbn [script set_script length].
    rewrite script_bytes_cons.
    change (unread_at ?l (set_script rest w)) with (unread_at l w) in *. lia.
Qed.

Lemma acts_exit acts w rc :
  child w = Some Running -> Exit rc ∈ acts ->
  exists rc', child (fold_left act acts w) = Some (Exited rc').
Proof.
  revert w. induction acts as [|a acts IH]; intros w C H; [by apply elem_of_nil in H|].
  apply elem_of_cons in H as [<-|H].
  - exists rc. cbn [fold_left act]. rewrite C.
    by apply (acts_move acts (set_child (Some (Exited rc)) w)).
  - cbn [fold_left]. destruct a as [fd data|rc0|dt|l'].
    + apply IH; [|done]. cbn [act]. rewrite C. by destruct (fd_target fd w).
    + exists rc0. cbn [act]. rewrite C.
      by apply (acts_move acts (set_child (Some (Exited rc0)) w)).
    + by apply IH.
    + by apply IH.
Qed.

Lemma acts_child acts w :
  child w = Some Running ->
  child (fold_left act acts w) = Some Running
  \/ exists rc, child (fold_left act acts w) = Some (Exited rc).
Proof.
  revert w. induction acts as [|a acts IH]; intros w C; [by left|].
  cbn [fold_left]. destruct a as [fd data|rc0|dt|l'].
  - apply IH. cbn [act]. rewrite C. by destruct (fd_target fd w).
  - right. exists rc0. cbn [act]. rewrite C.
    by apply (acts_move acts (set_child (Some (Exited rc0)) w)).
  - by apply IH.
  - by apply IH.
Qed.

Lemma tick_will_exit w : will_exit w -> will_exit (tick w).
Proof.
  unfold will_exit. intros H.
  destruct (child w) as [[|rc]|] eqn:C; [| |done].
  - destruct H as [rc H]. unfold tick.
    destruct (script w) as [|acts rest] eqn:S; [by apply elem_of_nil in H|].
    cbn [concat] in H. apply elem_of_app in H as [H|H].
    + destruct (acts_exit acts (set_script rest w) rc C H) as [rc' ->]. done.
    + pose proof (acts_script acts (set_script rest w)) as S1.
      destruct (acts_child acts (set_script rest w) C) as [->|[rc' ->]]; [|done].
      exists rc. by rewrite S1.
  - by rewrite (proj1 (proj2 (proj2 (tick_moves w))) rc C).
Qed.

(** *** One step, and many *)

Section OneController.
Variable self : PopenProcMgr.

Abbreviation wsteps := (rtc (wstep self)).

Lemma picked_at_alter l n k s w :
  picked_at l n k s w
  = set_heap (alter (fun m => snd (pick_lines m n k s)) l (heap w)) w.
Proof.
  unfold Steps.picked_at. f_equal. apply map_eq. intros i.
  rewrite !lookup_alter. case_decide; [subst|done].
  destruct (heap w !! i) as [m|] eqn:E; cbn; [|done].
  by rewrite (lookup_total_correct _ _ _ E).
Qed.

Lemma pick_flags m n k s :
  on_disk (snd (pick_lines m n k s)) = on_disk m
  /\ closed (snd (pick_lines m n k s)) = closed m
  /\ monitoring (snd (pick_lines m n k s)) = monitoring m
  /\ _max_size (snd (pick_lines m n k s)) = _max_size m.
Proof. by rewrite pick_lines_parts. Qed.

Lemma picked_at_effect l' n k s w :
  (writes_in_file w -> writes_in_file (picked_at l' n k s w))
  /\ (forall l, unread_at l (picked_at l' n k s w) <= unread_at l w)
  /\ moves [] w (picked_at l' n k s w).
Proof.
  rewrite picked_at_alter. split_and!.
  - apply writes_in_file_alter. intros m H.
    destruct (pick_keeps_in_file m n k s) as (-> & -> & _). done.
  - intros l. apply unread_at_alter. intros m.
    destruct (pick_keeps_in_file m n k s) as (_ & _ & _ & U). lia.
  - split; [by cbn; rewrite app_nil_r|]. split; [|rest_same].
    apply same_managers_alter. intros m. apply pick_flags.
Qed.

Lemma wstep_moves w w' : wstep self w w' -> exists d, moves d w w'.
Proof.
  intros [w0|w0 e|w0 l n k s _|w0 L].
  - exists []. apply tick_moves.
  - exists [e]. apply moves_record.
  - exists []. apply picked_at_effect.
  - exists []. split; [by cbn; rewrite app_nil_r|].
    split; [intros l; cbn; by destruct (heap w0 !! l)|].
    split; [|done]. intros rc C. unfold living in L. by rewrite C in L.
Qed.

Lemma wsteps_moves w w' : wsteps w w' -> exists d, moves d w w'.
Proof.
  induction 1 as [w|w1 w2 w3 H _ [d2 IH]].
  - exists []. apply moves_refl.
  - destruct (wstep_moves _ _ H) as [d1 H1]. exists (d1 ++ d2).
    by eapply moves_trans.
Qed.

Lemma rounds_bound_same w w' :
  script w' = script w -> heap w' = heap w ->
  rounds_bound self w' = rounds_bound self w.
Proof.
  intros S H. unfold rounds_bound, unread_at. by rewrite S, H.
Qed.

Lemma wstep_effect w w' :
  wstep self w w' ->
  (writes_in_file w ->
     writes_in_file w' /\ rounds_bound self w' <= rounds_bound self w)
  /\ (will_exit w -> will_exit w')
  /\ (script w = [] ->
      script w' = [] /\ forall l, unread_at l w' <= unread_at l w).
Proof.
  intros [w0|w0 e|w0 l n k s _|w0 L].
  - split; [|split].
    + intros I. destruct (tick_effect self w0 I) as (I' & B & _). by split.
    + apply tick_will_exit.
    + intros Q. by rewrite (tick_quiet w0 Q).
  - split; [|split]; [|done|done].
    intros I. split; [done|]. by rewrite (rounds_bound_same w0).
  - destruct (picked_at_effect l n k s w0) as (I & U & M).
    split; [|split].
    + intros I0. split; [by apply I|].
      unfold rounds_bound.
      pose proof (U (_stdout_manager self)). pose proof (U (_stderr_manager self)).
      replace (script (picked_at l n k s w0)) with (script w0) by done. lia.
    + done.
    + intros Q. split; [done|exact U].
  - split; [|split]; [| |done].
    + intros I. split; [done|]. by rewrite (rounds_bound_same w0).
    + done.
Qed.

Lemma wsteps_effect w w' :
  wsteps w w' ->
  (writes_in_file w ->
     writes_in_file w' /\ rounds_bound self w' <= rounds_bound self w)
  /\ (will_exit w -> will_exit w')
  /\ (script w = [] ->
      script w' = [] /\ forall l, unread_at l w' <= unread_at l w).
Proof.
  induction 1 as [w|w1 w2 w3 H _ (IH1 & IH2 & IH3)].
  - split_and!; [done|done|]. intros Q. split; [done|]. intros l. lia.
  - destruct (wstep_effect _ _ H) as (H1 & H2 & H3). split_and!.
    + intros I. destruct (H1 I) as [I2 B2]. destruct (IH1 I2) as [I3 B3].
      split; [done|lia].
    + intros E. by apply IH2, H2.
    + intros Q. destruct (H3 Q) as [Q2 U2]. destruct (IH3 Q2) as [Q3 U3].
      split; [done|]. intros l. specialize (U2 l). specialize (U3 l). lia.
Qed.

End OneController.

End StepFacts.

(* ===================================================================== *)
(** ** The controller: one round of the loop, step by step *)
(* ===================================================================== *)

Section RoundSteps.

Variable lookup_codec : string -> option Codec.
Variable chardet_detect : bytes -> option string.

Abbreviation pick_lines := (pick_lines lookup_codec chardet_detect).
Abbreviation picked_at := (picked_at lookup_codec chardet_detect).
Abbreviation manager_pick := (manager_pick lookup_codec chardet_detect).
Abbreviation pick_stdout := (pick_stdout lookup_codec chardet_detect).
Abbreviation pick_stderr := (pick_stderr lookup_codec chardet_detect).
Abbreviation wait_loop := (wait_loop lookup_codec chardet_detect).
Abbreviation round_body := (round_body lookup_codec chardet_detect).
Abbreviation _wait := (_wait lookup_codec chardet_detect).
Abbreviation wstep := (wstep lookup_codec chardet_detect).

Lemma wait_loop_round fuel timeout end_time out err :
  wait_loop (S fuel) timeout end_time out err
  = (remain ← still_remain_output_to_read;
     go ← (if (remain : bool) then mret true else is_living);
     if (go : bool)
     then round_body (wait_loop fuel timeout end_time) timeout end_time out err
     else mret (out, err)).
Proof. reflexivity. Qed.

(** A pick with no bound on the lines consumes something of what is
    left to read, if anything is. *)
Lemma pick_progress m k s got :
  fst (pick_lines m (-1) k s) = inr got ->
  unread m <> [] ->
  length (unread (snd (pick_lines m (-1) k s))) < length (unread m).
Proof.
  rewrite pick_lines_parts. cbn [fst snd]. unfold unread. cbn [file with_parser _stream_text_parser].
  unfold readlines, run_readlines.
  destruct (read_loop_effect lookup_codec chardet_detect (-1) k s
              (file_lines (skipn (tell (_stream_text_parser m)) (file m)))
              (enter (_stream_text_parser m)))
    as (j & K1 & K2 & _ & _ & _ & _ & _ & _ & _ & K10 & _).
  destruct (read_loop lookup_codec chardet_detect (-1) k s
              (file_lines (skipn (tell (_stream_text_parser m)) (file m)))
              (enter (_stream_text_parser m))) as [[e|] f]; cbn [fst snd] in *; [done|].
  intros _ Hne. rewrite K2. cbn [tell self enter].
  rewrite !length_drop.
  assert (L : 0 < length (file m) - tell (_stream_text_parser m)).
  { rewrite <- length_drop. destruct (drop _ _); [done|cbn; lia]. }
  pose proof (file_lines_nonempty (skipn (tell (_stream_text_parser m)) (file m))) as NE.
  pose proof (file_lines_concat (skipn (tell (_stream_text_parser m)) (file m))) as CC.
  destruct (file_lines (skipn (tell (_stream_text_parser m)) (file m))) as [|ln lns] eqn:FL.
  { cbn in CC. by rewrite <- CC in Hne. }
  assert (0 < length ln).
  { apply Forall_cons in NE as [NE _]. destruct ln; [done|cbn; lia]. }
  assert (1 <= j).
  { destruct (K10 eq_refl eq_refl) as [->|(j' & raw & -> & _)]; cbn; lia. }
  destruct j as [|j]; [lia|]. cbn [take concat]. rewrite length_app. lia.
Qed.

Section OneController.
Variable self : PopenProcMgr.

Abbreviation wsteps := (rtc (wstep self)).

Lemma wsteps_record w e : wsteps w (set_journal (journal w ++ [e]) w).
Proof. apply rtc_once. constructor. Qed.

Lemma wsteps_records w d : wsteps w (set_journal (journal w ++ d) w).
Proof.
  revert w. induction d as [|e d IH]; intros w.
  - by rewrite set_journal_same.
  - eapply rtc_l; [apply (step_record _ _ _ w e)|].
    replace (set_journal (journal w ++ e :: d) w)
      with (set_journal (journal (set_journal (journal w ++ [e]) w) ++ d)
              (set_journal (journal w ++ [e]) w)); [apply IH|].
    rewrite set_journal_twice. done.
Qed.

Lemma wsteps_look w : wsteps w (tick w).
Proof. apply rtc_once. constructor. Qed.

Lemma has_output_unread l w :
  has_output (Some l) w = negb (unread_at (Some l) w =? 0).
Proof.
  unfold has_output, unread_at, is_stream_end, reach_end, unread.
  destruct (heap w !! l) as [m|] eqn:E.
  - rewrite (lookup_total_correct _ _ _ E), length_drop.
    destruct (Nat.leb_spec (length (file m)) (tell (_stream_text_parser m)));
      destruct (Nat.eqb_spec (length (file m) - tell (_stream_text_parser m)) 0);
      cbn; try done; lia.
  - rewrite lookup_total_alt, E. done.
Qed.

Lemma still_remain_steps w :
  exists b w',
    still_remain_output_to_read (self, w) = (Return b, (self, w'))
    /\ wsteps w w'
    /\ ((_stdout_manager self = None /\ _stderr_manager self = None /\ b = false
         /\ w' = set_journal (journal w ++ [Backlog false]) w)
        \/ wsteps (tick w) w')
    /\ (script w = [] ->
        b = backlog self w /\ w' = set_journal (journal w ++ [Backlog b]) w).
Proof.
  unfold still_remain_output_to_read, backlog, has_output. run_simpl.
  destruct (_stdout_manager self) as [lo|], (_stderr_manager self) as [le|];
    run_simpl; do 2 eexists; (split; [reflexivity|]).
  - split; [|split].
    + eapply rtc_l; [constructor|]. eapply rtc_l; [constructor|]. apply wsteps_record.
    + right. eapply rtc_l; [constructor|]. apply wsteps_record.
    + intros Q. cbn [fst snd]. rewrite ?(tick_quiet w Q). done.
  - split; [|split].
    + eapply rtc_l; [constructor|]. apply wsteps_record.
    + right. apply wsteps_record.
    + intros Q. cbn [fst snd]. rewrite ?(tick_quiet w Q). done.
  - split; [|split].
    + eapply rtc_l; [constructor|]. apply wsteps_record.
    + right. apply wsteps_record.
    + intros Q. cbn [fst snd]. rewrite ?(tick_quiet w Q). done.
  - split; [|split].
    + apply wsteps_record.
    + by left.
    + done.
Qed.

Lemma manager_pick_steps l n k s w :
  _stdout_manager self = Some l \/ _stderr_manager self = Some l ->
  exists r w',
    manager_pick l n k s (self, w) = (r, (self, w'))
    /\ wsteps w w'
    /\ match r with Return _ | Raise (ReadError _) => True | _ => False end
    /\ (script w = [] -> n = (-1)%Z -> is_Some (match r with Return got => Some got | _ => None end) ->
        unread_at (Some l) w = 0 \/ unread_at (Some l) w' < unread_at (Some l) w).
Proof.
  intros B. rewrite manager_pick_eq. do 2 eexists. split; [reflexivity|].
  split; [|split].
  - eapply rtc_l; [constructor|]. apply rtc_once. by constructor.
  - by destruct (fst (pick_lines (heap (tick w) !!! l) n k s)).
  - intros Q -> R. rewrite (tick_quiet w Q) in *.
    rewrite picked_at_alter. unfold unread_at. cbn [heap set_heap].
    rewrite lookup_alter_eq.
    destruct (heap w !! l) as [m|] eqn:E; [|by left]. cbn [fmap option_fmap option_map].
    rewrite (lookup_total_correct _ _ _ E) in R.
    destruct (unread m) as [|b u] eqn:U; [by left|]. right.
    destruct (fst (pick_lines m (-1) k s)) as [e|got] eqn:P; [by destruct R|].
    rewrite <- U. eapply pick_progress; [exact P|]. by rewrite U.
Qed.

Lemma pick_stdout_steps n k s w :
  exists r w',
    pick_stdout n k s (self, w) = (r, (self, w'))
    /\ wsteps w w'
    /\ match r with Return _ | Raise (ReadError _) => True | _ => False end
    /\ (script w = [] -> n = (-1)%Z ->
        is_Some (match r with Return got => Some got | _ => None end) ->
        forall l, _stdout_manager self = Some l ->
        unread_at (Some l) w = 0 \/ unread_at (Some l) w' < unread_at (Some l) w).
Proof.
  unfold Proc.pick_stdout. run_simpl.
  destruct (_stdout_manager self) as [lo|] eqn:O.
  - destruct (manager_pick_steps lo n k s w) as (r & w' & E & S & R & P); [by left|].
    exists r, w'. split; [exact E|]. split; [exact S|]. split; [exact R|].
    intros Q N I l [= <-]. by apply P.
  - exists (Return ([], 0)), w. split; [reflexivity|]. split; [constructor|].
    split; [done|]. by intros.
Qed.

Lemma pick_stderr_steps n k s w :
  exists r w',
    pick_stderr n k s (self, w) = (r, (self, w'))
    /\ wsteps w w'
    /\ match r with Return _ | Raise (ReadError _) => True | _ => False end
    /\ (_merget_option self = true -> r = Return ([], 0) /\ w' = w)
    /\ (script w = [] -> n = (-1)%Z -> _merget_option self = false ->
        is_Some (match r with Return got => Some got | _ => None end) ->
        forall l, _stderr_manager self = Some l ->
        unread_at (Some l) w = 0 \/ unread_at (Some l) w' < unread_at (Some l) w).
Proof.
  unfold Proc.pick_stderr. run_simpl.
  destruct (_merget_option self) eqn:Mg.
  { exists (Return ([], 0)), w. split; [reflexivity|]. split; [constructor|].
    split; [done|]. split; [done|]. by intros. }
  destruct (_stderr_manager self) as [le|] eqn:O.
  - destruct (manager_pick_steps le n k s w) as (r & w' & E & S & R & P); [by right|].
    exists r, w'. split; [exact E|]. split; [exact S|]. split; [exact R|].
    split; [done|]. intros Q N _ I l [= <-]. by apply P.
  - exists (Return ([], 0)), w. split; [reflexivity|]. split; [constructor|].
    split; [done|]. split; [done|]. by intros.
Qed.

Lemma kill_steps w :
  exists r w', kill (self, w) = (r, (self, w')) /\ wsteps w w'
    /\ match r with Return _ | Raise (AssertionError _) => True | _ => False end.
Proof.
  destruct (_popen self) as [pid|] eqn:P.
  - rewrite (kill_eq self w pid P). cbv zeta.
    destruct (living (tick w)) eqn:L.
    + do 2 eexists. split; [reflexivity|]. split; [|done].
      eapply rtc_l; [apply step_look|]. eapply rtc_l; [apply step_record|].
      destruct (kill_works _).
      * eapply rtc_l; [apply step_kill; exact L|]. apply wsteps_record.
      * apply wsteps_record.
    + do 2 eexists. split; [reflexivity|]. split; [|done].
      eapply rtc_l; [apply step_look|]. apply wsteps_record.
  - unfold kill. rewrite bind_run, (is_living_unstarted self w P).
    do 2 eexists. split; [reflexivity|]. split; [constructor|done].
Qed.

(** The body of one round: it raises, or it goes on to the next test
    with the lines it has picked. *)
Lemma round_body_run (k : list text -> list text -> M (list text * list text))
    timeout end_time out err w :
  (exists ex w',
     round_body k timeout end_time out err (self, w) = (Raise ex, (self, w'))
     /\ wsteps w w'
     /\ match ex with
        | TimeoutError c tmo o e =>
            c = cmd self /\ timeout = Some tmo /\ truthy timeout = true
            /\ exists og eg, o = out ++ og /\ e = err ++ eg
                             /\ (_merget_option self = true -> eg = [])
        | _ => True
        end)
  \/ (exists og eg w',
        round_body k timeout end_time out err (self, w)
          = k (out ++ og) (err ++ eg) (self, w')
        /\ wsteps w w'
        /\ (_merget_option self = true -> eg = [])
        /\ (script w = [] ->
            forall l, _stdout_manager self = Some l
                      \/ (_stderr_manager self = Some l /\ _merget_option self = false) ->
            unread_at (Some l) w = 0 \/ unread_at (Some l) w' < unread_at (Some l) w)).
Proof.
  unfold Steps.round_body. rewrite bind_run.
  destruct (pick_stderr_steps (-1) (-1) false w) as (r1 & w1 & E1 & S1 & R1 & M1 & P1).
  rewrite E1. destruct r1 as [[eg en]|[]|]; try done.
  2:{ left. do 2 eexists. split; [reflexivity|]. by split. }
  rewrite bind_run.
  change (record (Picked STDERR eg en) (self, w1))
    with (Return tt, (self, set_journal (journal w1 ++ [Picked STDERR eg en]) w1)).
  cbv beta iota. rewrite bind_run, drain_eq. rewrite bind_run.
  set (w2 := set_journal _ (set_journal _ w1)).
  assert (S2 : wsteps w1 w2).
  { eapply rtc_l; [apply step_record|]. apply wsteps_records. }
  destruct (pick_stdout_steps (-1) (-1) false w2) as (r3 & w3 & E3 & S3 & R3 & P3).
  rewrite E3. destruct r3 as [[og on]|[]|]; try done.
  2:{ left. do 2 eexists. split; [reflexivity|]. split; [|done].
      eapply rtc_trans; [exact S1|]. eapply rtc_trans; [exact S2|exact S3]. }
  rewrite bind_run.
  change (record (Picked STDOUT og on) (self, w3))
    with (Return tt, (self, set_journal (journal w3 ++ [Picked STDOUT og on]) w3)).
  cbv beta iota. rewrite bind_run, drain_eq.
  set (w4 := set_journal _ (set_journal _ w3)).
  assert (S4 : wsteps w3 w4).
  { eapply rtc_l; [apply step_record|]. apply wsteps_records. }
  assert (S04 : wsteps w w4).
  { eapply rtc_trans; [exact S1|]. eapply rtc_trans; [exact S2|].
    eapply rtc_trans; [exact S3|exact S4]. }
  assert (Mg : _merget_option self = true -> eg = []).
  { intros H. destruct (M1 H) as [[= -> ->] _]. done. }
  assert (PR : forall w', wsteps w4 w' -> script w = [] ->
            forall l, _stdout_manager self = Some l
                      \/ (_stderr_manager self = Some l /\ _merget_option self = false) ->
            unread_at (Some l) w = 0 \/ unread_at (Some l) w' < unread_at (Some l) w).
  { intros w' S' Q l Hl.
    destruct (wsteps_effect lookup_codec chardet_detect self _ _ S1) as (_ & _ & Q1).
    destruct (Q1 Q) as [Q1' U1].
    destruct (wsteps_effect lookup_codec chardet_detect self _ _ S2) as (_ & _ & Q2).
    destruct (Q2 Q1') as [Q2' U2].
    destruct (wsteps_effect lookup_codec chardet_detect self _ _ S3) as (_ & _ & Q3).
    destruct (Q3 Q2') as [Q3' U3].
    destruct (wsteps_effect lookup_codec chardet_detect self _ _ S4) as (_ & _ & Q4).
    destruct (Q4 Q3') as [Q4' U4].
    destruct (wsteps_effect lookup_codec chardet_detect self _ _ S') as (_ & _ & Q5).
    destruct (Q5 Q4') as [Q5' U5].
    specialize (U1 (Some l)). specialize (U2 (Some l)). specialize (U3 (Some l)).
    specialize (U4 (Some l)). specialize (U5 (Some l)).
    destruct Hl as [Hl|[Hl Hm]].
    - destruct (P3 Q2' eq_refl (mk_is_Some _ _ eq_refl) l Hl) as [Z|L]; [|right; lia].
      destruct (unread_at (Some l) w); [by left|right; lia].
    - destruct (P1 Q eq_refl Hm (mk_is_Some _ _ eq_refl) l Hl) as [Z|L];
        [by left|right; lia]. }
  destruct (truthy timeout) eqn:T.
  2:{ right. exists og, eg, w4. split; [reflexivity|]. split; [exact S04|].
      split; [exact Mg|]. apply PR. constructor. }
  rewrite bind_run, monotonic_eq. cbv zeta.
  set (w5 := set_journal _ (tick w4)).
  assert (S5 : wsteps w4 w5).
  { eapply rtc_l; [apply step_look|]. apply wsteps_record. }
  destruct (end_time - now (tick w4) <=? 0)%Z.
  2:{ right. exists og, eg, w5. split; [reflexivity|].
      split; [by eapply rtc_trans|]. split; [exact Mg|]. by apply PR. }
  left. rewrite bind_run.
  destruct (kill_steps w5) as (rk & w6 & E6 & S6 & R6). rewrite E6.
  destruct rk as [a|[]|]; try done.
  - cbn [get_self raise mbind M_bind fst snd].
    do 2 eexists. split; [reflexivity|]. split.
    + eapply rtc_trans; [exact S04|]. by eapply rtc_trans.
    + destruct timeout as [tmo|]; [|done]. cbn [default].
      split_and!; try done. by exists og, eg.
  - do 2 eexists. split; [reflexivity|]. split; [|done].
    eapply rtc_trans; [exact S04|]. by eapply rtc_trans.
Qed.

Lemma will_exit_quiet w : will_exit w -> script w = [] -> living w = false.
Proof.
  unfold will_exit, living. intros E Q.
  destruct (child w) as [[|rc]|]; [|done|done].
  destruct E as [rc E]. rewrite Q in E. by apply elem_of_nil in E.
Qed.

Lemma backlog_unread w :
  backlog self w = true ->
  (exists l, _stdout_manager self = Some l /\ 0 < unread_at (Some l) w)
  \/ (exists l, _stderr_manager self = Some l /\ 0 < unread_at (Some l) w).
Proof.
  unfold backlog. intros H. apply orb_prop in H as [H|H]; [left|right].
  - destruct (_stdout_manager self) as [l|]; [|done]. exists l. split; [done|].
    rewrite has_output_unread in H. destruct (Nat.eqb_spec (unread_at (Some l) w) 0); [done|lia].
  - destruct (_stderr_manager self) as [l|]; [|done]. exists l. split; [done|].
    rewrite has_output_unread in H. destruct (Nat.eqb_spec (unread_at (Some l) w) 0); [done|lia].
Qed.

(** One round under the conditions of termination: the loop ends in
    it, or it goes on from a state that is nearer to the end. *)
Lemma round_progress fuel timeout end_time out err w :
  writes_in_file w -> will_exit w ->
  (_merget_option self = true -> _stderr_manager self = _stdout_manager self) ->
  (exists r s', wait_loop (S fuel) timeout end_time out err (self, w) = (r, s')
                /\ r <> Spinning)
  \/ (exists out' err' w',
        wait_loop (S fuel) timeout end_time out err (self, w)
          = wait_loop fuel timeout end_time out' err' (self, w')
        /\ writes_in_file w' /\ will_exit w'
        /\ rounds_bound self w' < rounds_bound self w).
Proof.
  intros I E Wf.
  assert (BODY : forall w2,
    wsteps w w2 ->
    (script w <> [] -> rounds_bound self w2 < rounds_bound self w) ->
    (script w = [] -> backlog self w = true /\ heap w2 = heap w) ->
    (exists r s', round_body (wait_loop fuel timeout end_time) timeout end_time out err
                    (self, w2) = (r, s') /\ r <> Spinning)
    \/ (exists out' err' w',
          round_body (wait_loop fuel timeout end_time) timeout end_time out err (self, w2)
            = wait_loop fuel timeout end_time out' err' (self, w')
          /\ writes_in_file w' /\ will_exit w'
          /\ rounds_bound self w' < rounds_bound self w)).
  { intros w2 S2 FL QQ.
    destruct (wsteps_effect lookup_codec chardet_detect self _ _ S2) as (I2 & E2 & Q2).
    destruct (I2 I) as [I2' B2]. specialize (E2 E).
    destruct (round_body_run (wait_loop fuel timeout end_time) timeout end_time out err w2)
      as [(ex & w' & EQ & _)|(og & eg & w' & EQ & S' & _ & PR)].
    { left. by exists (Raise ex), (self, w'). }
    right. exists (out ++ og), (err ++ eg), w'. split; [exact EQ|].
    destruct (wsteps_effect lookup_codec chardet_detect self _ _ S') as (I3 & E3 & Q3).
    destruct (I3 I2') as [I3' B3]. split; [done|]. split; [by apply E3|].
    destruct (script w) as [|a sc] eqn:SC.
    2:{ specialize (FL ltac:(done)). lia. }
    destruct (QQ eq_refl) as [BL HP]. destruct (Q2 eq_refl) as [SC2 _].
    destruct (Q3 SC2) as [SC3 U3]. specialize (PR SC2).
    assert (UU : forall l, unread_at l w2 = unread_at l w).
    { intros [l|]; [|done]. unfold unread_at. by rewrite HP. }
    unfold rounds_bound. rewrite SC3, SC.
    pose proof (U3 (_stdout_manager self)) as Uo.
    pose proof (U3 (_stderr_manager self)) as Ue.
    rewrite !UU in Uo, Ue.
    destruct (backlog_unread w BL) as [(l & Hl & Pos)|(l & Hl & Pos)].
    - destruct (PR l (or_introl Hl)) as [Z|L]; rewrite !UU in *; [lia|].
      rewrite Hl in *. lia.
    - destruct (_merget_option self) eqn:Mg.
      + rewrite (Wf eq_refl) in Hl.
        destruct (PR l (or_introl Hl)) as [Z|L]; rewrite !UU in *; [lia|].
        rewrite Hl in *. lia.
      + destruct (PR l (or_intror (conj Hl eq_refl))) as [Z|L]; rewrite !UU in *; [lia|].
        rewrite Hl in *. lia. }
  rewrite wait_loop_round, bind_run.
  destruct (still_remain_steps w) as (b & w1 & E1 & S1 & F1 & Q1). rewrite E1.
  rewrite bind_run. destruct b.
  - change ((mret true : M bool) (self, w1)) with (Return true, (self, w1)).
    cbv iota. apply BODY; [exact S1| |].
    + intros NQ. destruct F1 as [(_ & _ & [=] & _)|F1].
      destruct (tick_effect self w I) as (I' & _ & B). specialize (B NQ).
      destruct (wsteps_effect lookup_codec chardet_detect self _ _ F1) as (I1 & _).
      destruct (I1 I') as [_ B1]. lia.
    + intros Q. destruct (Q1 Q) as [-> ->]. done.
  - destruct (_popen self) as [pid|] eqn:P.
    2:{ left. rewrite (is_living_unstarted self w1 P). by do 2 eexists. }
    rewrite (is_living_eq self w1 pid P).
    destruct (living (tick w1)) eqn:L.
    2:{ left. by do 2 eexists. }
    cbv iota. apply BODY.
    + eapply rtc_trans; [exact S1|]. eapply rtc_l; [apply step_look|]. apply wsteps_record.
    + intros NQ.
      assert (rounds_bound self (tick w1) < rounds_bound self w);
        [|by rewrite (rounds_bound_same self (tick w1) (set_journal (journal (tick w1) ++ [Living true]) (tick w1)))].
      destruct F1 as [(_ & _ & _ & ->)|F1].
      * destruct (tick_effect self (set_journal (journal w ++ [Backlog false]) w))
          as (_ & _ & B); [exact I|]. specialize (B NQ).
        by rewrite (rounds_bound_same self w (set_journal (journal w ++ [Backlog false]) w)) in B.
      * destruct (tick_effect self w I) as (I' & _ & B). specialize (B NQ).
        destruct (wsteps_effect lookup_codec chardet_detect self _ _ F1) as (I1 & _).
        destruct (I1 I') as [I1' B1].
        destruct (tick_effect self w1 I1') as (_ & B2 & _). lia.
    + intros Q. exfalso. destruct (Q1 Q) as [_ ->].
      rewrite tick_quiet in L by done.
      pose proof (will_exit_quiet w E Q) as L'. unfold living in *. cbn in L. congruence.
Qed.

(** One round, whatever the state. *)
Lemma round_steps fuel timeout end_time out err w :
  (exists r w', wait_loop (S fuel) timeout end_time out err (self, w) = (r, (self, w'))
     /\ wsteps w w'
     /\ match r with
        | Return (o, e) => o = out /\ e = err /\ is_Some (_popen self) /\ living w' = false
        | Raise (TimeoutError c tmo o e) =>
            exists og eg, o = out ++ og /\ e = err ++ eg
                          /\ (_merget_option self = true -> eg = [])
        | Raise _ => True
        | Spinning => False
        end)
  \/ (exists og eg w',
        wait_loop (S fuel) timeout end_time out err (self, w)
          = wait_loop fuel timeout end_time (out ++ og) (err ++ eg) (self, w')
        /\ wsteps w w'
        /\ (_merget_option self = true -> eg = [])).
Proof.
  assert (BODY : forall w2, wsteps w w2 ->
    (exists r w', round_body (wait_loop fuel timeout end_time) timeout end_time out err
                    (self, w2) = (r, (self, w'))
       /\ wsteps w w'
       /\ match r with
          | Return (o, e) => o = out /\ e = err /\ is_Some (_popen self) /\ living w' = false
          | Raise (TimeoutError c tmo o e) =>
              exists og eg, o = out ++ og /\ e = err ++ eg
                            /\ (_merget_option self = true -> eg = [])
          | Raise _ => True
          | Spinning => False
          end)
    \/ (exists og eg w',
          round_body (wait_loop fuel timeout end_time) timeout end_time out err (self, w2)
            = wait_loop fuel timeout end_time (out ++ og) (err ++ eg) (self, w')
          /\ wsteps w w'
          /\ (_merget_option self = true -> eg = []))).
  { intros w2 S2.
    destruct (round_body_run (wait_loop fuel timeout end_time) timeout end_time out err w2)
      as [(ex & w' & EQ & S' & X)|(og & eg & w' & EQ & S' & Mg & _)].
    - left. exists (Raise ex), w'. split; [exact EQ|]. split; [by eapply rtc_trans|].
      destruct ex as [msg|c tmo o e|e]; try done.
      destruct X as (_ & _ & _ & og & eg & -> & -> & Mg). by exists og, eg.
    - right. exists og, eg, w'. split; [exact EQ|]. split; [by eapply rtc_trans|done]. }
  rewrite wait_loop_round, bind_run.
  destruct (still_remain_steps w) as (b & w1 & E1 & S1 & _). rewrite E1.
  rewrite bind_run. destruct b.
  - change ((mret true : M bool) (self, w1)) with (Return true, (self, w1)).
    cbv iota. by apply BODY.
  - destruct (_popen self) as [pid|] eqn:P.
    2:{ left. rewrite (is_living_unstarted self w1 P). do 2 eexists.
        split; [reflexivity|]. by split. }
    rewrite (is_living_eq self w1 pid P).
    assert (S2 : wsteps w (set_journal (journal (tick w1) ++ [Living (living (tick w1))])
                             (tick w1))).
    { eapply rtc_trans; [exact S1|]. eapply rtc_l; [apply step_look|]. apply wsteps_record. }
    destruct (living (tick w1)) eqn:L.
    + cbv iota. by apply BODY.
    + left. do 2 eexists. split; [reflexivity|]. split; [exact S2|].
      split_and!; try done.
Qed.

(** The loop as a whole. *)
Lemma wait_loop_steps fuel timeout end_time out err w :
  exists r w',
    wait_loop fuel timeout end_time out err (self, w) = (r, (self, w'))
    /\ wsteps w w'
    /\ (forall o e, r = Return (o, e) -> is_Some (_popen self) /\ living w' = false)
    /\ (_merget_option self = true ->
        match r with
        | Return (o, e) => e = err
        | Raise (TimeoutError c tmo o e) => e = err
        | _ => True
        end).
Proof.
  revert out err w. induction fuel as [|fuel IH]; intros out err w.
  - exists Spinning, w. split; [reflexivity|]. split; [constructor|]. by split.
  - destruct (round_steps fuel timeout end_time out err w)
      as [(r & w' & EQ & S & R)|(og & eg & w1 & EQ & S & Mg)].
    + exists r, w'. split; [exact EQ|]. split; [exact S|].
      destruct r as [[o e]|[msg|c tmo o e|e]|]; try done.
      * destruct R as (-> & -> & P & L). split; [|done]. by intros ? ? [= <- <-].
      * destruct R as (og & eg & -> & -> & Mg). split; [done|].
        intros H. by rewrite (Mg H), app_nil_r.
    + destruct (IH (out ++ og) (err ++ eg) w1) as (r & w' & EQ' & S' & R1 & R2).
      exists r, w'. split; [by rewrite EQ|]. split; [by eapply rtc_trans|].
      split; [exact R1|]. intros H. specialize (R2 H). rewrite (Mg H), app_nil_r in R2.
      exact R2.
Qed.

(** The loop ends once the child has exited or is going to: a round
    that does not end it lets the outside move on, or, when the
    outside has nothing left to do, consumes bytes left to read. *)
Lemma wait_loop_ends fuel timeout end_time out err w :
  writes_in_file w -> will_exit w ->
  (_merget_option self = true -> _stderr_manager self = _stdout_manager self) ->
  rounds_bound self w < fuel ->
  fst (wait_loop fuel timeout end_time out err (self, w)) <> Spinning.
Proof.
  revert out err w. induction fuel as [|fuel IH]; intros out err w I E Wf B; [lia|].
  destruct (round_progress fuel timeout end_time out err w I E Wf)
    as [(r & s' & -> & R)|(out' & err' & w' & -> & I' & E' & B')]; [done|].
  apply IH; try done. lia.
Qed.

(** [clean] on an attached controller. *)
Lemma clean_eq delete_output_file w pid :
  _popen self = Some pid ->
  exists r w1,
    kill (self, w) = (Return r, (self, w1)) /\ wsteps w w1
    /\ clean delete_output_file (self, w)
       = (Return tt, (cleaned self, torn delete_output_file self w1)).
Proof.
  intros P. destruct (kill_steps w) as (r & w1 & EK & SK & RK).
  destruct r as [r|[msg| |]|]; try done.
  2:{ exfalso. rewrite (kill_eq self w pid P) in EK. cbv zeta in EK.
      by destruct (living (tick w)). }
  exists r, w1. split; [exact EK|]. split; [exact SK|].
  unfold clean. rewrite bind_run. unfold get_self at 1. cbn [fst snd]. rewrite P.
  rewrite bind_run, EK.
  unfold cleaned, torn, tear_at.
  destruct (_stdout_manager self), (_stderr_manager self); run_simpl;
    by destruct w1.
Qed.

Lemma clean_unstarted delete_output_file w :
  _popen self = None -> clean delete_output_file (self, w) = (Return tt, (self, w)).
Proof. intros P. unfold clean. run_simpl. by rewrite P. Qed.

(** [_wait]: every way it can end, and the world it leaves. *)
Lemma wait_effect fuel timeout del_tmpfile w :
  exists w1, wsteps w w1
    /\ match fst (_wait fuel timeout del_tmpfile (self, w)) with
       | Return res =>
           snd (_wait fuel timeout del_tmpfile (self, w))
             = (cleaned self, torn del_tmpfile self w1)
           /\ is_Some (_popen self) /\ living w1 = false
           /\ (_merget_option self = true -> stderr res = [])
       | Raise ex =>
           snd (_wait fuel timeout del_tmpfile (self, w)) = (self, w1)
           /\ match ex with
              | TimeoutError c tmo o e => _merget_option self = true -> e = []
              | _ => True
              end
       | Spinning => snd (_wait fuel timeout del_tmpfile (self, w)) = (self, w1)
       end.
Proof.
  unfold Proc._wait. rewrite bind_run.
  assert (PRE : exists end_time w0,
    (if truthy timeout
     then t ← monotonic; mret (t + default 0%Z timeout)%Z
     else mret 0%Z) (self, w) = (Return end_time, (self, w0)) /\ wsteps w w0).
  { destruct (truthy timeout).
    - rewrite bind_run, monotonic_eq. do 2 eexists. split; [reflexivity|].
      eapply rtc_l; [apply step_look|]. apply wsteps_record.
    - exists 0%Z, w. split; [reflexivity|constructor]. }
  destruct PRE as (end_time & w0 & -> & S0). rewrite bind_run.
  fold (wait_loop fuel timeout end_time [] []).
  destruct (wait_loop_steps fuel timeout end_time [] [] w0) as (r & w1 & -> & S1 & R1 & R2).
  destruct r as [[o e]|ex|].
  - destruct (R1 o e eq_refl) as [[pid P] L]. cbv beta iota.
    rewrite bind_run, (get_returncode_eq self w1 pid P). rewrite bind_run.
    destruct (clean_eq del_tmpfile (tick w1) pid P) as (rk & w2 & EK & SK & ->).
    exists w2. split.
    { eapply rtc_trans; [exact S0|]. eapply rtc_trans; [exact S1|].
      eapply rtc_l; [apply step_look|exact SK]. }
    cbn [mret M_ret fst snd]. split; [done|]. split; [by exists pid|]. split.
    + destruct (wsteps_moves lookup_codec chardet_detect self _ _
                  (rtc_l _ _ _ _ (step_look _ _ _ w1) SK)) as (d & _ & _ & X & _).
      unfold living in *. destruct (child w1) as [[|rc]|] eqn:C; try done.
      by rewrite (X rc C).
    + intros H. exact (R2 H).
  - exists w1. split; [by eapply rtc_trans|]. cbn [fst snd]. split; [done|].
    by destruct ex as [msg|c tmo o e|e].
  - exists w1. split; [by eapply rtc_trans|]. done.
Qed.

End OneController.

End RoundSteps.

(* ===================================================================== *)
(** ** The controller: termination, merge mode, the state after a wait *)
(* ===================================================================== *)

Section WaitFacts.

Variable lookup_codec : string -> option Codec.
Variable chardet_detect : bytes -> option string.

Abbreviation pick_stdout := (pick_stdout lookup_codec chardet_detect).
Abbreviation pick_stderr := (pick_stderr lookup_codec chardet_detect).
Abbreviation wait_loop := (wait_loop lookup_codec chardet_detect).
Abbreviation _wait := (_wait lookup_codec chardet_detect).
Abbreviation run := (run lookup_codec chardet_detect).
Abbreviation wstep := (wstep lookup_codec chardet_detect).

(** [_wait] does not stay in its loop when the child exits. *)
Lemma wait_never_spins (fuel : nat) (timeout : option Z)
    (del_tmpfile : bool) (self : PopenProcMgr) (w : World) :
  writes_in_file w -> will_exit w ->
  (_merget_option self = true -> _stderr_manager self = _stdout_manager self) ->
  rounds_bound self w < fuel ->
  fst (_wait fuel timeout del_tmpfile (self, w)) <> Spinning.
Proof.
  intros I E Wf B.
  unfold Proc._wait. rewrite bind_run.
  assert (PRE : exists end_time w0,
    (if truthy timeout
     then t ← monotonic; mret (t + default 0%Z timeout)%Z
     else mret 0%Z) (self, w) = (Return end_time, (self, w0))
    /\ rtc (wstep self) w w0).
  { destruct (truthy timeout).
    - rewrite bind_run, monotonic_eq. do 2 eexists. split; [reflexivity|].
      eapply rtc_l; [apply step_look|]. apply wsteps_record.
    - exists 0%Z, w. split; [reflexivity|constructor]. }
  destruct PRE as (end_time & w0 & -> & S0). rewrite bind_run.
  fold (wait_loop fuel timeout end_time [] []).
  destruct (wsteps_effect lookup_codec chardet_detect self _ _ S0) as (I0 & E0 & _).
  destruct (I0 I) as [I0' B0].
  pose proof (wait_loop_ends lookup_codec chardet_detect self fuel timeout end_time
                [] [] w0 I0' (E0 E) Wf ltac:(lia)) as NS.
  destruct (wait_loop_steps lookup_codec chardet_detect self fuel timeout end_time
              [] [] w0) as (r & w1 & EQ & _ & R1 & _).
  rewrite EQ in NS |- *. cbn [fst] in NS.
  destruct r as [[o e]|ex|]; [|done|done].
  destruct (R1 o e eq_refl) as [[pid P] _]. cbv beta iota.
  rewrite bind_run, (get_returncode_eq self w1 pid P), bind_run.
  destruct (clean_eq lookup_codec chardet_detect self del_tmpfile (tick w1) pid P)
    as (rk & w2 & _ & _ & ->). done.
Qed.

(** X16. [_wait] comes to an end whenever the child has exited or is
    going to: if no write handle stands behind the end of its file and
    a controller in merge mode has one manager for both streams, then
    with fuel for more rounds than the outside has moves left, twice
    the bytes it will still write and the bytes still unread, the call
    does not stay in its loop. Without a timeout, on a started
    controller, it then returns a result or fails on a line it cannot
    read. *)
Theorem wait_ends_when_the_child_exits (fuel : nat) (timeout : option Z)
    (del_tmpfile : bool) (self : PopenProcMgr) (w : World) :
  writes_in_file w -> will_exit w ->
  (_merget_option self = true -> _stderr_manager self = _stdout_manager self) ->
  rounds_bound self w < fuel ->
  fst (_wait fuel timeout del_tmpfile (self, w)) <> Spinning
  /\ (truthy timeout = false -> is_Some (_popen self) ->
      match fst (_wait fuel timeout del_tmpfile (self, w)) with
      | Return _ | Raise (ReadError _) => True
      | _ => False
      end).
Proof.
  intros I E Wf B.
  pose proof (wait_never_spins fuel timeout del_tmpfile self w I E Wf B) as NS.
  split; [exact NS|]. intros T [pid P].
  destruct (wait_run lookup_codec chardet_detect fuel timeout del_tmpfile self w)
    as (pre & w0 & end_time & r & w1 & d & _ & _ & _ & _ & Sh & R).
  destruct r as [[o e]|[msg|c tmo o e|e]|].
  - destruct R as (rc & w2 & -> & _). done.
  - destruct Sh as [Sh _]. congruence.
  - destruct Sh as (_ & _ & Sh & _). congruence.
  - by rewrite R.
  - by rewrite R in NS.
Qed.

(** X13. In merge mode the stderr list of [_wait] is always empty, in
    the result it returns and in the [TimeoutError] it raises; and a
    controller built with [merge_std_output] and started has given the
    child one manager for both descriptors, so what the child writes
    to its stderr lands in the stdout file, at the place and in the
    order of the writes. *)
Theorem merge_puts_stderr_into_stdout (fuel : nat) (timeout : option Z)
    (del_tmpfile : bool) :
  (forall self w,
     _merget_option self = true ->
     match fst (_wait fuel timeout del_tmpfile (self, w)) with
     | Return res => stderr res = []
     | Raise (TimeoutError c tmo o e) => e = []
     | _ => True
     end)
  /\ (forall exe args stdout_size stderr_size label pid stdin_file self0 w,
        let r := (__init__ exe args true true true stdout_size stderr_size label;;
                  start pid stdin_file) (self0, w) in
        fst r = Return tt
        /\ _merget_option (fst (snd r)) = true
        /\ child_stderr (snd (snd r)) = child_stdout (snd (snd r))
        /\ _stderr_manager (fst (snd r)) = _stdout_manager (fst (snd r))
        /\ (exists l, _stdout_manager (fst (snd r)) = Some l
                      /\ child_stdout (snd (snd r)) = Some l
                      /\ heap (snd (snd r)) !! l
                         = Some (new_manager label ".popen.stdout" stdout_size))
        /\ forall data,
             act (snd (snd r)) (Write STDERR data) = act (snd (snd r)) (Write STDOUT data)).
Proof.
  split.
  - intros self w Mg.
    destruct (wait_effect lookup_codec chardet_detect self fuel timeout del_tmpfile w)
      as (w1 & _ & R).
    destruct (fst (_wait fuel timeout del_tmpfile (self, w))) as [res|[msg|c tmo o e|e]|];
      try done.
    + destruct R as (_ & _ & _ & R). by apply R.
    + destruct R as (_ & R). by apply R.
  - intros. subst r. unfold __init__, start, _setup_output_manager, allocate. run_simpl.
    cbn. split_and!; try done.
    eexists. split_and!; try done. by rewrite lookup_insert_eq.
Qed.

Lemma tear_down_flags d m :
  closed (tear_down d m) = true /\ monitoring (tear_down d m) = false
  /\ on_disk (tear_down d m) = (on_disk m && negb d)
  /\ file (tear_down d m) = file m /\ _max_size (tear_down d m) = _max_size m.
Proof. unfold tear_down. destruct d; cbn; by rewrite ?andb_true_r, ?andb_false_r. Qed.

Lemma torn_lookup d self w l :
  heap (torn d self w) !! l
  = (if bool_decide (_stdout_manager self = Some l \/ _stderr_manager self = Some l)
     then (fun m => if bool_decide (_stdout_manager self = Some l
                                    /\ _stderr_manager self = Some l)
                    then tear_down d (tear_down d m) else tear_down d m)
     else id) <$> heap w !! l.
Proof.
  unfold torn, tear_at. cbn [heap set_heap].
  destruct (_stdout_manager self) as [lo|], (_stderr_manager self) as [le|].
  - destruct (decide (lo = l)) as [->|Ho], (decide (le = l)) as [->|He].
    + rewrite !lookup_alter_eq. rewrite bool_decide_true by (by left).
      rewrite bool_decide_true by done. by destruct (heap w !! l).
    + rewrite lookup_alter_ne, lookup_alter_eq by done.
      rewrite bool_decide_true by (by left).
      rewrite bool_decide_false by (intros [_ [= ?]]; done). done.
    + rewrite lookup_alter_eq, lookup_alter_ne by done.
      rewrite bool_decide_true by (by right).
      rewrite bool_decide_false by (intros [[= ?] _]; done). done.
    + rewrite !lookup_alter_ne by done.
      rewrite bool_decide_false by (intros [[= ?]|[= ?]]; done).
      by destruct (heap w !! l).
  - destruct (decide (lo = l)) as [->|Ho].
    + rewrite lookup_alter_eq. rewrite bool_decide_true by (by left).
      rewrite bool_decide_false by (by intros [_ ?]). done.
    + rewrite lookup_alter_ne by done.
      rewrite bool_decide_false by (intros [[= ?]|?]; done).
      by destruct (heap w !! l).
  - destruct (decide (le = l)) as [->|He].
    + rewrite lookup_alter_eq. rewrite bool_decide_true by (by right).
      rewrite bool_decide_false by (by intros [? _]). done.
    + rewrite lookup_alter_ne by done.
      rewrite bool_decide_false by (intros [?|[= ?]]; done).
      by destruct (heap w !! l).
  - rewrite bool_decide_false by (by intros [?|?]). by destruct (heap w !! l).
Qed.

Lemma wait_unstarted fuel timeout del_tmpfile self w :
  _popen self = None -> _stdout_manager self = None -> _stderr_manager self = None ->
  fst (_wait (S fuel) timeout del_tmpfile (self, w))
  = Raise (AssertionError "Process is not started.").
Proof.
  intros P O E. unfold Proc._wait. rewrite bind_run.
  assert (PRE : exists end_time w0,
    (if truthy timeout
     then t ← monotonic; mret (t + default 0%Z timeout)%Z
     else mret 0%Z) (self, w) = (Return end_time, (self, w0))).
  { destruct (truthy timeout).
    - rewrite bind_run, monotonic_eq. by do 2 eexists.
    - by exists 0%Z, w. }
  destruct PRE as (end_time & w0 & ->). rewrite bind_run.
  fold (wait_loop (S fuel) timeout end_time [] []).
  rewrite wait_loop_round, bind_run.
  unfold still_remain_output_to_read at 1. rewrite bind_run. unfold get_self at 1.
  cbn [fst snd]. rewrite O, E. run_simpl. cbn [orb].
  by rewrite (is_living_unstarted self _ P).
Qed.

Lemma start_unstarted pid stdin_file self w :
  _popen self = None ->
  fst (start pid stdin_file (self, w)) = Return tt
  /\ _popen (fst (snd (start pid stdin_file (self, w)))) = Some pid.
Proof.
  intros P. unfold start, _setup_output_manager, allocate. run_simpl. rewrite P.
  cbn.
  destruct (_stdout_collect_option self), (_stderr_collect_option self),
    (_merget_option self); cbn; by destruct (_call_back self).
Qed.

(** X14. When [_wait] returns a result it leaves the controller
    detached: no process and no managers. The managers it held are
    closed, their monitors told to stop and, with [del_tmpfile], their
    files removed; no other manager is closed or loses its file. From
    then on the picks give nothing, the return code of the object is
    [None], a further wait fails on the assertion that the process is
    started, [clean] changes nothing and [start] works again. *)
Theorem wait_detaches_and_tears_down (fuel : nat) (timeout : option Z)
    (del_tmpfile : bool) (self : PopenProcMgr) (w : World)
    (res : ProcResult) (s' : PopenProcMgr * World) :
  _wait fuel timeout del_tmpfile (self, w) = (Return res, s') ->
  fst s' = cleaned self
  /\ (forall l m, heap w !! l = Some m ->
        exists m', heap (snd s') !! l = Some m'
          /\ if bool_decide (_stdout_manager self = Some l \/ _stderr_manager self = Some l)
             then closed m' = true /\ monitoring m' = false
                  /\ on_disk m' = (on_disk m && negb del_tmpfile)
             else on_disk m' = on_disk m /\ closed m' = closed m
                  /\ monitoring m' = monitoring m)
  /\ (forall n k strict_decode_mode,
        pick_stdout n k strict_decode_mode s' = (Return ([], 0), s')
        /\ pick_stderr n k strict_decode_mode s' = (Return ([], 0), s'))
  /\ get_returncode s' = (Return None, s')
  /\ (forall fuel' timeout' del_tmpfile',
        fst (_wait (S fuel') timeout' del_tmpfile' s')
        = Raise (AssertionError "Process is not started."))
  /\ (forall delete_output_file, clean delete_output_file s' = (Return tt, s'))
  /\ (forall pid stdin_file, fst (start pid stdin_file s') = Return tt).
Proof.
  intros EQ.
  destruct (wait_effect lookup_codec chardet_detect self fuel timeout del_tmpfile w)
    as (w1 & S1 & R).
  rewrite EQ in R. cbn [fst snd] in R. destruct R as (-> & _ & _ & _).
  cbn [fst snd]. split; [done|]. split; [|split_and!].
  - intros l m H.
    destruct (wsteps_moves lookup_codec chardet_detect self _ _ S1) as (d & _ & SM & _).
    specialize (SM l). rewrite H in SM.
    destruct (heap w1 !! l) as [m1|] eqn:H1; [|done].
    destruct SM as (D1 & C1 & M1 & _).
    rewrite torn_lookup, H1. cbn [fmap option_fmap option_map].
    eexists. split; [reflexivity|].
    case_bool_decide; [|by cbn].
    case_bool_decide.
    + destruct (tear_down_flags del_tmpfile (tear_down del_tmpfile m1)) as (-> & -> & -> & _).
      destruct (tear_down_flags del_tmpfile m1) as (_ & _ & -> & _).
      rewrite D1. by destruct (on_disk m), del_tmpfile.
    + destruct (tear_down_flags del_tmpfile m1) as (-> & -> & -> & _). by rewrite D1.
  - intros n k sd. unfold Proc.pick_stdout, Proc.pick_stderr. run_simpl.
    unfold cleaned. cbn. by destruct (_merget_option self).
  - done.
  - intros. by apply wait_unstarted.
  - intros. by apply clean_unstarted.
  - intros. by apply start_unstarted.
Qed.

(** What [start] does to a controller that is not attached. *)
Lemma start_effect pid stdin_file self w :
  _popen self = None -> uncollected_unbound self ->
  let r := start pid stdin_file (self, w) in
  fst r = Return tt
  /\ _popen (fst (snd r)) = Some pid
  /\ _merget_option (fst (snd r)) = _merget_option self
  /\ child (snd (snd r)) = Some Running
  /\ child_stdout (snd (snd r)) = _stdout_manager (fst (snd r))
  /\ child_stderr (snd (snd r)) = _stderr_manager (fst (snd r))
  /\ (is_Some (_stdout_manager (fst (snd r))) <-> _stdout_collect_option self = true)
  /\ (is_Some (_stderr_manager (fst (snd r)))
      <-> _stderr_collect_option self = true
          /\ (_merget_option self = true -> _stdout_collect_option self = true))
  /\ (forall l, _stdout_manager (fst (snd r)) = Some l ->
        next w <= l
        /\ heap (snd (snd r)) !! l
           = Some (new_manager (_proc_label self) ".popen.stdout" (stdout_buffer_size self)))
  /\ (forall l, _stderr_manager (fst (snd r)) = Some l ->
        next w <= l
        /\ heap (snd (snd r)) !! l
           = Some (if _merget_option self
                   then new_manager (_proc_label self) ".popen.stdout"
                          (stdout_buffer_size self)
                   else new_manager (_proc_label self) ".popen.stderr"
                          (stderr_buffer_size self)))
  /\ (forall l, l < next w -> heap (snd (snd r)) !! l = heap w !! l)
  /\ next w <= next (snd (snd r)).
Proof.
  intros P [Uo Ue]. cbv zeta.
  unfold start, _setup_output_manager, allocate. run_simpl. rewrite P. cbn.
  destruct (_stdout_collect_option self) eqn:CO, (_stderr_collect_option self) eqn:CE,
    (_merget_option self) eqn:MG; cbn; rewrite ?Uo, ?Ue by done;
    destruct (_call_back self); cbn.
  all: split_and!; try done; try (by split; [intros []|]); try (by split; [|eauto]).
  all: try (split; [by intros []|intros [? ?]; try done; by eauto]).
  all: try (split; [intros _; by split|by eauto]).
  all: try (split; [by intros [? ?]|intros [_ H]; by specialize (H eq_refl)]).
  all: try (intros l [= <-]; split; [lia|]).
  all: try (intros l Hl).
  all: rewrite ?lookup_insert_eq; try done.
  all: try (rewrite !lookup_insert_ne by lia; done).
  all: try lia.
  all: try (rewrite lookup_insert_ne by lia; by rewrite lookup_insert_eq).
Qed.

(** What [__init__] leaves when it returns. *)
Lemma init_effect exe args co ce merge so se label self0 w :
  let i := __init__ exe args co ce merge so se label (self0, w) in
  fst i = Return tt ->
  _popen (fst (snd i)) = None
  /\ uncollected_unbound (fst (snd i))
  /\ _proc_label (fst (snd i)) = label
  /\ next w <= next (snd (snd i))
  /\ forall l, _stdout_manager (fst (snd i)) = Some l \/ _stderr_manager (fst (snd i)) = Some l ->
       l < next (snd (snd i))
       /\ exists m, heap (snd (snd i)) !! l = Some m /\ on_disk m = true /\ file m = [].
Proof.
  cbv zeta. intros R. split_and!.
  - revert R. unfold __init__, _setup_output_manager, allocate. run_simpl.
    destruct co, ce, merge; by cbn.
  - apply init_unbound.
  - revert R. unfold __init__, _setup_output_manager, allocate. run_simpl.
    destruct co, ce, merge; by cbn.
  - revert R. unfold __init__, _setup_output_manager, allocate. run_simpl.
    destruct co, ce, merge; cbn; try done; lia.
  - revert R. unfold __init__, _setup_output_manager, allocate. run_simpl.
    destruct co, ce, merge; cbn; try done; intros _ l [[= <-]|[= <-]];
      (split; [lia|]); eexists;
      rewrite ?lookup_insert_eq; try (split; [reflexivity|done]).
    all: rewrite lookup_insert_ne by lia; rewrite lookup_insert_eq; by split.
Qed.


(** X12. The managers the constructor creates are never used:
    [start] creates new ones, and [run] leaves the files of the
    constructor's managers on disk, however it ends and whatever
    [del_tmpfile] says, in the hands of nobody: the controller does
    not hold them any more, so that no later [clean] removes them. *)
Theorem run_leaves_constructor_files (exe : string) (args : list string)
    (co ce merge : bool) (stdout_size stderr_size : Z) (label : string)
    (self0 : PopenProcMgr) (w : World)
    (fuel pid : nat) (timeout : option Z) (del_tmpfile : bool) :
  let i := __init__ exe args co ce merge stdout_size stderr_size label (self0, w) in
  let r := run fuel pid timeout del_tmpfile (snd i) in
  fst i = Return tt ->
  forall l,
    _stdout_manager (fst (snd i)) = Some l \/ _stderr_manager (fst (snd i)) = Some l ->
    (exists m, heap (snd (snd i)) !! l = Some m /\ on_disk m = true /\ file m = [])
    /\ (exists m', heap (snd (snd r)) !! l = Some m' /\ on_disk m' = true)
    /\ _stdout_manager (fst (snd r)) <> Some l
    /\ _stderr_manager (fst (snd r)) <> Some l.
Proof.
  cbv zeta. intros R l Hl.
  destruct (init_effect exe args co ce merge stdout_size stderr_size label self0 w R)
    as (P & U & _ & _ & B).
  destruct (B l Hl) as (Lt & m & Hm & D & F). clear B Hl R.
  destruct (snd (__init__ exe args co ce merge stdout_size stderr_size label (self0, w)))
    as [self1 w1]. cbn [fst snd] in *.
  split; [by exists m|].
  unfold Proc.run. rewrite bind_run.
  destruct (start_effect pid false self1 w1 P U)
    as (S1 & _ & _ & _ & _ & _ & _ & _ & S9 & S10 & S11 & _).
  destruct (start pid false (self1, w1)) as [r1 [self2 w2]]. cbn [fst snd] in *. subst r1.
  assert (No : _stdout_manager self2 <> Some l).
  { intros H. destruct (S9 l H). lia. }
  assert (Ne : _stderr_manager self2 <> Some l).
  { intros H. destruct (S10 l H). lia. }
  fold (_wait fuel timeout del_tmpfile).
  destruct (wait_effect lookup_codec chardet_detect self2 fuel timeout del_tmpfile w2)
    as (w3 & St & R3).
  destruct (wsteps_moves lookup_codec chardet_detect self2 _ _ St) as (d & _ & SM & _).
  specialize (SM l). rewrite (S11 l Lt), Hm in SM.
  destruct (heap w3 !! l) as [m3|] eqn:H3; [|done]. destruct SM as (D3 & _).
  assert (T : heap (torn del_tmpfile self2 w3) !! l = Some m3).
  { rewrite torn_lookup, H3. by rewrite bool_decide_false by (by intros [?|?]). }
  destruct (fst (_wait fuel timeout del_tmpfile (self2, w2))) as [res|ex|].
  - destruct R3 as (-> & _). cbn [fst snd]. split; [|done].
    exists m3. split; [exact T|congruence].
  - destruct R3 as (-> & _). cbn [fst snd]. split; [|done].
    exists m3. split; [exact H3|congruence].
  - rewrite R3. cbn [fst snd]. split; [|done].
    exists m3. split; [exact H3|congruence].
Qed.

Lemma writes_in_file_insert l m n w :
  writes_in_file w -> write_tell m <= length (file m) ->
  writes_in_file (set_next n (set_heap (<[l := m]> (heap w)) w)).
Proof.
  intros I H l' m'. cbn. rewrite lookup_insert. case_decide; [|apply I].
  by intros [= <-].
Qed.

(** What the constructor and [start] leave for the wait. *)
Lemma started_ready exe args co ce merge so se label self0 w pid stdin_file :
  let i := __init__ exe args co ce merge so se label (self0, w) in
  let r := start pid stdin_file (snd i) in
  fst i = Return tt -> writes_in_file w ->
  fst r = Return tt
  /\ writes_in_file (snd (snd r))
  /\ script (snd (snd r)) = script w
  /\ child (snd (snd r)) = Some Running
  /\ unread_at (_stdout_manager (fst (snd r))) (snd (snd r)) = 0
  /\ unread_at (_stderr_manager (fst (snd r))) (snd (snd r)) = 0
  /\ (_merget_option (fst (snd r)) = true ->
      _stderr_manager (fst (snd r)) = _stdout_manager (fst (snd r))).
Proof.
  cbv zeta. unfold __init__, start, _setup_output_manager, allocate. run_simpl.
  intros R I.
  assert (N : forall prefix suffix size,
            write_tell (new_manager prefix suffix size)
            <= length (file (new_manager prefix suffix size))) by (intros; cbn; lia).
  destruct co, ce, merge; cbn in R |- *; try done.
  all: split_and!; try done.
  all: try (intros l m; cbn; rewrite !lookup_insert; repeat case_decide;
            try (intros [= <-]; cbn; lia); apply I).
  all: unfold unread_at; cbn; rewrite ?lookup_insert_eq; try done.
  all: try (rewrite lookup_insert_ne by lia; by rewrite lookup_insert_eq).
Qed.

(** X17. [run] on a controller as the constructor leaves it comes
    back whenever the child exits: in a world where no write handle
    stands behind the end of its file and the child is going to exit,
    with fuel for more rounds than the outside has moves left plus
    twice the bytes the child will write, [run] returns or raises; it
    does not stay in its loop. *)
Theorem run_ends_when_the_child_exits (exe : string) (args : list string)
    (co ce merge : bool) (stdout_size stderr_size : Z) (label : string)
    (self0 : PopenProcMgr) (w : World)
    (fuel pid : nat) (timeout : option Z) (del_tmpfile : bool) :
  let i := __init__ exe args co ce merge stdout_size stderr_size label (self0, w) in
  fst i = Return tt ->
  writes_in_file w ->
  (exists rc, Exit rc ∈ concat (script w)) ->
  length (script w) + 2 * script_bytes (script w) < fuel ->
  fst (run fuel pid timeout del_tmpfile (snd i)) <> Spinning.
Proof.
  cbv zeta. intros R I [rc X] F.
  destruct (started_ready exe args co ce merge stdout_size stderr_size label self0 w
              pid false R I) as (S1 & S2 & S3 & S4 & S5 & S6 & S7).
  unfold Proc.run. rewrite bind_run.
  destruct (start pid false
              (snd (__init__ exe args co ce merge stdout_size stderr_size label (self0, w))))
    as [r1 [self2 w2]]. cbn [fst snd] in *. subst r1.
  fold (_wait fuel timeout del_tmpfile).
  apply wait_never_spins; try done.
  - unfold will_exit. rewrite S4, S3. by exists rc.
  - unfold rounds_bound. rewrite S3, S5, S6. lia.
Qed.

End WaitFacts.

(** X16, witness: a child that writes a line to each stream and exits. *)
Lemma wait_ends_when_the_child_exits_witness :
  let s := started true true false quick_child in
  fst (_wait small_registry (toy_detect false) 40 None true s) <> Spinning
  /\ (truthy None = false -> is_Some (_popen (fst s)) ->
      match fst (_wait small_registry (toy_detect false) 40 None true s) with
      | Return _ | Raise (ReadError _) => True
      | _ => False
      end).
Proof.
  apply (wait_ends_when_the_child_exits small_registry (toy_detect false) 40 None true
           (fst (started true true false quick_child))
           (snd (started true true false quick_child))).
  - intros l m. apply (map_Forall_lookup_1 (fun _ m => write_tell m <= length (file m))).
    apply (bool_decide_unpack _). vm_compute. reflexivity.
  - vm_compute. exists 3%Z. repeat constructor.
  - discriminate.
  - vm_compute. lia.
Defined.

(** X13, witness: the merged controller of the examples. *)
Lemma merge_puts_stderr_into_stdout_witness :
  match fst (_wait small_registry (toy_detect false) 10 None true
               (started true true true quick_child)) with
  | Return res => stderr res = []
  | Raise (TimeoutError c tmo o e) => e = []
  | _ => True
  end.
Proof.
  destruct (merge_puts_stderr_into_stdout small_registry (toy_detect false) 10 None true)
    as [H _].
  apply (H (fst (started true true true quick_child))
           (snd (started true true true quick_child))).
  reflexivity.
Defined.

(** X14, witness: the controller of the examples after its wait. *)
Lemma wait_detaches_and_tears_down_witness :
  let s := started true true false quick_child in
  let s' := snd (_wait small_registry (toy_detect false) 10 None true s) in
  fst s' = cleaned (fst s)
  /\ get_returncode s' = (Return None, s')
  /\ fst (_wait small_registry (toy_detect false) 1 None true s')
     = Raise (AssertionError "Process is not started.").
Proof.
  cbv zeta.
  destruct (wait_detaches_and_tears_down small_registry (toy_detect false) 10 None true
              (fst (started true true false quick_child))
              (snd (started true true false quick_child))
              {| returncode := Some 3%Z; stdout := [t_ "a"]; stderr := [t_ "warn"] |}
              (snd (_wait small_registry (toy_detect false) 10 None true
                      (started true true false quick_child))))
    as (H1 & _ & _ & H4 & H5 & _).
  - vm_compute. reflexivity.
  - split; [exact H1|]. split; [exact H4|]. apply (H5 0 None true).
Defined.


(** X12, witness: the stdout manager of the constructor in the run of
    the examples. *)
Lemma run_leaves_constructor_files_witness :
  let i := __init__ "/bin/bash" ["-c"; "job"]%string true true false BUFFER BUFFER "tmp"
             (blank, quiet true quick_child) in
  let r := run small_registry (toy_detect false) 10 7 None true (snd i) in
  _stdout_manager (fst (snd i)) = Some 0
  /\ (exists m', heap (snd (snd r)) !! 0 = Some m' /\ on_disk m' = true)
  /\ _stdout_manager (fst (snd r)) <> Some 0.
Proof.
  cbv zeta. split; [reflexivity|].
  destruct (run_leaves_constructor_files small_registry (toy_detect false)
              "/bin/bash" ["-c"; "job"]%string true true false BUFFER BUFFER "tmp"
              blank (quiet true quick_child) 10 7 None true eq_refl 0)
    as (_ & H2 & H3 & _); [by left|].
  by split.
Defined.

(** X17, witness: the run of the examples. *)
Lemma run_ends_when_the_child_exits_witness :
  fst (run small_registry (toy_detect false) 20 7 None true
         (snd (__init__ "/bin/bash" ["-c"; "job"]%string true true false
                 BUFFER BUFFER "tmp" (blank, quiet true quick_child))))
  <> Spinning.
Proof.
  apply (run_ends_when_the_child_exits small_registry (toy_detect false)
           "/bin/bash" ["-c"; "job"]%string true true false BUFFER BUFFER "tmp"
           blank (quiet true quick_child) 20 7 None true).
  - reflexivity.
  - intros l m. cbn. by rewrite lookup_empty.
  - exists 3%Z. vm_compute. repeat constructor.
  - vm_compute. lia.
Defined.

(* ===================================================================== *)
(** ** The controller: the exit test of the loop *)
(* ===================================================================== *)

Ltac world_norm :=
  cbv [mret M_ret picked_at tick fold_left act fd_target living exit_code set_heap set_next set_child
       set_fds set_now set_script set_journal heap next child child_stdout
       child_stderr kill_works now script journal].

Ltac world_norm_in H :=
  cbv [mret M_ret picked_at tick fold_left act fd_target living exit_code set_heap set_next set_child
       set_fds set_now set_script set_journal heap next child child_stdout
       child_stderr kill_works now script journal] in H.

Section ExitTest.

Variable lookup_codec : string -> option Codec.
Variable chardet_detect : bytes -> option string.

Abbreviation wait_loop := (wait_loop lookup_codec chardet_detect).
Abbreviation _wait := (_wait lookup_codec chardet_detect).

Lemma unread_tear_down d m : unread (tear_down d m) = unread m.
Proof. unfold tear_down. by destruct d. Qed.

Lemma still_remain_both self lo le w :
  _stdout_manager self = Some lo -> _stderr_manager self = Some le ->
  still_remain_output_to_read (self, w)
  = (Return (negb (is_stream_end (heap (tick w) !!! lo))
             || negb (is_stream_end (heap (tick (tick w)) !!! le))),
     (self, set_journal
              (journal (tick (tick w))
                 ++ [Backlog (negb (is_stream_end (heap (tick w) !!! lo))
                              || negb (is_stream_end (heap (tick (tick w)) !!! le)))])
              (tick (tick w)))).
Proof. intros O E. unfold still_remain_output_to_read. run_simpl. by rewrite O, E. Qed.

(** X19. The test of the loop is not one look at the world: the
    streams are asked first, the process afterwards. What the child
    writes after both streams were found at their end and before it
    is found to have exited is never read: [_wait] returns with empty
    lists and the exit code, closes the manager and, with
    [del_tmpfile], removes the file that holds the bytes. *)
Theorem wait_loses_output_written_before_exit (fuel pid lo le : nat)
    (del_tmpfile : bool) (self : PopenProcMgr) (w : World)
    (mo : _StdStreamManager) (data : bytes) (rc : Z) :
  _popen self = Some pid ->
  _stdout_manager self = Some lo -> _stderr_manager self = Some le ->
  child w = Some Running -> child_stdout w = Some lo ->
  script w = [[]; []; [Write STDOUT data; Exit rc]] ->
  heap w !! lo = Some mo ->
  write_tell mo = length (file mo) ->
  tell (_stream_text_parser mo) = length (file mo) ->
  is_stream_end (heap w !!! le) = true ->
  let r := _wait (S fuel) None del_tmpfile (self, w) in
  fst r = Return {| returncode := Some rc; stdout := []; stderr := [] |}
  /\ fst (snd r) = cleaned self
  /\ exists m', heap (snd (snd r)) !! lo = Some m'
       /\ unread m' = data
       /\ closed m' = true
       /\ on_disk m' = (on_disk mo && negb del_tmpfile).
Proof.
  intros P O E C F S Ho Wt Rt Ee.
  assert (Eo : is_stream_end (heap w !!! lo) = true).
  { rewrite (lookup_total_correct _ _ _ Ho). unfold is_stream_end, reach_end.
    apply Nat.leb_le. lia. }
  assert (U : unread (child_write data mo) = data).
  { rewrite unread_child_write by (split; lia). unfold unread.
    by rewrite Rt, drop_all. }
  destruct w as [h nx ch co ce kw nw sc jn]. cbn in C, F, S, Ho, Ee, Eo. subst ch co sc.
  assert (EQ : exists j,
    _wait (S fuel) None del_tmpfile
      (self, {| heap := h; next := nx; child := Some Running; child_stdout := Some lo;
                child_stderr := ce; kill_works := kw; now := nw;
                script := [[]; []; [Write STDOUT data; Exit rc]]; journal := jn |})
    = (Return {| returncode := Some rc; stdout := []; stderr := [] |},
       (cleaned self,
        torn del_tmpfile self
          {| heap := alter (child_write data) lo h; next := nx;
             child := Some (Exited rc); child_stdout := Some lo; child_stderr := ce;
             kill_works := kw; now := nw; script := []; journal := j |}))).
  { unfold Proc._wait. cbn [truthy]. rewrite bind_run.
    change ((mret 0%Z : M Z) ?s) with (Return 0%Z, s). cbv beta iota. rewrite bind_run.
    fold (wait_loop (S fuel) None 0 [] []).
    rewrite wait_loop_round, bind_run.
    rewrite (still_remain_both self lo le _ O E).
    world_norm. rewrite Eo, Ee. cbn [negb orb].
    rewrite ?bind_run, (is_living_eq self _ pid P).
    world_norm.
    rewrite ?bind_run, (get_returncode_eq self _ pid P).
    world_norm.
    rewrite ?bind_run.
    match goal with |- context [clean del_tmpfile (self, ?W)] =>
      destruct (clean_eq lookup_codec chardet_detect self del_tmpfile W pid P)
        as (rk & w2 & EK & _ & ->);
      rewrite (kill_eq self W pid P) in EK
    end.
    cbv zeta in EK. world_norm_in EK. injection EK as <- <-.
    eexists. reflexivity. }
  destruct EQ as [j EQ]. cbv zeta. rewrite EQ. cbn [fst snd].
  split; [done|]. split; [done|].
  rewrite torn_lookup. cbn [heap].
  rewrite lookup_alter_eq, Ho. cbn [fmap option_fmap option_map].
  rewrite bool_decide_true by (by left).
  eexists. split; [reflexivity|].
  case_bool_decide.
  - rewrite !unread_tear_down.
    destruct (tear_down_flags del_tmpfile (tear_down del_tmpfile (child_write data mo)))
      as (-> & _ & -> & _).
    destruct (tear_down_flags del_tmpfile (child_write data mo)) as (_ & _ & -> & _).
    split_and!; try done. cbn. by destruct (on_disk mo), del_tmpfile.
  - rewrite !unread_tear_down.
    destruct (tear_down_flags del_tmpfile (child_write data mo)) as (-> & _ & -> & _).
    by split_and!.
Qed.

End ExitTest.

(* ===================================================================== *)
(** ** The controller: output that is complete before the wait *)
(* ===================================================================== *)

Section CompleteOutput.

Variable lookup_codec : string -> option Codec.
Variable chardet_detect : bytes -> option string.

Abbreviation pick_lines := (pick_lines lookup_codec chardet_detect).
Abbreviation wait_loop := (wait_loop lookup_codec chardet_detect).
Abbreviation round_body := (round_body lookup_codec chardet_detect).
Abbreviation _wait := (_wait lookup_codec chardet_detect).

(** A pick with the arguments of the loop takes all the plain lines
    that are left to read. *)
Lemma pick_lines_unread_plain m lines_left s :
  tell (_stream_text_parser m) <= length (file m) ->
  unread m = concat (map with_nl lines_left) ->
  Forall plain_line lines_left ->
  lookup_codec (encoding (enter (_stream_text_parser m))) = Some utf8 ->
  pick_lines m (-1) (-1) s
  = (inr (map (map Byte.to_N) lines_left, length (unread m)),
     with_parser (seek (length (file m)) (_stream_text_parser m)) m).
Proof.
  intros T U Hp Hc. rewrite pick_lines_parts.
  unfold readlines, run_readlines. fold (unread m). rewrite U.
  rewrite file_lines_terminated
    by (eapply Forall_impl; [exact Hp|]; by intros line (_ & _ & Hn)).
  rewrite (read_loop_plain_lines lookup_codec chardet_detect s
             lines_left (enter (_stream_text_parser m)) Hp Hc).
  frame_simpl. cbn [app Nat.add tell seek fst snd].
  rewrite <- U. unfold unread at 2. rewrite length_drop.
  replace (tell (_stream_text_parser m) + (length (file m) - tell (_stream_text_parser m)))
    with (length (file m)) by lia.
  done.
Qed.

Lemma concat_with_nl_nil (ls : list bytes) : concat (map with_nl ls) = [] -> ls = [].
Proof.
  destruct ls as [|l ls]; [done|]. cbn. unfold with_nl. by destruct l.
Qed.

Lemma stream_end_unread m :
  is_stream_end m = true -> unread m = [].
Proof.
  unfold is_stream_end, reach_end, unread. intros H. apply Nat.leb_le in H.
  by apply drop_ge.
Qed.

(** X18. Output that is complete is returned complete: when the child
    has exited and the outside is at rest, and what is left to read of
    stdout and of stderr are lines that are not blank, ASCII and
    terminated, [_wait] without timeout returns exactly these lines,
    in order, each stream in its list, with the exit code of the
    child; two rounds of the loop are enough. *)
Theorem wait_returns_what_was_written (fuel pid lo le : nat) (del_tmpfile : bool)
    (self : PopenProcMgr) (w : World) (mo me : _StdStreamManager)
    (out_lines err_lines : list bytes) (rc : Z) :
  _popen self = Some pid -> _merget_option self = false ->
  _stdout_manager self = Some lo -> _stderr_manager self = Some le -> lo <> le ->
  script w = [] -> child w = Some (Exited rc) ->
  heap w !! lo = Some mo -> heap w !! le = Some me ->
  tell (_stream_text_parser mo) <= length (file mo) ->
  tell (_stream_text_parser me) <= length (file me) ->
  unread mo = concat (map with_nl out_lines) ->
  unread me = concat (map with_nl err_lines) ->
  Forall plain_line out_lines -> Forall plain_line err_lines ->
  lookup_codec (encoding (enter (_stream_text_parser mo))) = Some utf8 ->
  lookup_codec (encoding (enter (_stream_text_parser me))) = Some utf8 ->
  fst (_wait (S (S fuel)) None del_tmpfile (self, w))
  = Return {| returncode := Some rc;
              stdout := map (map Byte.to_N) out_lines;
              stderr := map (map Byte.to_N) err_lines |}.
Proof.
  intros P Mg O E Ne S C Ho He To Te Uo Ue Po Pe Co Ce.
  destruct w as [h nx ch co ce kw nw sc jn]. cbn in S, C, Ho, He. subst sc ch.
  pose proof (pick_lines_unread_plain mo out_lines false To Uo Po Co) as PKo.
  pose proof (pick_lines_unread_plain me err_lines false Te Ue Pe Ce) as PKe.
  set (mo' := with_parser (seek (length (file mo)) (_stream_text_parser mo)) mo) in *.
  set (me' := with_parser (seek (length (file me)) (_stream_text_parser me)) me) in *.
  assert (Eo' : is_stream_end mo' = true).
  { unfold is_stream_end, reach_end. cbn. by apply Nat.leb_le. }
  assert (Ee' : is_stream_end me' = true).
  { unfold is_stream_end, reach_end. cbn. by apply Nat.leb_le. }
  assert (LAST : forall f h' j out err,
    is_stream_end (h' !!! lo) = true -> is_stream_end (h' !!! le) = true ->
    exists j',
      wait_loop (S f) None 0 out err
        (self, {| heap := h'; next := nx; child := Some (Exited rc); child_stdout := co;
                  child_stderr := ce; kill_works := kw; now := nw; script := [];
                  journal := j |})
      = (Return (out, err),
         (self, {| heap := h'; next := nx; child := Some (Exited rc); child_stdout := co;
                   child_stderr := ce; kill_works := kw; now := nw; script := [];
                   journal := j' |}))).
  { intros f h' j out err H1 H2.
    rewrite wait_loop_round, bind_run, (still_remain_both self lo le _ O E).
    world_norm. rewrite H1, H2. cbn [negb orb].
    rewrite ?bind_run, (is_living_eq self _ pid P). world_norm.
    eexists. reflexivity. }
  assert (TAIL : forall h' j o e,
    fst ((rc0 ← get_returncode;
          clean del_tmpfile;;
          mret {| returncode := rc0; stdout := o; stderr := e |})
           (self, {| heap := h'; next := nx; child := Some (Exited rc); child_stdout := co;
                     child_stderr := ce; kill_works := kw; now := nw; script := [];
                     journal := j |}))
    = Return {| returncode := Some rc; stdout := o; stderr := e |}).
  { intros h' j o e. rewrite bind_run, (get_returncode_eq self _ pid P). world_norm.
    rewrite bind_run.
    match goal with |- context [clean del_tmpfile (self, ?W)] =>
      destruct (clean_eq lookup_codec chardet_detect self del_tmpfile W pid P)
        as (rk & w2 & _ & _ & ->)
    end. done. }
  unfold Proc._wait. cbn [truthy]. rewrite bind_run.
  change ((mret 0%Z : M Z) ?s) with (Return 0%Z, s). cbv beta iota. rewrite bind_run.
  fold (wait_loop (S (S fuel)) None 0 [] []).
  rewrite wait_loop_round, bind_run, (still_remain_both self lo le _ O E).
  world_norm.
  rewrite (lookup_total_correct _ _ _ Ho), (lookup_total_correct _ _ _ He).
  destruct (negb (is_stream_end mo) || negb (is_stream_end me)) eqn:B.
  2:{ apply orb_false_elim in B as [B1 B2].
      apply negb_false_iff in B1, B2.
      apply stream_end_unread in B1, B2. rewrite B1 in Uo. rewrite B2 in Ue.
      symmetry in Uo, Ue. apply concat_with_nl_nil in Uo, Ue. subst out_lines err_lines.
      rewrite ?bind_run, (is_living_eq self _ pid P). world_norm.
      apply TAIL. }
  assert (BODY : forall k j, exists j',
    round_body k None 0 [] []
      (self, {| heap := h; next := nx; child := Some (Exited rc); child_stdout := co;
                child_stderr := ce; kill_works := kw; now := nw; script := [];
                journal := j |})
    = k (map (map Byte.to_N) out_lines) (map (map Byte.to_N) err_lines)
        (self, {| heap := alter (fun _ => mo') lo (alter (fun _ => me') le h);
                  next := nx; child := Some (Exited rc); child_stdout := co;
                  child_stderr := ce; kill_works := kw; now := nw; script := [];
                  journal := j' |})).
  { intros k j. unfold Steps.round_body, Proc.pick_stderr, Proc.pick_stdout.
    rewrite bind_run, bind_run. unfold get_self at 1. cbn [fst snd]. rewrite Mg, E.
    rewrite manager_pick_eq. world_norm.
    rewrite (lookup_total_correct _ _ _ He), PKe. cbn [fst snd].
    rewrite bind_run. unfold record at 1. cbn [fst snd]. rewrite bind_run, drain_eq.
    world_norm.
    rewrite bind_run, bind_run. unfold get_self at 1. cbn [fst snd]. rewrite O.
    rewrite manager_pick_eq. world_norm.
    rewrite lookup_total_alter_ne by done.
    rewrite (lookup_total_correct _ _ _ Ho), PKo. cbn [fst snd].
    rewrite bind_run. unfold record at 1. cbn [fst snd]. rewrite bind_run, drain_eq.
    world_norm. cbn [truthy app]. eexists. reflexivity. }
  rewrite bind_run. cbv beta iota.
  destruct (BODY (wait_loop (S fuel) None 0) (jn ++ [Backlog true])) as [j1 ->].
  destruct (LAST fuel (alter (fun _ => mo') lo (alter (fun _ => me') le h)) j1
              (map (map Byte.to_N) out_lines) (map (map Byte.to_N) err_lines))
    as [j2 ->].
  - rewrite lookup_total_alter_eq, lookup_alter_ne, Ho by done. exact Eo'.
  - rewrite lookup_total_alter_ne, lookup_total_alter_eq, He by done. exact Ee'.
  - apply TAIL.
Qed.

End CompleteOutput.

(** X19, witness: a line written, and the exit, between the two tests
    of the first round. *)
Lemma wait_loses_output_written_before_exit_witness :
  let s := started true true false [[]; []; [Write STDOUT (with_nl (b_ "late")); Exit 0]] in
  let r := _wait small_registry (toy_detect false) 1 None true s in
  fst r = Return {| returncode := Some 0%Z; stdout := []; stderr := [] |}
  /\ fst (snd r) = cleaned (fst s)
  /\ exists m', heap (snd (snd r)) !! 2 = Some m'
       /\ unread m' = with_nl (b_ "late")
       /\ closed m' = true
       /\ on_disk m' = (true && negb true).
Proof.
  apply (wait_loses_output_written_before_exit small_registry (toy_detect false)
           0 7 2 3 true
           (fst (started true true false
                   [[]; []; [Write STDOUT (with_nl (b_ "late")); Exit 0]]))
           (snd (started true true false
                   [[]; []; [Write STDOUT (with_nl (b_ "late")); Exit 0]]))
           (new_manager "tmp" ".popen.stdout" BUFFER) (with_nl (b_ "late")) 0);
    vm_compute; reflexivity.
Defined.

(** X18, witness: the controller of the examples once the child has
    written its two lines and exited. *)
Lemma wait_returns_what_was_written_witness :
  let s := started true true false quick_child in
  fst (_wait small_registry (toy_detect false) 2 None true (fst s, tick (snd s)))
  = Return {| returncode := Some 3%Z;
              stdout := map (map Byte.to_N) [b_ "a"];
              stderr := map (map Byte.to_N) [b_ "warn"] |}.
Proof.
  apply (wait_returns_what_was_written small_registry (toy_detect false) 0 7 2 3 true
           (fst (started true true false quick_child))
           (tick (snd (started true true false quick_child)))
           (child_write (with_nl (b_ "a")) (new_manager "tmp" ".popen.stdout" BUFFER))
           (child_write (with_nl (b_ "warn")) (new_manager "tmp" ".popen.stderr" BUFFER))
           [b_ "a"] [b_ "warn"] 3);
    try (vm_compute; reflexivity); try (vm_compute; lia); try discriminate.
  - repeat constructor; discriminate.
  - repeat constructor; discriminate.
Defined.

(* ===================================================================== *)
(** ** The controller: [clean] *)
(* ===================================================================== *)

Section CleanFacts.

Variable lookup_codec : string -> option Codec.
Variable chardet_detect : bytes -> option string.


End CleanFacts.


(* ===================================================================== *)
(** ** Running bash *)
(* ===================================================================== *)

Section BashFacts.

Variable lookup_codec : string -> option Codec.
Variable chardet_detect : bytes -> option string.

Abbreviation _wait := (_wait lookup_codec chardet_detect).
Abbreviation run := (run lookup_codec chardet_detect).
Abbreviation run_bash_command := (run_bash_command lookup_codec chardet_detect).
Abbreviation run_bash_script := (run_bash_script lookup_codec chardet_detect).

Lemma start_keeps_cmd pid stdin_file self w :
  cmd (fst (snd (start pid stdin_file (self, w)))) = cmd self.
Proof.
  unfold start, _setup_output_manager, allocate. run_simpl.
  destruct (_popen self); [done|]. cbn.
  destruct (_stdout_collect_option self), (_stderr_collect_option self),
    (_merget_option self); cbn; by destruct (_call_back self).
Qed.

(** [run] on a controller as the constructor leaves it. *)
Lemma run_after_init exe args co ce merge so se label self0 w fuel pid timeout del_tmpfile :
  let i := __init__ exe args co ce merge so se label (self0, w) in
  fst i = Return tt ->
  let r := fst (run fuel pid timeout del_tmpfile (snd i)) in
  (forall msg, r <> Raise (AssertionError msg))
  /\ (merge = true ->
      match r with
      | Return res => stderr res = []
      | Raise (TimeoutError c tmo o e) => e = []
      | _ => True
      end)
  /\ (forall c tmo o e, r = Raise (TimeoutError c tmo o e) ->
        c = (exe +:+ " " +:+ String.concat " " args)%string
        /\ timeout = Some tmo /\ tmo <> 0%Z)
  /\ (forall res, r = Return res -> exists rc, returncode res = Some rc).
Proof.
  cbv zeta. intros R.
  destruct (init_effect exe args co ce merge so se label self0 w R) as (P & U & _).
  assert (F : cmd (fst (snd (__init__ exe args co ce merge so se label (self0, w))))
              = (exe +:+ " " +:+ String.concat " " args)%string
              /\ _merget_option (fst (snd (__init__ exe args co ce merge so se label
                                             (self0, w)))) = merge).
  { revert R. unfold __init__, _setup_output_manager, allocate. run_simpl.
    destruct co, ce, merge; by cbn. }
  destruct F as [Fc Fm].
  destruct (snd (__init__ exe args co ce merge so se label (self0, w))) as [self1 w1].
  cbn [fst snd] in *.
  unfold Proc.run. rewrite bind_run.
  destruct (start_effect pid false self1 w1 P U) as (S1 & S2 & S3 & _).
  pose proof (start_keeps_cmd pid false self1 w1) as S4.
  destruct (start pid false (self1, w1)) as [r1 [self2 w2]]. cbn [fst snd] in *. subst r1.
  fold (_wait fuel timeout del_tmpfile).
  destruct (wait_run lookup_codec chardet_detect fuel timeout del_tmpfile self2 w2)
    as (pre & w0 & end_time & r & w3 & d & _ & _ & _ & _ & Sh & RR).
  destruct (wait_effect lookup_codec chardet_detect self2 fuel timeout del_tmpfile w2)
    as (w4 & _ & WE).
  destruct r as [[o e]|[msg|c tmo o e|e]|].
  - destruct RR as (rc & w5 & RR & _). rewrite RR in *. cbn [fst snd] in *.
    split_and!; try done.
    + intros M. destruct WE as (_ & _ & _ & WE). apply WE. congruence.
    + intros res [= <-]. by exists rc.
  - destruct Sh as [Sh _]. congruence.
  - rewrite RR in *. cbn [fst snd] in *. destruct Sh as (-> & -> & T & _).
    split_and!; try done.
    + intros M. destruct WE as (_ & WE). apply WE. congruence.
    + intros c' t' o' e' [= <- <- <- <-]. split; [congruence|]. split; [done|].
      intros ->. done.
  - rewrite RR in *. cbn [fst snd] in *. by split_and!.
  - rewrite RR in *. cbn [fst snd] in *. by split_and!.
Qed.


End BashFacts.


(* ===================================================================== *)
(** ** The argument list and the functions on whole files *)
(* ===================================================================== *)

Section ArgsFacts.

(** X21. [append_args] extends the list object behind [self._args] in
    place, so the change reaches every holder of that object: another
    controller built on the same list, the caller who passed the
    list, and, for a controller built without [args], the default
    list of [__init__] and with it every controller built without
    [args], before or after. A controller on another list is not
    touched. With no arguments [cmd] ends in a space and differs from
    the joined [cmd_list]; with arguments it is the joined
    [cmd_list]. *)
Theorem append_args_reaches_every_holder (path1 path2 : string)
    (args1 args2 : option nat) (extra : nat) (st : list_store) :
  let c1 := construct path1 args1 in
  let c2 := construct path2 args2 in
  let st' := append_args c1 extra st in
  is_Some (st !! holder_args c1) ->
  cmd_list c1 st' = cmd_list c1 st ++ st !!! extra
  /\ (holder_args c2 = holder_args c1 -> cmd_list c2 st' = cmd_list c2 st ++ st !!! extra)
  /\ (holder_args c2 <> holder_args c1 -> cmd_list c2 st' = cmd_list c2 st)
  /\ (args1 = None -> args2 = None ->
      cmd_list c2 st' = cmd_list c2 st ++ st !!! extra
      /\ st' !!! DEFAULT_ARGS = st !!! DEFAULT_ARGS ++ st !!! extra)
  /\ (forall a, args1 = Some a -> st' !!! a = st !!! a ++ st !!! extra)
  /\ cmd_line c1 st
     = (if decide (st !!! holder_args c1 = [])
        then path1 +:+ " "
        else String.concat " " (cmd_list c1 st))%string.
Proof.
  cbv zeta. intros [l Hl].
  assert (A : forall a, a = holder_args (construct path1 args1) ->
              append_args (construct path1 args1) extra st !!! a
              = st !!! a ++ st !!! extra).
  { intros a ->. unfold append_args.
    by rewrite lookup_total_alter_eq, Hl, (lookup_total_correct _ _ _ Hl). }
  split_and!.
  - unfold cmd_list. by rewrite A.
  - intros E. unfold cmd_list. by rewrite A.
  - intros E. unfold cmd_list, append_args. by rewrite lookup_total_alter_ne.
  - intros -> ->. split; [|by apply A]. unfold cmd_list. by rewrite A.
  - intros a ->. by apply A.
  - unfold cmd_line, cmd_list. cbn [holder_path holder_args construct].
    destruct (st !!! default DEFAULT_ARGS args1) as [|x xs]; [done|].
    by rewrite decide_False.
Qed.

End ArgsFacts.

Section ToolsFacts.

Variable lookup_codec : string -> option Codec.
Variable chardet_detect : bytes -> option string.
Variable encode_utf8 : text -> option bytes.

Abbreviation detect_file_encoding := (detect_file_encoding chardet_detect).
Abbreviation trans_bytes_2_utf8 := (trans_bytes_2_utf8 lookup_codec chardet_detect).
Abbreviation trans_file_2_utf8 :=
  (trans_file_2_utf8 lookup_codec chardet_detect encode_utf8).

(** X22. [detect_file_encoding] answers once for each path: the first
    call reads the file, every later call returns what the first one
    returned, whatever has become of the file since. So a path that
    had no file at the first call has no encoding for good, also once
    the file exists. The answers for other paths are not touched. *)
Theorem detect_file_encoding_answers_once (file_path : string) (fs : files)
    (cache : memo) :
  let r := detect_file_encoding file_path fs cache in
  (forall fs', detect_file_encoding file_path fs' (snd r) = (fst r, snd r))
  /\ (cache !! file_path = None -> fst r = detect_file chardet_detect fs file_path)
  /\ (forall other, other <> file_path -> snd r !! other = cache !! other)
  /\ (cache !! file_path = None -> fs !! file_path = None ->
      forall fs', fst (detect_file_encoding file_path fs' (snd r)) = None).
Proof.
  cbv zeta. unfold TextTools.detect_file_encoding.
  destruct (cache !! file_path) as [r|] eqn:C; cbn [fst snd].
  - split_and!; try done. intros fs'. by rewrite C.
  - split_and!; try done.
    + intros fs'. by rewrite lookup_insert_eq.
    + intros other H. by rewrite lookup_insert_ne.
    + intros _ F fs'. rewrite lookup_insert_eq. cbn. unfold detect_file. by rewrite F.
Qed.

(** X23. [trans_file_2_utf8] never changes a file that exists and
    writes to no path but the output path. It returns [True] only
    after writing to a new output file the UTF-8 encoding of the text
    that [trans_bytes_2_utf8] made of the input. When no encoding is
    detected for the input it returns [False] and leaves an empty
    output file behind. And it works once at most: after any call, the
    same call again returns [False] and changes nothing. *)
Theorem trans_file_2_utf8_works_once (file_in_path file_out_path : string)
    (fs : files) :
  let r := trans_file_2_utf8 file_in_path file_out_path fs in
  (forall p, is_Some (fs !! p) -> snd r !! p = fs !! p)
  /\ (forall p, p <> file_out_path -> snd r !! p = fs !! p)
  /\ (fst r = true ->
      exists text t data,
        fs !! file_in_path = Some text /\ fs !! file_out_path = None
        /\ trans_bytes_2_utf8 text = inr (Some t) /\ encode_utf8 t = Some data
        /\ snd r = <[file_out_path := data]> fs)
  /\ (forall text, fs !! file_in_path = Some text -> fs !! file_out_path = None ->
        detect_bytes_encoding chardet_detect text = None ->
        r = (false, <[file_out_path := []]> fs))
  /\ trans_file_2_utf8 file_in_path file_out_path (snd r) = (false, snd r).
Proof.
  cbv zeta.
  destruct (trans_file_2_utf8 file_in_path file_out_path fs) as [b fs'] eqn:R.
  cbn [fst snd]. unfold TextTools.trans_file_2_utf8 in R.
  destruct (fs !! file_in_path) as [text|] eqn:I.
  2:{ injection R as <- <-. split_and!; try done.
      unfold TextTools.trans_file_2_utf8. by rewrite I. }
  case_bool_decide as O.
  { injection R as <- <-. split_and!; try done.
    - intros text' _ H. rewrite H in O. by destruct O.
    - unfold TextTools.trans_file_2_utf8. rewrite I. by rewrite bool_decide_true. }
  assert (O' : fs !! file_out_path = None).
  { destruct (fs !! file_out_path) eqn:X; [|done]. destruct O. eauto. }
  assert (NE : file_in_path <> file_out_path) by congruence.
  assert (AGAIN : forall data,
    trans_file_2_utf8 file_in_path file_out_path (<[file_out_path := data]> fs)
    = (false, <[file_out_path := data]> fs)).
  { intros data. unfold TextTools.trans_file_2_utf8.
    rewrite lookup_insert_ne, I by done.
    rewrite bool_decide_true; [done|]. rewrite lookup_insert_eq. eauto. }
  assert (KEEP : forall data p, is_Some (fs !! p) ->
            <[file_out_path := data]> fs !! p = fs !! p).
  { intros data p [x Hp]. rewrite lookup_insert_ne; [done|]. congruence. }
  destruct (trans_bytes_2_utf8 text) as [e|[t|]] eqn:T.
  - injection R as <- <-. split_and!; try done.
    + intros text' [= <-] _ D. unfold TextTools.trans_bytes_2_utf8 in T.
      by rewrite D in T.
    + unfold TextTools.trans_file_2_utf8. rewrite I, T.
      by rewrite bool_decide_false.
  - destruct (encode_utf8 t) as [data|] eqn:En; injection R as <- <-.
    + split_and!; try done.
      * by apply KEEP.
      * intros p Hp. by rewrite lookup_insert_ne.
      * intros _. by exists text, t, data.
      * intros text' [= <-] _ D. unfold TextTools.trans_bytes_2_utf8 in T.
        by rewrite D in T.
    + split_and!; try done.
      * by apply KEEP.
      * intros p Hp. by rewrite lookup_insert_ne.
  - injection R as <- <-. split_and!; try done.
    + by apply KEEP.
    + intros p Hp. by rewrite lookup_insert_ne.
Qed.

End ToolsFacts.

(** X21, witness: two controllers built without [args]. *)
Lemma append_args_reaches_every_holder_witness :
  let st : list_store := {[ 0 := []; 5 := ["-v"]%string ]} in
  cmd_list (construct "b" None) (append_args (construct "a" None) 5 st)
  = cmd_list (construct "b" None) st ++ st !!! 5.
Proof.
  cbv zeta.
  destruct (append_args_reaches_every_holder "a" "b" None None 5
              {[ 0 := []; 5 := ["-v"]%string ]}) as (_ & _ & _ & H & _).
  - exists []. reflexivity.
  - by destruct (H eq_refl eq_refl).
Defined.

(** X22, witness: a path asked for before its file exists. *)
Lemma detect_file_encoding_answers_once_witness :
  let r := detect_file_encoding (toy_detect false) "f" ∅ ∅ in
  fst (detect_file_encoding (toy_detect false) "f" {[ "f"%string := b_ "abc" ]} (snd r))
  = None.
Proof.
  cbv zeta.
  destruct (detect_file_encoding_answers_once (toy_detect false) "f" ∅ ∅)
    as (_ & _ & _ & H).
  apply H; reflexivity.
Defined.

(** X23, witness: an input the detector does not recognise. *)
Lemma trans_file_2_utf8_works_once_witness :
  let fs : files := {[ "in"%string := [xff] ]} in
  trans_file_2_utf8 small_registry (toy_detect false) ascii_encode "in" "out" fs
  = (false, <["out"%string := []]> fs).
Proof.
  cbv zeta.
  destruct (trans_file_2_utf8_works_once small_registry (toy_detect false) ascii_encode
              "in" "out" {[ "in"%string := [xff] ]}) as (_ & _ & _ & H & _).
  apply (H [xff]); reflexivity.
Defined.
